(** * node-red-contrib-amqp: the resilient resource handler, the pool,
      the sender and the subscriber

    A shallow embedding of [src/core/resource.ts], [src/core/pool.ts],
    [src/core/connection.ts], [src/core/sender.ts] and
    [src/core/subscriber.ts], and the properties of the specification
    checked against it.

    The code is asynchronous JavaScript.  It is embedded turn by turn: every
    function below is what the source does from the moment it is entered (by
    a call of the owner, a timer, or the settlement of a promise of the
    outside world) until no continuation is left to run.  What stays
    suspended is kept in the state: the retry chains of [__connect] with the
    continuations awaiting them, and the delay of [__handleReconnect].

    Conventions:
    - the handler is an event emitter; [emit] is recorded as a call, in the
      order of the calls, and the listeners are taken not to call the handler
      back while it emits and not to throw (an [error] listener is
      registered);
    - amqplib, p-retry, object-hash, [JSON.stringify] and [Buffer.from] are
      not code of the repository: what they answer is an argument or an event
      of the embedding, or follows their documented behaviour;
    - timers are events: the delays of the retry policy and of the
      reconnection are not computed. *)

From Stdlib Require Import Ascii.
From stdpp Require Import base option list gmap strings pretty.

Open Scope string_scope.
Open Scope list_scope.

(** ** ResourceHandler ([src/core/resource.ts]) *)

Module Resource.

Inductive ResourceStatus := Connecting | Connected | Error | Closing | Closed.

(** The [Error] objects the handler makes or passes on. *)
Inductive error :=
| NotAvailable (name : string)  (* `${name} is not available` *)
| IsClosed (name : string)      (* `${name} is closed` *)
| Aborted                       (* `Connection is aborted` *)
| Failure (message : string).   (* an error of the factory or of the resource *)

(** A resource (an amqplib connection or channel) is an object of the
    outside world, known by its identity. *)
Definition res := nat.

(** [amqp.ConsumeMessage], as far as the nodes read it:
    [msg.fields.routingKey] and [msg.content]. *)
Record ConsumeMessage := {
  routingKey : string;
  content : list Byte.byte
}.

(** What [this.emit] is called with, [status] apart (see [SetStatus]). *)
Inductive emitted :=
| EvOpen
| EvClose
| EvError (e : error)
| EvRetry (e : error) (attemptNumber retriesLeft : nat)
| EvMessage (m : ConsumeMessage)
| EvErrorNull.                  (* this.emit('error', null) *)

(** Everything the handler does that can be seen from outside it, in the
    order of the calls. *)
Inductive action :=
| SetStatus (s : ResourceStatus)  (* __setStatus(s): the state changes at once, `status` is emitted on the next tick *)
| Emit (ev : emitted)             (* this.emit(...) *)
| RemoveOwnListeners              (* this.removeAllListeners() *)
| FactoryCall                     (* this.__factory() *)
| Subscribe (r : res)             (* __subscribe(r) *)
| RemoveAllListeners (r : res)    (* r.removeAllListeners() *)
| CallCloser (r : res)            (* this.__opts.closer(r) *)
| CallClose (r : res).            (* r.close() *)

(** [ResourceHandlerOptions] as the caller passes them ([opts?]), the
    fields the control flow reads.  The delays of the retry policy
    (minTimeout, maxTimeout, factor, randomize) only say when a timer
    fires, which the embedding leaves to the outside; [eventBindings] only
    forwards further events of the resource. *)
Record ResourceHandlerOptions := {
  name : option string;
  closer : bool;            (* was a closer supplied? *)
  retries : option nat      (* opts.retry.retries *)
}.

(** [this.__opts], as the constructor fills it in (lines 48-59). *)
Record Options := {
  o_name : string;
  o_closer : bool;
  o_retries : nat
}.

(** A continuation suspended at an [await this.__resource]. *)
Inductive waiter :=
| WClose        (* close(), line 103 *)
| WResource     (* resource(), line 75 *)
| WConnect      (* connect() called by the owner, line 87 *)
| WSetToClose.  (* __setToClose > __attemptReconnect > connect(), lines 244, 279, 87 *)

(** One [retry(...).then(...).catch(...)] chain of [__connect]. *)
Inductive chain_state :=
| AwaitFactory (k : nat)       (* attempt k runs: the factory's promise is pending *)
| AwaitBackoff (k : nat)       (* attempt k failed: the timer before attempt k+1 is pending *)
| Settled (v : option res).    (* the chain's promise is fulfilled, with the resource or null *)

Record chain := {
  c_state : chain_state;
  c_errors : list error;       (* the errors p-retry has collected *)
  c_waiters : list waiter
}.

(** The promise held in [__resource]: the promise of a chain, or the
    rejected promise [__setToClose] puts there. *)
Inductive slot :=
| OfChain (i : nat)
| RejectedWith (e : error).

Record ResourceHandler := {
  __opts : Options;
  __status : ResourceStatus;
  __resource : slot;
  __err : option error;         (* [None]: undefined, or null *)
  isReconnecting : bool;
  reconnectAttempts : nat;
  delayPending : bool;          (* the __delay of __handleReconnect has not fired yet *)
  chains : list chain;          (* every chain made by __connect, oldest first *)
  subscribed : list res;        (* the resources that carry the handler's listeners *)
  trace : list action
}.

#[global] Instance ResourceStatus_eq_dec : EqDecision ResourceStatus.
Proof. solve_decision. Defined.
#[global] Instance error_eq_dec : EqDecision error.
Proof. solve_decision. Defined.

Definition maxReconnectAttempts : nat := 5.

(** *** Field updates *)

Definition with_status (s : ResourceStatus) (h : ResourceHandler) : ResourceHandler :=
  match h with
  | Build_ResourceHandler o _ p e rc ra dp cs sub tr =>
      Build_ResourceHandler o s p e rc ra dp cs sub tr
  end.

Definition with_resource (p : slot) (h : ResourceHandler) : ResourceHandler :=
  match h with
  | Build_ResourceHandler o s _ e rc ra dp cs sub tr =>
      Build_ResourceHandler o s p e rc ra dp cs sub tr
  end.

Definition with_err (e : option error) (h : ResourceHandler) : ResourceHandler :=
  match h with
  | Build_ResourceHandler o s p _ rc ra dp cs sub tr =>
      Build_ResourceHandler o s p e rc ra dp cs sub tr
  end.

Definition with_reconnect (b : bool) (n : nat) (d : bool) (h : ResourceHandler)
    : ResourceHandler :=
  match h with
  | Build_ResourceHandler o s p e _ _ _ cs sub tr =>
      Build_ResourceHandler o s p e b n d cs sub tr
  end.

Definition with_chains (cs : list chain) (h : ResourceHandler) : ResourceHandler :=
  match h with
  | Build_ResourceHandler o s p e rc ra dp _ sub tr =>
      Build_ResourceHandler o s p e rc ra dp cs sub tr
  end.

Definition with_subscribed (rs : list res) (h : ResourceHandler) : ResourceHandler :=
  match h with
  | Build_ResourceHandler o s p e rc ra dp cs _ tr =>
      Build_ResourceHandler o s p e rc ra dp cs rs tr
  end.

Definition record (a : action) (h : ResourceHandler) : ResourceHandler :=
  match h with
  | Build_ResourceHandler o s p e rc ra dp cs sub tr =>
      Build_ResourceHandler o s p e rc ra dp cs sub (tr ++ [a])
  end.

(** *** Small helpers *)

Definition message (e : error) : string :=
  match e with
  | NotAvailable n => n +:+ " is not available"
  | IsClosed n => n +:+ " is closed"
  | Aborted => "Connection is aborted"
  | Failure m => m
  end.

(** The names of the properties of [Object.prototype]. *)
Definition Object_prototype : list string :=
  ["constructor"; "__defineGetter__"; "__defineSetter__"; "hasOwnProperty";
   "__lookupGetter__"; "__lookupSetter__"; "isPrototypeOf"; "propertyIsEnumerable";
   "toString"; "valueOf"; "__proto__"; "toLocaleString"].

(** [operation.mainError()] of the retry package: the error whose message
    was collected most often, the latest one among equals; null ([None])
    when no error is picked.  The messages are counted in a plain object,
    [counts = {}], by [(counts[message] || 0) + 1]: for a message that
    names a property of [Object.prototype] the object answers with that
    property, the sum is a string, the comparison [count >= mainErrorCount]
    is false, and the string stored keeps it so; such an error is never
    picked. *)
Fixpoint mainError_from (counts : gmap string nat) (main : option error)
    (mainCount : nat) (errs : list error) : option error :=
  match errs with
  | [] => main
  | e :: errs' =>
      if decide (message e ∈ Object_prototype)
      then mainError_from counts main mainCount errs'
      else
        let count := default 0 (counts !! message e) + 1 in
        let counts' := <[message e := count]> counts in
        if decide (mainCount ≤ count)%nat
        then mainError_from counts' (Some e) count errs'
        else mainError_from counts' main mainCount errs'
  end.

Definition mainError (errs : list error) : option error :=
  mainError_from ∅ None 0 errs.

(** What an [await this.__resource] finds. *)
Inductive awaited :=
| Pending (i : nat)          (* chain i has not settled: the continuation waits *)
| Got (v : option res)
| Thrown (e : error).

Definition await (h : ResourceHandler) : awaited :=
  match __resource h with
  | RejectedWith e => Thrown e
  | OfChain i =>
      match c_state <$> chains h !! i with
      | Some (Settled v) => Got v
      | _ => Pending i
      end
  end.

Definition set_chain (i : nat) (st : chain_state) (errs : list error)
    (ws : list waiter) (h : ResourceHandler) : ResourceHandler :=
  with_chains (<[i := {| c_state := st; c_errors := errs; c_waiters := ws |}]> (chains h)) h.

Definition add_waiter (i : nat) (w : waiter) (h : ResourceHandler) : ResourceHandler :=
  match chains h !! i with
  | Some c => set_chain i (c_state c) (c_errors c) (c_waiters c ++ [w]) h
  | None => h
  end.

(** How a call that returns a promise ends. *)
Inductive completion (A : Type) :=
| Resolves (a : A)
| Rejects (e : error)
| Waits (i : nat).           (* suspended until chain i settles *)
Arguments Resolves {A} a.
Arguments Rejects {A} e.
Arguments Waits {A} i.

(** *** The methods, in the order of the source *)

(** [__setStatus] (lines 288-294). *)
Definition __setStatus (nextStatus : ResourceStatus) (h : ResourceHandler) : ResourceHandler :=
  record (SetStatus nextStatus) (with_status nextStatus h).

Definition emit (ev : emitted) (h : ResourceHandler) : ResourceHandler :=
  record (Emit ev) h.

Definition removeAllListeners (r : res) (h : ResourceHandler) : ResourceHandler :=
  record (RemoveAllListeners r) (with_subscribed (filter (λ x, x ≠ r) (subscribed h)) h).

(** [__connect] (lines 173-231), up to the end of the call.  [retry] runs
    its first attempt at once; the status was set to Connecting two lines
    above, so the test of line 190 fails and the factory is called.  The
    later attempts and the [then] and [catch] callbacks are [attempt],
    [chain_then] and [chain_catch] below. *)
Definition __connect (force : bool) (h : ResourceHandler) : ResourceHandler :=
  if negb force &&
     match __status h with
     | Connecting | Connected | Closing | Closed => true
     | Error => false
     end
  then h
  else
    let h := __setStatus Connecting h in
    let h := with_err None h in
    let i := length (chains h) in
    let h := record FactoryCall h in
    let h := with_chains (chains h ++ [{| c_state := AwaitFactory 1; c_errors := []; c_waiters := [] |}]) h in
    with_resource (OfChain i) h.

(** [connect] (lines 84-88): the handler after the call, and what its
    [await this.__resource] finds. *)
Definition connect (h : ResourceHandler) : ResourceHandler * awaited :=
  let h := __connect false h in
  (h, await h).

(** [__attemptReconnect] (lines 276-281); [Got None] stands for a return
    without waiting. *)
Definition __attemptReconnect (h : ResourceHandler) : ResourceHandler * awaited :=
  if decide (__status h ≠ Connected) then connect h else (h, Got None).

(** The second [try] block of [__setToClose] (lines 261-267). *)
Definition teardown (h : ResourceHandler) : ResourceHandler :=
  let h := with_resource (RejectedWith (IsClosed (o_name (__opts h)))) h in
  let h := __setStatus Closed h in
  let h := emit EvClose h in
  record RemoveOwnListeners h.

(** [__setToClose] from the return of [__attemptReconnect] on (lines
    246-272). *)
Definition __setToClose_resume (h : ResourceHandler) : ResourceHandler :=
  if decide (__status h = Connected) then h else teardown h.

(** [__setToClose] (lines 232-273) as far as it runs without waiting.  When
    the promise awaited in [connect] is pending, the rest waits for it
    ([WSetToClose]); this is always so when the handler is Connecting or
    Closing (lemma [reachable_acquiring]). *)
Definition __setToClose (h : ResourceHandler) : ResourceHandler :=
  if isReconnecting h then h
  else
    let '(h, a) := __attemptReconnect h in
    match a with
    | Pending i => add_waiter i WSetToClose h
    | Got _ => __setToClose_resume h
    | Thrown e => teardown (with_err (Some e) h)
    end.

(** Lines 111-115: the closer if one was supplied, the resource's own
    [close] otherwise. *)
Definition closing_call (h : ResourceHandler) (r : res) : action :=
  if o_closer (__opts h) then CallCloser r else CallClose r.

(** [close] from line 105 on, once [await this.__resource] has given [v]. *)
Definition close_resume (v : option res) (h : ResourceHandler) : ResourceHandler :=
  match v with
  | None => h
  | Some r =>
      let h := removeAllListeners r h in
      record (closing_call h r) h
  end.

Definition resume (v : option res) (h : ResourceHandler) (w : waiter) : ResourceHandler :=
  match w with
  | WClose => close_resume v h
  | WResource => h
  | WConnect => h
  | WSetToClose => __setToClose_resume h
  end.

(** The promise of chain [i] is fulfilled with [v]: the continuations
    awaiting it run, in the order in which they started to wait. *)
Definition settle (i : nat) (v : option res) (h : ResourceHandler) : ResourceHandler :=
  match chains h !! i with
  | None => h
  | Some c =>
      let h := set_chain i (Settled v) (c_errors c) [] h in
      foldl (resume v) h (c_waiters c)
  end.

(** The [catch] callback of the chain (lines 223-230). *)
Definition chain_catch (i : nat) (err : error) (h : ResourceHandler) : ResourceHandler :=
  let h := with_err (Some err) h in
  let h := __setStatus Error h in
  let h := emit (EvError err) h in
  settle i None h.

(** The same callback when the chain is rejected with null: [__err] holds
    null, not an error, and [error] is emitted with null. *)
Definition chain_catch_null (i : nat) (h : ResourceHandler) : ResourceHandler :=
  let h := with_err None h in
  let h := __setStatus Error h in
  let h := emit EvErrorNull h in
  settle i None h.

(** [__subscribe] (lines 118-139). *)
Definition __subscribe (r : res) (h : ResourceHandler) : ResourceHandler :=
  record (Subscribe r) (with_subscribed (r :: subscribed h) h).

(** The [then] callback of the chain (lines 207-222). *)
Definition chain_then (i : nat) (r : res) (h : ResourceHandler) : ResourceHandler :=
  if decide (__status h = Closing) then
    let h := __setToClose h in
    chain_catch i (IsClosed (o_name (__opts h))) h
  else
    let h := __subscribe r h in
    let h := __setStatus Connected h in
    let h := emit EvOpen h in
    settle i (Some r) h.

(** Attempt [k] of chain [i]: the function given to [retry] (lines
    189-197).  An [AbortError] makes p-retry stop and reject with the
    error it wraps, which the [catch] callback receives. *)
Definition attempt (i k : nat) (h : ResourceHandler) : ResourceHandler :=
  match chains h !! i with
  | None => h
  | Some c =>
      if decide (__status h = Closing) then
        let h := __setToClose h in
        chain_catch i Aborted h
      else
        set_chain i (AwaitFactory k) (c_errors c) (c_waiters c) (record FactoryCall h)
  end.

(** [__handleReconnect] (lines 142-171) up to its [await this.__delay]. *)
Definition __handleReconnect (h : ResourceHandler) : ResourceHandler :=
  if isReconnecting h then h
  else
    let h := with_reconnect true 0 (delayPending h) h in
    if decide (reconnectAttempts h < maxReconnectAttempts)%nat then
      with_reconnect true (S (reconnectAttempts h)) true h
    else
      __setToClose (with_reconnect false (reconnectAttempts h) (delayPending h) h).

(** [__handleReconnect] once the delay is over (lines 157-161).
    [__connect] returns nothing and throws nothing, so the [await] of line
    158 goes on at once, the [catch] of line 162 is never entered and the
    loop ends in its first round. *)
Definition __handleReconnect_resume (h : ResourceHandler) : ResourceHandler :=
  let h := with_reconnect (isReconnecting h) (reconnectAttempts h) false h in
  let h := __connect true h in
  with_reconnect false (reconnectAttempts h) (delayPending h) h.

(** The listener of the resource's [error] event (lines 119-125). *)
Definition on_error (r : res) (err : error) (h : ResourceHandler) : ResourceHandler :=
  let h := removeAllListeners r h in
  let h := with_err (Some err) h in
  let h := __setStatus Error h in
  let h := __handleReconnect h in
  emit (EvError err) h.

(** The listener of the resource's [close] event (lines 127-130). *)
Definition on_close (r : res) (h : ResourceHandler) : ResourceHandler :=
  let h := removeAllListeners r h in
  __setToClose h.

(** [resource] (lines 74-82). *)
Definition resource (h : ResourceHandler) : ResourceHandler * completion res :=
  match await h with
  | Pending i => (add_waiter i WResource h, Waits i)
  | Got None => (h, Rejects (NotAvailable (o_name (__opts h))))
  | Got (Some r) => (h, Resolves r)
  | Thrown e => (h, Rejects e)
  end.

(** [connect] (lines 84-88) called by the owner. *)
Definition owner_connect (h : ResourceHandler) : ResourceHandler * completion unit :=
  let '(h, a) := connect h in
  match a with
  | Pending i => (add_waiter i WConnect h, Waits i)
  | Got _ => (h, Resolves ())
  | Thrown e => (h, Rejects e)
  end.

(** [close] (lines 90-116); [closed] is what the promise of [closer(res)]
    or [res.close()] settles to if it is made, [None] for success. *)
Definition close (h : ResourceHandler) (closed : option error)
    : ResourceHandler * completion unit :=
  if decide (__status h = Closed) then
    (h, Rejects (IsClosed (o_name (__opts h))))
  else if decide (__status h = Connecting) then
    (__setStatus Closing h, Resolves ())
  else
    let h := __setStatus Closed h in
    match await h with
    | Pending i => (add_waiter i WClose h, Waits i)
    | Got None => (h, Resolves ())
    | Got (Some r) =>
        (close_resume (Some r) h,
         match closed with Some e => Rejects e | None => Resolves () end)
    | Thrown e => (h, Rejects e)
    end.

(** The constructor (lines 45-64).  [x || d] takes [d] for an absent, empty
    or zero [x].  [__resource] is set by the [__connect(true)] of line 63. *)
Definition new (opts : ResourceHandlerOptions) : ResourceHandler :=
  let o := {| o_name := match name opts with
                        | Some n => if decide (n = EmptyString) then "Resource" else n
                        | None => "Resource"
                        end;
              o_closer := closer opts;
              o_retries := match retries opts with
                           | Some (S n) => S n
                           | _ => 10
                           end |} in
  __connect true
    {| __opts := o; __status := Connecting; __resource := OfChain 0; __err := None;
       isReconnecting := false; reconnectAttempts := 0; delayPending := false;
       chains := []; subscribed := []; trace := [] |}.

(** *** The outside world

    p-retry on a settled attempt: the factory's promise of attempt [k] of
    chain [i] is fulfilled, or rejected with an error that is neither an
    [AbortError] nor a [TypeError]; [onFailedAttempt] is called with the
    error and its counts, then the next attempt is scheduled while one of
    the [retries] timeouts is left, and the chain is rejected with
    [mainError()] otherwise. *)

Definition factory_resolves (i : nat) (r : res) (h : ResourceHandler) : option ResourceHandler :=
  match chains h !! i with
  | Some {| c_state := AwaitFactory k |} => Some (chain_then i r h)
  | _ => None
  end.

Definition factory_rejects (i : nat) (err : error) (h : ResourceHandler) : option ResourceHandler :=
  match chains h !! i with
  | Some {| c_state := AwaitFactory k; c_errors := errs; c_waiters := ws |} =>
      let retriesLeft := (o_retries (__opts h) - (k - 1))%nat in
      let h := emit (EvRetry err k retriesLeft) h in
      let errs := errs ++ [err] in
      if decide (k ≤ o_retries (__opts h))%nat then
        Some (set_chain i (AwaitBackoff k) errs ws h)
      else
        let h := set_chain i (AwaitFactory k) errs ws h in
        Some (match mainError errs with
              | Some main => chain_catch i main h
              | None => chain_catch_null i h
              end)
  | _ => None
  end.

Definition backoff_elapses (i : nat) (h : ResourceHandler) : option ResourceHandler :=
  match chains h !! i with
  | Some {| c_state := AwaitBackoff k |} => Some (attempt i (S k) h)
  | _ => None
  end.

Definition delay_elapses (h : ResourceHandler) : option ResourceHandler :=
  if delayPending h then Some (__handleReconnect_resume h) else None.

Inductive event :=
| FactoryResolves (i : nat) (r : res)
| FactoryRejects (i : nat) (err : error)
| BackoffElapses (i : nat)
| DelayElapses
| ResourceError (r : res) (err : error)
| ResourceClose (r : res)
| OwnerClose
| OwnerConnect
| OwnerResource.

(** One turn of the handler; [None] when the event cannot happen in this
    state (no such attempt or timer is pending, the resource does not carry
    the handler's listeners). *)
Definition step (h : ResourceHandler) (ev : event) : option ResourceHandler :=
  match ev with
  | FactoryResolves i r => factory_resolves i r h
  | FactoryRejects i err => factory_rejects i err h
  | BackoffElapses i => backoff_elapses i h
  | DelayElapses => delay_elapses h
  | ResourceError r err => if decide (r ∈ subscribed h) then Some (on_error r err h) else None
  | ResourceClose r => if decide (r ∈ subscribed h) then Some (on_close r h) else None
  | OwnerClose => Some (close h None).1
  | OwnerConnect => Some (owner_connect h).1
  | OwnerResource => Some (resource h).1
  end.

Fixpoint run (h : ResourceHandler) (evs : list event) : option ResourceHandler :=
  match evs with
  | [] => Some h
  | ev :: evs' =>
      match step h ev with
      | Some h' => run h' evs'
      | None => None
      end
  end.

(** The [emit] calls and the status changes of a trace. *)
Definition emits (t : list action) : list emitted :=
  omap (λ a, match a with Emit ev => Some ev | _ => None end) t.

Definition statuses (t : list action) : list ResourceStatus :=
  omap (λ a, match a with SetStatus s => Some s | _ => None end) t.

(** The actions by which a handler connects: a call of the factory, a
    subscription to a resource, the statuses Connecting and Connected, the
    [open] event. *)
Definition connects (a : action) : bool :=
  match a with
  | FactoryCall | Subscribe _ | SetStatus Connecting | SetStatus Connected
  | Emit EvOpen => true
  | _ => false
  end.

(** [h'] is [h] torn down by [__setToClose]: the status is Closed, the
    slot holds the rejected promise, and nothing done since [h] connects. *)
Definition torn_down (h h' : ResourceHandler) : Prop :=
  __status h' = Closed ∧
  __resource h' = RejectedWith (IsClosed (o_name (__opts h))) ∧
  subscribed h' = subscribed h ∧
  ∃ t, trace h' = trace h ++ t ∧ Forall (λ a, connects a = false) t.

(** The states of a handler: what events make of a new one. *)
Definition reachable (h : ResourceHandler) : Prop :=
  ∃ opts evs, run (new opts) evs = Some h.

(** The statuses in which an acquisition is expected to be under way. *)
Definition busy (h : ResourceHandler) : Prop :=
  __status h = Connecting ∨ __status h = Closing.

(** [__resource] holds the promise of a chain that has not settled. *)
Definition acquiring (h : ResourceHandler) : Prop :=
  ∃ i c, __resource h = OfChain i ∧ chains h !! i = Some c ∧ ∀ v, c_state c ≠ Settled v.

(** The [retry] events of the failed attempts [k], [k+1], ... with the
    errors [errs], as p-retry counts them. *)
Fixpoint retry_events (retries k : nat) (errs : list error) : list emitted :=
  match errs with
  | [] => []
  | e :: errs' => EvRetry e k (retries - (k - 1)) :: retry_events retries (S k) errs'
  end.

(** The events of attempts failing with [errs], each followed by its
    backoff, on chain [i]. *)
Definition failures (i : nat) (errs : list error) : list event :=
  flat_map (λ e, [FactoryRejects i e; BackoffElapses i]) errs.

(** The actions made on a resource: subscribing to it, removing its
    listeners, closing it. *)
Definition on_resource (a : action) : bool :=
  match a with
  | Subscribe _ | RemoveAllListeners _ | CallCloser _ | CallClose _ => true
  | _ => false
  end.

(** The status last given to [__setStatus] is the current one. *)
Definition announced (h : ResourceHandler) : Prop :=
  last (statuses (trace h)) = Some (__status h).

(** The calls of the owner. *)
Definition owner_call (ev : event) : bool :=
  match ev with
  | OwnerClose | OwnerConnect | OwnerResource => true
  | _ => false
  end.

(** The state of the reconnection loop of [__handleReconnect]. *)
Definition reconnection (h : ResourceHandler) : bool * nat * bool :=
  (isReconnecting h, reconnectAttempts h, delayPending h).

(** [h'] comes from [h] by code that leaves the reconnection loop alone
    and changes the status through [__setStatus] only. *)
Definition steady (h h' : ResourceHandler) : Prop :=
  reconnection h' = reconnection h ∧ (announced h → announced h').

(** The calls that close a resource. *)
Definition closes (a : action) : bool :=
  match a with
  | CallCloser _ | CallClose _ => true
  | _ => false
  end.

(** No resource has been closed and no [close()] is waiting to close
    one. *)
Definition unclosed (h : ResourceHandler) : Prop :=
  Forall (λ a, closes a = false) (trace h) ∧
  Forall (λ c, WClose ∉ c_waiters c) (chains h).

(** What [error] was emitted with, in order: an error, or null ([None]). *)
Definition reported (t : list action) : list (option error) :=
  omap (λ a, match a with
             | Emit (EvError e) => Some (Some e)
             | Emit EvErrorNull => Some None
             | _ => None
             end) t.

(** What the getters [status] and [error] (lines 66-72) give together:
    with the status Error, what [error] was last emitted with; nothing
    while an acquisition is expected. *)
Definition error_matches_status (h : ResourceHandler) : Prop :=
  (__status h = Error → last (reported (trace h)) = Some (__err h)) ∧
  (busy h → __err h = None).

(** Nothing of the handler is under way: no reconnection delay is pending,
    no attempt or backoff of a chain is, and the only resource that carries
    listeners is the one held. *)
Definition settled (h : ResourceHandler) : Prop :=
  delayPending h = false ∧
  Forall (λ c, ∃ v, c_state c = Settled v) (chains h) ∧
  ∀ r, r ∈ subscribed h → await h = Got (Some r).

(** A closed handler with nothing under way and no listeners left. *)
Definition frozen (h : ResourceHandler) : Prop :=
  __status h = Closed ∧
  delayPending h = false ∧
  Forall (λ c, ∃ v, c_state c = Settled v) (chains h) ∧
  subscribed h = [].

End Resource.

(** ** The amqplib calls the wrappers make *)

Module Amqp.

(** [JSON.stringify] works on JavaScript values ([payload: any]).  A
    number is given by what [ToString] prints for it, which is what
    [JSON.stringify] writes for a finite number; an object by its own
    enumerable properties in the order of their enumeration, without
    [toJSON]; [Cycle] stands for a reference to an array or object from
    inside itself. *)
#[warnings="-register-all"] Inductive value :=
| Undefined
| Null
| Bool (b : bool)
| Number (text : string)
| String (s : string)
| Array (l : list value)
| Object (l : list (string * value))
| Function
| Symbol
| BigInt (z : Z)
| Cycle.

(** What [JSON.stringify(v)] gives: a text, [undefined], or a
    [TypeError]. *)
Inductive stringified :=
| Text (s : string)
| NoText
| Throws.

(** The calls on amqplib connections and channels, in order. *)
Inductive call :=
| CreateChannel (conn : Resource.res)
| Consume (ch : Resource.res) (queue : string) (noAck : bool)
| Publish (ch : Resource.res) (exchange routingKey : string)
          (content : list Byte.byte) (options : option value)
| Ack (ch : Resource.res)
| Nack (ch : Resource.res)
| Close (r : Resource.res).

Definition hex_digit (n : N) : Ascii.ascii :=
  match n with
  | 0 => "0" | 1 => "1" | 2 => "2" | 3 => "3" | 4 => "4" | 5 => "5" | 6 => "6"
  | 7 => "7" | 8 => "8" | 9 => "9" | 10 => "a" | 11 => "b" | 12 => "c"
  | 13 => "d" | 14 => "e" | _ => "f"
  end%N%char.

Definition quotation_mark : Ascii.ascii := "034"%char.

(** QuoteJSONString of ECMAScript, on a string held as its UTF-8 bytes. *)
Definition escape (c : Ascii.ascii) : string :=
  let n := Ascii.N_of_ascii c in
  if decide (n = 34)%N then String.String "\" (String.String quotation_mark EmptyString)
  else if decide (n = 92)%N then "\\"
  else if decide (n = 8)%N then "\b"
  else if decide (n = 12)%N then "\f"
  else if decide (n = 10)%N then "\n"
  else if decide (n = 13)%N then "\r"
  else if decide (n = 9)%N then "\t"
  else if decide (n < 32)%N then
    "\u00" +:+ String.String (hex_digit (n `div` 16))
                 (String.String (hex_digit (n `mod` 16)) EmptyString)
  else String.String c EmptyString.

Fixpoint quote_go (s : string) : string :=
  match s with
  | EmptyString => EmptyString
  | String.String c s' => escape c +:+ quote_go s'
  end.

Definition quote (s : string) : string :=
  String.String quotation_mark (quote_go s +:+ String.String quotation_mark EmptyString).

Definition throws (r : stringified) : bool :=
  match r with Throws => true | _ => false end.

(** [JSON.stringify(v)].  Undefined, functions and symbols have no text:
    the result is [undefined], an element of an array is written [null] and
    a property of an object is left out.  A number that is not finite is
    written [null].  A BigInt or a cycle anywhere throws. *)
Fixpoint JSON_stringify (v : value) : stringified :=
  match v with
  | Undefined | Function | Symbol => NoText
  | Null => Text "null"
  | Bool true => Text "true"
  | Bool false => Text "false"
  | Number text =>
      Text (if decide (text ∈ ["NaN"; "Infinity"; "-Infinity"]) then "null" else text)
  | String s => Text (quote s)
  | BigInt _ | Cycle => Throws
  | Array l =>
      let parts := map JSON_stringify l in
      if existsb throws parts then Throws
      else
        Text ("[" +:+ String.concat ","
                (map (λ p, match p with Text s => s | _ => "null" end) parts) +:+ "]")
  | Object l =>
      let parts := map (λ kv, match kv with (k, x) => (k, JSON_stringify x) end) l in
      if existsb (λ kp, throws kp.2) parts then Throws
      else
        Text ("{" +:+ String.concat ","
                (omap (λ kp, match kp.2 with
                             | Text s => Some (quote kp.1 +:+ ":" +:+ s)
                             | _ => None
                             end) parts) +:+ "}")
  end.

(** [Buffer.from(s, 'utf8')]: a [TypeError] ([None]) when [s] is not a
    string. *)
Definition Buffer_from (s : option string) : option (list Byte.byte) :=
  String.list_byte_of_string <$> s.

(** Well-formed UTF-8 (RFC 3629), on the numbers of the bytes. *)
Definition continuation (b : N) : bool := bool_decide (128 ≤ b ≤ 191)%N.

Fixpoint utf8 (bs : list N) : bool :=
  match bs with
  | [] => true
  | b1 :: bs1 =>
      if bool_decide (b1 < 128)%N then utf8 bs1
      else
        match bs1 with
        | [] => false
        | b2 :: bs2 =>
            if bool_decide (194 ≤ b1 ≤ 223)%N then continuation b2 && utf8 bs2
            else
              match bs2 with
              | [] => false
              | b3 :: bs3 =>
                  if bool_decide (224 ≤ b1 ≤ 239)%N then
                    (if bool_decide (b1 = 224)%N then bool_decide (160 ≤ b2 ≤ 191)%N
                     else if bool_decide (b1 = 237)%N then bool_decide (128 ≤ b2 ≤ 159)%N
                     else continuation b2)
                    && continuation b3 && utf8 bs3
                  else
                    match bs3 with
                    | [] => false
                    | b4 :: bs4 =>
                        bool_decide (240 ≤ b1 ≤ 244)%N
                        && (if bool_decide (b1 = 240)%N then bool_decide (144 ≤ b2 ≤ 191)%N
                            else if bool_decide (b1 = 244)%N
                                 then bool_decide (128 ≤ b2 ≤ 143)%N
                                 else continuation b2)
                        && continuation b3 && continuation b4 && utf8 bs4
                    end
              end
        end
  end.

(** [buf.toString('utf8')].  A string is held as its UTF-8 bytes, so that
    decoding well-formed bytes keeps them; on ill-formed bytes Node puts
    U+FFFD in the place of what it cannot decode, which is not embedded:
    [None]. *)
Definition Buffer_toString (buf : list Byte.byte) : option string :=
  if utf8 (Byte.to_N <$> buf) then Some (String.string_of_list_byte buf) else None.

End Amqp.

(** ** Reading the CA certificate ([src/core/tls.ts])

    The file system is an argument of the embedding: what reading a path
    gives. *)

Module Tls.

Definition DEFAULT_CA_LOCATION : string := "/etc/ssl/certs/ca-certificates.crt".

(** What reading a file gives: its bytes, or the error of [fs]. *)
Definition files := string → Resource.error + list Byte.byte.

(** [readFileAsync]: the promise is fulfilled with the result of
    [fs.readFile] or rejected with its error. *)
Definition readFileAsync (fs : files) (filepath : string)
    : Resource.error + list Byte.byte :=
  fs filepath.

(** [cert]: what its promise settles to.  An absent or empty [filepath]
    is falsy; [readFileSync] throws inside an [async] function, which
    rejects the promise. *)
Definition cert (fs : files) (filepath : option string)
    : Resource.error + list Byte.byte :=
  match filepath with
  | Some p =>
      if decide (p = EmptyString) then fs DEFAULT_CA_LOCATION else readFileAsync fs p
  | None => fs DEFAULT_CA_LOCATION
  end.

End Tls.

(** ** The arguments of [amqp.connect] *)

Module AmqpConnect.

Record Options := {
  protocol : string;
  vhost : string;
  username : string;
  password : string;
  hostname : string;
  port : Z;
  heartbeat : Z;
  frameMax : Z
}.

(** [socketOpts]: [ca] lists promises, each given by what it settles to. *)
Record SocketOptions := {
  ca : list (Resource.error + list Byte.byte)
}.

End AmqpConnect.

(** ** Listeners (the [EventEmitter] of Node the handler extends)

    The listeners of a handler are kept beside it, as Node documents
    them. *)

Module Emitter.

(** A listener is a function of the owner, known by its identity;
    [l_once] marks the wrapper that [once] registers.  An emitter holds
    its listeners in the order of their registration. *)
Record listener := {
  l_event : string;
  l_handler : nat;
  l_once : bool
}.


#[global] Instance listener_eq_dec : EqDecision listener.
Proof. solve_decision. Defined.

Definition on (event : string) (handler : nat) (em : list listener) : list listener :=
  em ++ [{| l_event := event; l_handler := handler; l_once := false |}].

Definition once (event : string) (handler : nat) (em : list listener) : list listener :=
  em ++ [{| l_event := event; l_handler := handler; l_once := true |}].

(** [off] removes one registration of the handler for the event, the
    most recent one. *)
Fixpoint remove_first (event : string) (handler : nat) (em : list listener) : list listener :=
  match em with
  | [] => []
  | l :: em' =>
      if decide (l_event l = event ∧ l_handler l = handler) then em'
      else l :: remove_first event handler em'
  end.

Definition off (event : string) (handler : nat) (em : list listener) : list listener :=
  reverse (remove_first event handler (reverse em)).

(** [emit]: the listeners of the event are called in the order of their
    registration, those of [once] being removed before they are called.
    The result is the emitter after it and the handlers called. *)
Definition emit (event : string) (em : list listener) : list listener * list nat :=
  (filter (λ l, ¬ (l_event l = event ∧ l_once l = true)) em,
   l_handler <$> filter (λ l, l_event l = event) em).

(** [emit] called [n] times with the same event. *)
Fixpoint emit_times (n : nat) (event : string) (em : list listener) : list listener * list nat :=
  match n with
  | 0 => (em, [])
  | S n' =>
      let '(em1, calls1) := emit event em in
      let '(em2, calls2) := emit_times n' event em1 in
      (em2, calls1 ++ calls2)
  end.

(** How many times the handler is registered for the event, by [on]
    ([once := false]) or by [once]. *)
Definition registered (event : string) (handler : nat) (once : bool) (em : list listener) : nat :=
  length (filter (λ l, l = {| l_event := event; l_handler := handler; l_once := once |}) em).

(** How many times the handler is among the handlers called. *)
Definition called (handler : nat) (calls : list nat) : nat :=
  length (filter (λ x, x = handler) calls).

End Emitter.

(** ** Connection ([src/core/connection.ts], [src/core/settings.ts]) *)

Module Connection.

Record ConnectionSettings := {
  host : string;
  port : Z;
  vhost : string;
  keepAlive : Z;
  useTLS : bool;
  verifyServerCert : bool;
  useCA : bool;
  ca : string;
  useTopology : bool;
  topology : string;
  username : string;
  password : string
}.

#[global] Instance ConnectionSettings_eq_dec : EqDecision ConnectionSettings.
Proof. solve_decision. Defined.

Record Connection := {
  __settings : ConnectionSettings;
  __conn : Resource.ResourceHandler
}.

(** The constructor: the handler is made with the name 'Connection' and
    nothing else, and starts to connect. *)
Definition new (settings : ConnectionSettings) : Connection :=
  {| __settings := settings;
     __conn := Resource.new {| Resource.name := Some "Connection";
                               Resource.closer := false;
                               Resource.retries := None |} |}.

Definition status (c : Connection) : Resource.ResourceStatus :=
  Resource.__status (__conn c).

(** [close]: [return this.__conn.close()]. *)
Definition close (c : Connection) (closed : option Resource.error)
    : Connection * Resource.completion unit :=
  let '(h, p) := Resource.close (__conn c) closed in
  ({| __settings := __settings c; __conn := h |}, p).

(** [createChannel]: the channel amqplib answers with ([answer]) once the
    handler has given the connection. *)
Definition createChannel (c : Connection) (answer : Resource.error + Resource.res)
    : Connection * list Amqp.call * Resource.completion Resource.res :=
  let '(h, p) := Resource.resource (__conn c) in
  let c := {| __settings := __settings c; __conn := h |} in
  match p with
  | Resource.Resolves conn =>
      (c, [Amqp.CreateChannel conn],
       match answer with
       | inl e => Resource.Rejects e
       | inr ch => Resource.Resolves ch
       end)
  | Resource.Rejects e => (c, [], Resource.Rejects e)
  | Resource.Waits i => (c, [], Resource.Waits i)
  end.

(** [openInternal] (lines 8-35): the arguments [amqp.connect] is called
    with, and what the call settles to, [answer] being what amqplib
    answers.  The promise of [cert] is put in [socketOpts] as it is: it is
    not awaited. *)
Definition openInternal (fs : Tls.files) (settings : ConnectionSettings)
    (answer : Resource.error + Resource.res)
    : AmqpConnect.Options * option AmqpConnect.SocketOptions
      * Resource.completion Resource.res :=
  let protocol := if useTLS settings then "amqps" else "amqp" in
  let socketOpts :=
    if useTLS settings then
      let ca := Tls.cert fs (if useCA settings then Some (ca settings) else None) in
      Some {| AmqpConnect.ca := [ca] |}
    else None in
  ({| AmqpConnect.protocol := protocol;
      AmqpConnect.vhost := vhost settings;
      AmqpConnect.username := username settings;
      AmqpConnect.password := password settings;
      AmqpConnect.hostname :=
        if decide (host settings = EmptyString) then "localhost" else host settings;
      AmqpConnect.port := if decide (port settings = 0)%Z then 5672%Z else port settings;
      AmqpConnect.heartbeat := keepAlive settings;
      AmqpConnect.frameMax := 0%Z |},
   socketOpts,
   match answer with
   | inl e => Resource.Rejects e
   | inr conn => Resource.Resolves conn
   end).

(** [ready] (lines 62-64). *)
Definition ready (c : Connection) : Connection * Resource.completion unit :=
  let '(h, p) := Resource.resource (__conn c) in
  ({| __settings := __settings c; __conn := h |},
   match p with
   | Resource.Resolves _ => Resource.Resolves ()
   | Resource.Rejects e => Resource.Rejects e
   | Resource.Waits i => Resource.Waits i
   end).

(** [on], [once] and [off] (lines 66-76), on the listeners of the
    handler. *)
Definition on (event : string) (handler : nat) (em : list Emitter.listener) : list Emitter.listener :=
  Emitter.on event handler em.

Definition once (event : string) (handler : nat) (em : list Emitter.listener) : list Emitter.listener :=
  Emitter.once event handler em.

Definition off (event : string) (handler : nat) (em : list Emitter.listener) : list Emitter.listener :=
  Emitter.off event handler em.

End Connection.

(** ** The pool ([src/core/pool.ts]) *)

Module Pool.

Import Connection.

(** A [Connection] is an object: the pool holds references.  [objects]
    are the connections made so far, a reference is an index in it. *)
Record state := {
  POOL : gmap string nat;
  objects : list Connection
}.

Definition empty : state := {| POOL := ∅; objects := [] |}.

Section WithHash.

(** [toHash] of object-hash. *)
Variable toHash : ConnectionSettings → string.

(** [open] (lines 9-20). *)
Definition open (settings : ConnectionSettings) (st : state) : nat * state :=
  let hash := toHash settings in
  match POOL st !! hash with
  | Some conn => (conn, st)
  | None =>
      let conn := length (objects st) in
      (conn, {| POOL := <[hash := conn]> (POOL st);
                objects := objects st ++ [Connection.new settings] |})
  end.

(** [close] (lines 22-33).  The result of [conn.close()] is neither
    awaited nor returned. *)
Definition close (settings : ConnectionSettings) (st : state)
    : state * Resource.completion unit :=
  let hash := toHash settings in
  match POOL st !! hash with
  | None => (st, Resource.Resolves ())
  | Some conn =>
      let objs :=
        match objects st !! conn with
        | Some c => <[conn := (Connection.close c None).1]> (objects st)
        | None => objects st
        end in
      ({| POOL := delete hash (POOL st); objects := objs |}, Resource.Resolves ())
  end.

Inductive op :=
| Open (settings : ConnectionSettings)
| Close (settings : ConnectionSettings).

Definition apply (st : state) (o : op) : state :=
  match o with
  | Open s => (open s st).2
  | Close s => (close s st).1
  end.

(** The states of the pool: what calls of [open] and [close] make of the
    empty pool of line 5. *)
Definition reachable (st : state) : Prop :=
  ∃ ops : list op, st = foldl apply empty ops.

End WithHash.

(** References in the pool point into [objects], and no connection is
    registered under two fingerprints. *)
Definition pool_wf (st : state) : Prop :=
  (∀ k c, POOL st !! k = Some c → c < length (objects st)) ∧
  (∀ k1 k2 c, POOL st !! k1 = Some c → POOL st !! k2 = Some c → k1 = k2).

Section Live.

Variable toHash : ConnectionSettings → string.

(** What happens to the pool and to the connections it has made: a call of
    [open] or [close], or an event of the handler of a connection. *)
Inductive occurrence :=
| Call (o : op)
| Event (conn : nat) (ev : Resource.event).

Definition deliver (conn : nat) (ev : Resource.event) (st : state) : option state :=
  c ← objects st !! conn;
  h ← Resource.step (__conn c) ev;
  Some {| POOL := POOL st;
          objects := <[conn := {| __settings := __settings c; __conn := h |}]> (objects st) |}.

Definition occur (st : state) (x : occurrence) : option state :=
  match x with
  | Call o => Some (apply toHash st o)
  | Event conn ev => deliver conn ev st
  end.

Fixpoint occurs (st : state) (xs : list occurrence) : option state :=
  match xs with
  | [] => Some st
  | x :: xs' =>
      match occur st x with
      | Some st' => occurs st' xs'
      | None => None
      end
  end.

(** The states of the pool while its connections live: what calls and
    events make of the empty pool. *)
Definition live (st : state) : Prop :=
  ∃ xs, occurs empty xs = Some st.

(** Whether [x] is a call of [close] with settings of the fingerprint
    [hash]. *)
Definition forgets (hash : string) (x : occurrence) : bool :=
  match x with
  | Call (Close settings) => bool_decide (toHash settings = hash)
  | _ => false
  end.

(** Every entry of the pool refers to a connection made with settings of
    that fingerprint, and the handler of every connection has the options
    the constructor gave it. *)
Definition registered (st : state) : Prop :=
  (∀ k c, POOL st !! k = Some c →
     ∃ conn, objects st !! c = Some conn ∧ toHash (__settings conn) = k) ∧
  (∀ c conn, objects st !! c = Some conn →
     Resource.__opts (__conn conn) =
     Resource.__opts (__conn (Connection.new (__settings conn)))).

End Live.

(** The settings a call is made with. *)
Definition op_settings (o : op) : ConnectionSettings :=
  match o with
  | Open settings | Close settings => settings
  end.

End Pool.

(** ** Sender ([src/core/sender.ts]) *)

Module Sender.

Record Sender := {
  __handler : Resource.ResourceHandler;
  __exchange : string
}.

(** The constructor: the factory is [() => conn.createChannel()], the name
    'Sender', and a closer is supplied. *)
Definition new (exchange : string) : Sender :=
  {| __handler := Resource.new {| Resource.name := Some "Sender";
                                  Resource.closer := true;
                                  Resource.retries := None |};
     __exchange := exchange |}.

(** The factory given to the handler: [() => conn.createChannel()]. *)
Definition factory (conn : Connection.Connection) (answer : Resource.error + Resource.res)
    : Connection.Connection * list Amqp.call * Resource.completion Resource.res :=
  Connection.createChannel conn answer.

(** The closer given to the handler: the channel is closed only while the
    connection is connected. *)
Definition closer (conn : Connection.Connection) (ch : Resource.res) : list Amqp.call :=
  if decide (Connection.status conn = Resource.Connected) then [Amqp.Close ch] else [].

(** How [send] ends. *)
Inductive sent :=
| Returns (b : bool)            (* what ch.publish returned *)
| Fails (e : Resource.error)    (* the rejection of resource() *)
| TypeError                     (* thrown by Buffer.from *)
| Waits (i : nat)               (* suspended in resource() *)
| JSONTypeError.                (* thrown by JSON.stringify *)

(** [send]; [flow] is what [ch.publish] returns if it is called. *)
Definition send (s : Sender) (topic : string) (payload : Amqp.value)
    (options : option Amqp.value) (flow : bool) : Sender * list Amqp.call * sent :=
  let '(h, p) := Resource.resource (__handler s) in
  let s := {| __handler := h; __exchange := __exchange s |} in
  match p with
  | Resource.Resolves ch =>
      match Amqp.JSON_stringify payload with
      | Amqp.Throws => (s, [], JSONTypeError)
      | json =>
          match Amqp.Buffer_from
                  match json with Amqp.Text text => Some text | _ => None end with
          | Some content =>
              (s, [Amqp.Publish ch (__exchange s) topic content options], Returns flow)
          | None => (s, [], TypeError)
          end
      end
  | Resource.Rejects e => (s, [], Fails e)
  | Resource.Waits i => (s, [], Waits i)
  end.

(** [close]: [this.__handler.close()] is called and its promise dropped. *)
Definition close (s : Sender) (closed : option Resource.error)
    : Sender * Resource.completion unit :=
  let '(h, _) := Resource.close (__handler s) closed in
  ({| __handler := h; __exchange := __exchange s |}, Resource.Resolves ()).

(** [ready]. *)
Definition ready (s : Sender) : Sender * Resource.completion unit :=
  let '(h, p) := Resource.resource (__handler s) in
  ({| __handler := h; __exchange := __exchange s |},
   match p with
   | Resource.Resolves _ => Resource.Resolves ()
   | Resource.Rejects e => Resource.Rejects e
   | Resource.Waits i => Resource.Waits i
   end).

(** [on], [once] and [off], on the listeners of the handler: [once] calls
    [this.__handler.on]. *)
Definition on (event : string) (handler : nat) (em : list Emitter.listener) : list Emitter.listener :=
  Emitter.on event handler em.

Definition once (event : string) (handler : nat) (em : list Emitter.listener) : list Emitter.listener :=
  Emitter.on event handler em.

Definition off (event : string) (handler : nat) (em : list Emitter.listener) : list Emitter.listener :=
  Emitter.off event handler em.

End Sender.

(** ** Subscriber ([src/core/subscriber.ts]) *)

Module Subscriber.

Record Subscriber := {
  __handler : Resource.ResourceHandler;
  __queue : string
}.

Definition new (queue : string) : Subscriber :=
  {| __handler := Resource.new {| Resource.name := None;
                                  Resource.closer := false;
                                  Resource.retries := None |};
     __queue := queue |}.

(** The factory given to the handler (lines 13-28), run on the connection
    [conn] of the constructor: [answer] is the channel amqplib makes (or
    its failure) and [consumed] what [ch.consume] settles to, [None] for
    success.  The result is what the factory's promise settles to, after
    the calls listed. *)
Definition factory (s : Subscriber) (conn : Connection.Connection)
    (answer : Resource.error + Resource.res) (consumed : option Resource.error)
    : Connection.Connection * list Amqp.call * Resource.completion Resource.res :=
  let '(conn, calls, p) := Connection.createChannel conn answer in
  match p with
  | Resource.Resolves ch =>
      let calls := calls ++ [Amqp.Consume ch (__queue s) true] in
      match consumed with
      | Some e => (conn, calls, Resource.Rejects e)
      | None => (conn, calls, Resource.Resolves ch)
      end
  | _ => (conn, calls, p)
  end.

(** The callback given to [ch.consume] (lines 17-21). *)
Definition on_message (msg : option Resource.ConsumeMessage) (s : Subscriber)
    : Subscriber * list Amqp.call :=
  match msg with
  | Some m =>
      ({| __handler := Resource.emit (Resource.EvMessage m) (__handler s);
          __queue := __queue s |}, [])
  | None => (s, [])
  end.

(** [close]: as in the sender. *)
Definition close (s : Subscriber) (closed : option Resource.error)
    : Subscriber * Resource.completion unit :=
  let '(h, _) := Resource.close (__handler s) closed in
  ({| __handler := h; __queue := __queue s |}, Resource.Resolves ()).

(** [ready] (lines 39-41): [this.__handler.resource] is the method, not
    a call of it; awaiting a value that is not a promise goes on at once. *)
Definition ready (s : Subscriber) : Subscriber * Resource.completion unit :=
  (s, Resource.Resolves ()).

(** [on], [once] and [off] (lines 47-57): [once] calls
    [this.__handler.on]. *)
Definition on (event : string) (handler : nat) (em : list Emitter.listener) : list Emitter.listener :=
  Emitter.on event handler em.

Definition once (event : string) (handler : nat) (em : list Emitter.listener) : list Emitter.listener :=
  Emitter.on event handler em.

Definition off (event : string) (handler : nat) (em : list Emitter.listener) : list Emitter.listener :=
  Emitter.off event handler em.

End Subscriber.

(** ** The nodes ([src/helpers.ts], [src/amqp-out.ts], [src/amqp-in.ts],
       [src/amqp-server.ts], [src/models.ts]) *)

Module Nodes.

Import Resource.

(** The values of the enum [ResourceStatus] ([resource.ts], lines 5-11):
    what [status.toString()] gives. *)
Definition toString (status : ResourceStatus) : string :=
  match status with
  | Connecting => "connecting"
  | Connected => "connected"
  | Error => "error"
  | Closing => "closing"
  | Closed => "closed"
  end.

(** The argument of [node.status]. *)
Record NodeStatus := {
  fill : string;
  shape : string;
  text : string
}.

(** [setStatus] of the helpers: what it calls [node.status] with. *)
Definition setStatus (status : ResourceStatus) : NodeStatus :=
  match status with
  | Connected => {| fill := "green"; shape := "dot"; text := "connected" |}
  | Connecting => {| fill := "yellow"; shape := "ring"; text := "connecting" |}
  | Error => {| fill := "red"; shape := "dot"; text := "error" |}
  | _ => {| fill := "red"; shape := "dot"; text := toString status |}
  end.

(** [Properties] of the in and out nodes. *)
Record Properties := {
  source : string;
  routingkey : string;
  iotype : string;
  ioname : string;
  server : string
}.

(** [NodeMessage]: [payload] and [topic] are of type [any], [Undefined]
    when absent. *)
Record NodeMessage := {
  payload : Amqp.value;
  topic : Amqp.value;
  options : option Amqp.value
}.

(** What a [catch] receives: an error of the handler or of the resource,
    or the [TypeError] of [Buffer.from] or of [JSON.stringify]. *)
Inductive thrown :=
| Raised (e : error)
| BufferTypeError
| JSONTypeError.

(** The calls a node makes on itself. *)
Inductive node_call :=
| Status (s : NodeStatus)               (* this.status(s), through setStatus *)
| Failed (message : string)             (* this.error(message) *)
| Caught (e : thrown)                   (* this.error(e.message, ...), e attached *)
| Send (topic payload : string)         (* this.send({ topic, payload }) *)
| Done.                                 (* done() *)

(** The routing key of the out node: [props.routingkey || msg.topic]. *)
Definition routing_key (props : Properties) (msg : NodeMessage) : Amqp.value :=
  if decide (routingkey props = EmptyString) then topic msg
  else Amqp.String (routingkey props).

(** The [input] handler of the out node ([amqp-out.ts], lines 84-92);
    [flow] is what [ch.publish] returns if it is called.  While [send]
    waits for the channel the handler is suspended and has reported
    nothing.  [send] is typed for a routing key that is a string; what
    amqplib does with another value is not embedded: [None]. *)
Definition input (props : Properties) (msg : NodeMessage) (sender : Sender.Sender)
    (flow : bool) : option (Sender.Sender * list Amqp.call * list node_call) :=
  match routing_key props msg with
  | Amqp.String key =>
      let '(sender, calls, r) := Sender.send sender key (payload msg) (options msg) flow in
      Some (sender, calls,
            match r with
            | Sender.Returns _ => []
            | Sender.Waits _ => []
            | Sender.Fails e => [Caught (Raised e)]
            | Sender.TypeError => [Caught BufferTypeError]
            | Sender.JSONTypeError => [Caught JSONTypeError]
            end)
  | _ => None
  end.

(** The [message] listener of the in node ([amqp-in.ts]; lines 155-160 of
    the listing). *)
Definition message (props : Properties) (msg : ConsumeMessage) : option node_call :=
  payload ← Amqp.Buffer_toString (content msg);
  Some (Send (if decide (routingkey props = EmptyString) then routingKey msg
              else routingkey props)
             payload).

(** The [close] handlers of the out node and of the in node: an error of
    [close()] is reported. *)
Definition out_close (sender : Sender.Sender) (closed : option error)
    : Sender.Sender * list node_call :=
  let '(sender, p) := Sender.close sender closed in
  (sender, match p with Rejects e => [Caught (Raised e)] | _ => [] end).

Definition in_close (sub : Subscriber.Subscriber) (closed : option error)
    : Subscriber.Subscriber * list node_call :=
  let '(sub, p) := Subscriber.close sub closed in
  (sub, match p with Rejects e => [Caught (Raised e)] | _ => [] end).

Section WithHash.

Variable toHash : Connection.ConnectionSettings → string.

(** The [close] handler of the server node ([amqp-server.ts], lines
    65-67): [done] is called when the promise of the pool's [close] has
    settled. *)
Definition server_close (settings : Connection.ConnectionSettings) (pool : Pool.state)
    : Pool.state * list node_call :=
  let '(pool, p) := Pool.close toHash settings pool in
  (pool, match p with Waits _ => [] | _ => [Done] end).

(** [Properties] of the server node and its credentials
    ([amqp-server.ts], lines 12-29). *)
Record ServerProperties := {
  host : string;
  port : Z;
  vhost : string;
  keepalive : Z;
  usetls : bool;
  verifyservercert : bool;
  useca : bool;
  ca : string;
  usetopology : bool;
  topology : string
}.

Record Credentials := {
  user : option string;
  password : option string
}.

(** [this.settings] (lines 37-50): [x || ''] is [''] for an absent [x]. *)
Definition settings_of (props : ServerProperties) (credentials : Credentials)
    : Connection.ConnectionSettings :=
  {| Connection.host := host props;
     Connection.port := port props;
     Connection.vhost := vhost props;
     Connection.keepAlive := keepalive props;
     Connection.useTLS := usetls props;
     Connection.verifyServerCert := verifyservercert props;
     Connection.useCA := useca props;
     Connection.ca := ca props;
     Connection.useTopology := usetopology props;
     Connection.topology := topology props;
     Connection.username := default EmptyString (user credentials);
     Connection.password := default EmptyString (password credentials) |}.

(** The registration of the server node (lines 34-67): its settings, the
    connection [open] gives, and the pool. *)
Definition AmqpServerConfig (props : ServerProperties) (credentials : Credentials)
    (pool : Pool.state) : Connection.ConnectionSettings * nat * Pool.state :=
  let settings := settings_of props credentials in
  let '(conn, pool) := Pool.open toHash settings pool in
  (settings, conn, pool).

(** The registration of the out node ([amqp-out.ts], lines 56-82), up to
    its return: [config] is the server node [RED.nodes.getNode] finds, by
    its settings.  The result is the pool, the connection and the sender
    made, and the calls on the node; the listeners it registers run
    later, [input] and [out_close] above among them. *)
Definition AmqpOut (config : option Connection.ConnectionSettings) (props : Properties)
    (pool : Pool.state) : Pool.state * option (nat * Sender.Sender) * list node_call :=
  match config with
  | None =>
      (pool, None,
       [Status (setStatus Connecting); Status (setStatus Error);
        Failed "Node is not configured"])
  | Some settings =>
      let '(conn, pool) := Pool.open toHash settings pool in
      let sender := Sender.new (ioname props) in
      (pool, Some (conn, sender),
       [Status (setStatus Connecting); Status (setStatus Connected)])
  end.

(** The registration of the in node ([amqp-in.ts]; lines 129-154 of the
    listing). *)
Definition AmqpIn (config : option Connection.ConnectionSettings) (props : Properties)
    (pool : Pool.state)
    : Pool.state * option (nat * Subscriber.Subscriber) * list node_call :=
  match config with
  | None =>
      (pool, None,
       [Status (setStatus Connecting); Status (setStatus Error);
        Failed "Node is not configured"])
  | Some settings =>
      let '(conn, pool) := Pool.open toHash settings pool in
      let sub := Subscriber.new (ioname props) in
      (pool, Some (conn, sub),
       [Status (setStatus Connecting);
        Status (setStatus (__status (Subscriber.__handler sub)))])
  end.

End WithHash.

End Nodes.

(** ** Sample values

    Concrete handlers, settings and a collision-free fingerprint, at which
    the statements below are instantiated. *)

Module Sample.

Definition sender_opts : Resource.ResourceHandlerOptions :=
  {| Resource.name := Some "Sender"; Resource.closer := true; Resource.retries := None |}.

Definition two_retries : Resource.ResourceHandlerOptions :=
  {| Resource.name := Some "Sender"; Resource.closer := true; Resource.retries := Some 2 |}.

(** A handler still at its first attempt. *)
Definition connecting : Resource.ResourceHandler := Resource.new sender_opts.

(** The same handler once the factory has given resource 7. *)
Definition connected : Resource.ResourceHandler := Resource.chain_then 0 7 connecting.

Definition sender : Sender.Sender :=
  {| Sender.__handler := connected; Sender.__exchange := "logs" |}.

Definition subscriber : Subscriber.Subscriber := Subscriber.new "jobs".

Definition localhost : Connection.ConnectionSettings :=
  {| Connection.host := "localhost"; Connection.port := 5672; Connection.vhost := "/";
     Connection.keepAlive := 0; Connection.useTLS := false;
     Connection.verifyServerCert := false; Connection.useCA := false;
     Connection.ca := EmptyString; Connection.useTopology := false;
     Connection.topology := EmptyString; Connection.username := EmptyString;
     Connection.password := EmptyString |}.

Definition remote : Connection.ConnectionSettings :=
  {| Connection.host := "broker"; Connection.port := 5671; Connection.vhost := "/";
     Connection.keepAlive := 30; Connection.useTLS := true;
     Connection.verifyServerCert := true; Connection.useCA := false;
     Connection.ca := EmptyString; Connection.useTopology := false;
     Connection.topology := EmptyString; Connection.username := "guest";
     Connection.password := "guest" |}.

(** The same settings, but for those that [openInternal] does not read
    without TLS. *)
Definition unverified : Connection.ConnectionSettings :=
  {| Connection.host := "localhost"; Connection.port := 5672; Connection.vhost := "/";
     Connection.keepAlive := 0; Connection.useTLS := false;
     Connection.verifyServerCert := true; Connection.useCA := true;
     Connection.ca := "/etc/ca.pem"; Connection.useTopology := true;
     Connection.topology := "{}"; Connection.username := EmptyString;
     Connection.password := EmptyString |}.

(** A file system on which no file can be read. *)
Definition no_files : Tls.files := λ _, inl (Resource.Failure "ENOENT").

(** A server node, without credentials and with empty ones. *)
Definition server_props : Nodes.ServerProperties :=
  {| Nodes.host := "broker"; Nodes.port := 5672; Nodes.vhost := "/"; Nodes.keepalive := 30;
     Nodes.usetls := false; Nodes.verifyservercert := false; Nodes.useca := false;
     Nodes.ca := EmptyString; Nodes.usetopology := false; Nodes.topology := EmptyString |}.

Definition no_credentials : Nodes.Credentials :=
  {| Nodes.user := None; Nodes.password := None |}.

Definition empty_credentials : Nodes.Credentials :=
  {| Nodes.user := Some EmptyString; Nodes.password := Some EmptyString |}.

(** An out node with a routing key and an in node without, and a message
    with its JSON text. *)
Definition out_props : Nodes.Properties :=
  {| Nodes.source := EmptyString; Nodes.routingkey := "audit"; Nodes.iotype := "topic";
     Nodes.ioname := "logs"; Nodes.server := "broker" |}.

Definition in_props : Nodes.Properties :=
  {| Nodes.source := EmptyString; Nodes.routingkey := EmptyString; Nodes.iotype := "queue";
     Nodes.ioname := "jobs"; Nodes.server := "broker" |}.

Definition greeting : Nodes.NodeMessage :=
  {| Nodes.payload := Amqp.String "hi"; Nodes.topic := Amqp.String "greetings";
     Nodes.options := None |}.

Definition greeting_text : string :=
  String.String Amqp.quotation_mark ("hi" +:+ String.String Amqp.quotation_mark EmptyString).

(** A connection whose handler holds the amqplib connection 3. *)
Definition connection : Connection.Connection :=
  {| Connection.__settings := localhost;
     Connection.__conn := Resource.chain_then 0 3 (Connection.__conn (Connection.new localhost)) |}.

#[global] Instance ConnectionSettings_countable : Countable Connection.ConnectionSettings.
Proof.
  refine (inj_countable'
    (λ s, (Connection.host s, Connection.port s, Connection.vhost s,
           Connection.keepAlive s, Connection.useTLS s, Connection.verifyServerCert s,
           Connection.useCA s, Connection.ca s, Connection.useTopology s,
           Connection.topology s, Connection.username s, Connection.password s))
    (λ t, let '(a, b, c, d, e, f, g, h, i, j, k, l) := t in
          {| Connection.host := a; Connection.port := b; Connection.vhost := c;
             Connection.keepAlive := d; Connection.useTLS := e;
             Connection.verifyServerCert := f; Connection.useCA := g;
             Connection.ca := h; Connection.useTopology := i;
             Connection.topology := j; Connection.username := k;
             Connection.password := l |}) _).
  by intros [].
Defined.

(** A fingerprint without collisions: the digits of the code of the
    settings. *)
Definition fingerprint (s : Connection.ConnectionSettings) : string :=
  pretty (encode s).

(** The pool once [localhost] has been opened, and once amqplib has given
    that connection the connection 3, the host being the fingerprint. *)
Definition opened : Pool.state := (Pool.open Connection.host localhost Pool.empty).2.

Definition pooled : Pool.state :=
  default Pool.empty (Pool.deliver 0 (Resource.FactoryResolves 0 3) opened).

(** The handler closed while its first attempt was in flight, once the
    factory has answered: torn down by [__setToClose]. *)
Definition aborted : Resource.ResourceHandler :=
  Resource.chain_then 0 7 (Resource.close connecting None).1.

End Sample.

(** * Properties *)

Import Resource.

Create HintDb fields.
#[local] Hint Unfold __setStatus emit removeAllListeners set_chain __subscribe
  with_status with_resource with_err with_reconnect with_chains with_subscribed record : fields.

#[local] Arguments __connect : simpl never.
#[local] Arguments connect : simpl never.
#[local] Arguments __attemptReconnect : simpl never.
#[local] Arguments __setToClose : simpl never.
#[local] Arguments settle : simpl never.
#[local] Arguments chain_catch : simpl never.
#[local] Arguments chain_then : simpl never.
#[local] Arguments attempt : simpl never.
#[local] Arguments add_waiter : simpl never.
#[local] Arguments await : simpl never.
#[local] Arguments close : simpl never.

(** [upd] computes the field updates. *)
Ltac upd := repeat (autounfold with fields; cbn).

(** ** The continuations of a settled chain *)

Lemma run_app (h : ResourceHandler) (evs1 evs2 : list event) :
  run h (evs1 ++ evs2) = run h evs1 ≫= λ h', run h' evs2.
Proof.
  revert h. induction evs1 as [|ev evs1 IH]; intros h; cbn; [done|].
  destruct (step h ev); cbn; [apply IH|done].
Qed.

(** Resumed with null on a handler that is not connected, the continuations
    leave it unconnected; only that of [__setToClose] acts, by tearing down. *)
Lemma resume_null (ws : list waiter) (h : ResourceHandler) :
  __status h ≠ Connected →
  let h' := foldl (resume None) h ws in
  __status h' ≠ Connected ∧
  __opts h' = __opts h ∧
  chains h' = chains h ∧
  isReconnecting h' = isReconnecting h ∧
  subscribed h' = subscribed h ∧
  (WSetToClose ∉ ws → h' = h) ∧
  ∃ t, trace h' = trace h ++ t ∧ Forall (λ a, connects a = false) t.
Proof.
  revert h. induction ws as [|w ws IH]; intros h Hs; cbn.
  - repeat split; try done. exists []. by rewrite app_nil_r.
  - assert (Hw : __status (resume None h w) ≠ Connected ∧
                 __opts (resume None h w) = __opts h ∧
                 chains (resume None h w) = chains h ∧
                 isReconnecting (resume None h w) = isReconnecting h ∧
                 subscribed (resume None h w) = subscribed h ∧
                 (w ≠ WSetToClose → resume None h w = h) ∧
                 ∃ t, trace (resume None h w) = trace h ++ t ∧
                      Forall (λ a, connects a = false) t).
    { destruct w; cbn; try (repeat split; try done; exists []; by rewrite app_nil_r).
      unfold __setToClose_resume. rewrite decide_False by done.
      destruct h as [o s p e rc ra dp cs sub tr].
      unfold teardown. upd. repeat split; try done.
      eexists. split; [by rewrite <- !app_assoc|]. by repeat constructor. }
    destruct Hw as (Hs' & Ho & Hc & Hr & Hsub & Hid & t1 & Ht1 & Hq1).
    destruct (IH _ Hs') as (Hs'' & Ho' & Hc' & Hr' & Hsub' & Hid' & t2 & Ht2 & Hq2).
    repeat split; try congruence.
    + intros [Hne Hnin]%not_elem_of_cons. rewrite Hid' by done. apply Hid. congruence.
    + exists (t1 ++ t2). rewrite Ht2, Ht1, app_assoc. split; [done|].
      by apply Forall_app.
Qed.

(** Resumed with a resource on a connected handler, they leave it connected
    and emit nothing. *)
Lemma resume_resource (r : res) (ws : list waiter) (h : ResourceHandler) :
  __status h = Connected →
  let h' := foldl (resume (Some r)) h ws in
  __status h' = Connected ∧
  __opts h' = __opts h ∧
  __resource h' = __resource h ∧
  chains h' = chains h ∧
  emits (trace h') = emits (trace h) ∧
  statuses (trace h') = statuses (trace h).
Proof.
  revert h. induction ws as [|w ws IH]; intros h Hs; cbn; [done|].
  assert (Hw : __status (resume (Some r) h w) = Connected ∧
               __opts (resume (Some r) h w) = __opts h ∧
               __resource (resume (Some r) h w) = __resource h ∧
               chains (resume (Some r) h w) = chains h ∧
               emits (trace (resume (Some r) h w)) = emits (trace h) ∧
               statuses (trace (resume (Some r) h w)) = statuses (trace h)).
  { destruct w; cbn; try done.
    - destruct h as [o s p e rc ra dp cs sub tr].
      cbn in Hs. unfold closing_call, emits, statuses. upd.
      rewrite <- !app_assoc, !omap_app.
      cbn. destruct (o_closer o); cbn; by rewrite !app_nil_r.
    - unfold __setToClose_resume. by rewrite decide_True. }
  destruct Hw as (Hs' & Ho & Hr & Hc & He & Hst).
  destruct (IH _ Hs') as (? & ? & ? & ? & ? & ?).
  repeat split; congruence.
Qed.

Lemma resume_opts (v : option res) (ws : list waiter) (h : ResourceHandler) :
  __opts (foldl (resume v) h ws) = __opts h.
Proof.
  revert h. induction ws as [|w ws IH]; intros h; cbn; [done|].
  rewrite IH. destruct h as [o s p e rc ra dp cs sub tr]. destruct w; cbn; try done.
  - destruct v; cbn; done.
  - unfold __setToClose_resume. by destruct (decide _).
Qed.

Lemma resume_trace (v : option res) (ws : list waiter) (h : ResourceHandler) :
  ∃ t, trace (foldl (resume v) h ws) = trace h ++ t.
Proof.
  revert h. induction ws as [|w ws IH]; intros h; cbn.
  - exists []. by rewrite app_nil_r.
  - destruct (IH (resume v h w)) as [t Ht]. rewrite Ht.
    destruct h as [o s p e rc ra dp cs sub tr].
    destruct w; cbn; try by eexists.
    + destruct v; cbn; [|by eexists].
      unfold closing_call. upd. eexists. by rewrite <- !app_assoc.
    + unfold __setToClose_resume. destruct (decide _); [by eexists|].
      unfold teardown. upd. eexists. by rewrite <- !app_assoc.
Qed.

(** ** While connecting or closing, an attempt is under way *)

Lemma resume_status (v : option res) (ws : list waiter) (h : ResourceHandler) :
  __status (foldl (resume v) h ws) = __status h ∨
  __status (foldl (resume v) h ws) = Closed.
Proof.
  revert h. induction ws as [|w ws IH]; intros h; cbn; [by left|].
  assert (Hw : __status (resume v h w) = __status h ∨ __status (resume v h w) = Closed).
  { destruct h as [o s p e rc ra dp cs sub tr]. destruct w; cbn; try by left.
    - destruct v; cbn; by left.
    - unfold __setToClose_resume. destruct (decide _); cbn; [by left|by right]. }
  destruct (IH (resume v h w)) as [H|H]; [|by right].
  rewrite H. done.
Qed.

Lemma settle_status (i : nat) (v : option res) (h : ResourceHandler) :
  __status (settle i v h) = __status h ∨ __status (settle i v h) = Closed.
Proof.
  unfold settle. destruct (chains h !! i) as [c|]; [|by left].
  destruct h as [o s p e rc ra dp cs sub tr].
  match goal with |- context [foldl (resume v) ?h0 ?ws] =>
    destruct (resume_status v ws h0) as [H|H]; [left|right]; done
  end.
Qed.

Lemma chain_catch_idle (i : nat) (err : error) (h : ResourceHandler) :
  ¬ busy (chain_catch i err h).
Proof.
  unfold chain_catch. cbv zeta.
  match goal with |- ¬ busy (settle i None ?h0) =>
    assert (Hs : __status h0 = Error) by (by destruct h);
    destruct (settle_status i None h0) as [H|H]
  end; unfold busy; rewrite H; [rewrite Hs|]; by intros [|].
Qed.

Lemma chain_catch_null_idle (i : nat) (h : ResourceHandler) :
  ¬ busy (chain_catch_null i h).
Proof.
  unfold chain_catch_null. cbv zeta.
  match goal with |- ¬ busy (settle i None ?h0) =>
    assert (Hs : __status h0 = Error) by (by destruct h);
    destruct (settle_status i None h0) as [H|H]
  end; unfold busy; rewrite H; [rewrite Hs|]; by intros [|].
Qed.

Lemma chain_then_idle (i : nat) (r : res) (h : ResourceHandler) :
  ¬ busy (chain_then i r h).
Proof.
  unfold chain_then. destruct (decide _); cbv zeta; [apply chain_catch_idle|].
  match goal with |- ¬ busy (settle i (Some r) ?h0) =>
    assert (Hs : __status h0 = Connected) by (by destruct h);
    destruct (settle_status i (Some r) h0) as [H|H]
  end; unfold busy; rewrite H; [rewrite Hs|]; by intros [|].
Qed.

Lemma add_waiter_acquiring (i : nat) (w : waiter) (h : ResourceHandler) :
  (busy h → acquiring h) → busy (add_waiter i w h) → acquiring (add_waiter i w h).
Proof.
  unfold add_waiter. destruct (chains h !! i) as [c|] eqn:Hc; [|done].
  assert (Hi : i < length (chains h)) by (eapply lookup_lt_Some; eauto).
  destruct h as [o s p e rc ra dp cs sub tr]. unfold busy, acquiring. cbn in *.
  intros Hinv Hb. destruct (Hinv Hb) as (j & c' & -> & Hj & Hst).
  destruct (decide (i = j)) as [->|Hne].
  - eexists j, _. split; [done|]. rewrite list_lookup_insert_eq by done.
    split; [done|]. cbn. congruence.
  - exists j, c'. by rewrite list_lookup_insert_ne.
Qed.

Lemma set_chain_acquiring (i : nat) (st : chain_state) (errs : list error)
    (ws : list waiter) (h : ResourceHandler) :
  (∀ v, st ≠ Settled v) →
  (busy h → acquiring h) →
  busy (set_chain i st errs ws h) → acquiring (set_chain i st errs ws h).
Proof.
  intros Hst. destruct h as [o s p e rc ra dp cs sub tr]. unfold busy, acquiring. cbn.
  intros Hinv Hb. destruct (Hinv Hb) as (j & c' & -> & Hj & Hst').
  destruct (decide (i = j)) as [->|Hne].
  - eexists j, _. split; [done|].
    rewrite list_lookup_insert_eq by (eapply lookup_lt_Some; eauto). done.
  - exists j, c'. by rewrite list_lookup_insert_ne.
Qed.

Lemma __connect_acquiring (force : bool) (h : ResourceHandler) :
  (busy h → acquiring h) → busy (__connect force h) → acquiring (__connect force h).
Proof.
  unfold __connect. destruct (_ && _); [done|]. intros _ _.
  destruct h as [o s p e rc ra dp cs sub tr]. unfold acquiring. cbn.
  exists (length cs), {| c_state := AwaitFactory 1; c_errors := []; c_waiters := [] |}.
  split; [done|]. split; [|done].
  rewrite lookup_app_r by lia. by rewrite Nat.sub_diag.
Qed.

Lemma teardown_idle (h : ResourceHandler) : ¬ busy (teardown h).
Proof. destruct h. unfold busy. cbn. by intros [|]. Qed.

Lemma __setToClose_acquiring (h : ResourceHandler) :
  (busy h → acquiring h) → busy (__setToClose h) → acquiring (__setToClose h).
Proof.
  intros Hinv. unfold __setToClose. destruct (isReconnecting h); [done|].
  unfold __attemptReconnect. destruct (decide (__status h ≠ Connected)) as [Hs|Hs].
  - unfold connect. pose proof (__connect_acquiring false h Hinv) as Hinv'.
    destruct (await (__connect false h)) as [i|v|e].
    + by apply add_waiter_acquiring.
    + unfold __setToClose_resume. destruct (decide _); [done|].
      intros Hb. by destruct (teardown_idle _ Hb).
    + intros Hb. by destruct (teardown_idle _ Hb).
  - unfold __setToClose_resume. by destruct (decide _).
Qed.

Lemma busy_fields (h h' : ResourceHandler) :
  __status h' = __status h → __resource h' = __resource h → chains h' = chains h →
  (busy h → acquiring h) → busy h' → acquiring h'.
Proof.
  unfold busy, acquiring. intros -> -> ->. done.
Qed.

Lemma step_acquiring (h h' : ResourceHandler) (ev : event) :
  (busy h → acquiring h) → step h ev = Some h' → busy h' → acquiring h'.
Proof.
  intros Hinv. destruct ev as [i r|i err|i| |r err|r| | |]; cbn.
  - unfold factory_resolves. destruct (chains h !! i) as [[[]]|]; try done.
    intros [= <-] Hb. by destruct (chain_then_idle _ _ _ Hb).
  - unfold factory_rejects. destruct (chains h !! i) as [[[k|k|v] errs ws]|]; try done.
    destruct (decide _); intros [= <-].
    + apply set_chain_acquiring; [done|]. apply (busy_fields h); [by destruct h..|exact Hinv].
    + cbv zeta. intros Hb. destruct (mainError _);
        [by destruct (chain_catch_idle _ _ _ Hb)|by destruct (chain_catch_null_idle _ _ Hb)].
  - unfold backoff_elapses. destruct (chains h !! i) as [[[k|k|v] errs ws]|] eqn:Hc; try done.
    intros [= <-]. unfold attempt. rewrite Hc. destruct (decide _).
    + intros Hb. by destruct (chain_catch_idle _ _ _ Hb).
    + apply set_chain_acquiring; [done|]. apply (busy_fields h); [by destruct h..|exact Hinv].
  - unfold delay_elapses. destruct (delayPending h); [|done]. intros [= <-].
    unfold __handleReconnect_resume. cbv zeta.
    match goal with |- busy (with_reconnect _ _ _ (__connect true ?h0)) → _ =>
      pose proof (__connect_acquiring true h0) as Hc;
      destruct (__connect true h0) as [o s p e rc ra dp cs sub tr]
    end.
    intros Hb. apply (busy_fields (Build_ResourceHandler o s p e rc ra dp cs sub tr));
      [done..| |done].
    apply Hc. apply (busy_fields h); [by destruct h..|exact Hinv].
  - destruct (decide _); [|done]. intros [= <-]. unfold on_error. cbv zeta.
    unfold __handleReconnect. destruct h as [o s p e0 rc ra dp cs sub tr]. cbn.
    destruct rc; cbn; unfold busy; cbn; by intros [|].
  - destruct (decide _); [|done]. intros [= <-]. unfold on_close. cbv zeta.
    apply __setToClose_acquiring. apply (busy_fields h); [by destruct h..|exact Hinv].
  - intros [= <-]. unfold close. destruct (decide _); [done|].
    destruct (decide _) as [Hs|Hs]; cbn.
    + intros _. destruct (Hinv (or_introl Hs)) as (j & c & ? & ? & ?).
      exists j, c. by destruct h.
    + destruct h as [o s p e rc ra dp cs sub tr]. cbn.
      destruct (await _) as [j|[r|]|e']; cbn.
      * unfold add_waiter. cbn. destruct (cs !! j); unfold busy; cbn; by intros [|].
      * unfold busy. cbn. by intros [|].
      * unfold busy. cbn. by intros [|].
      * unfold busy. cbn. by intros [|].
  - intros [= <-]. unfold owner_connect, connect.
    pose proof (__connect_acquiring false h Hinv) as Hinv'.
    destruct (await (__connect false h)) as [i|v|e]; cbn; try done.
    by apply add_waiter_acquiring.
  - intros [= <-]. unfold resource.
    destruct (await h) as [i|[r|]|e]; cbn; try done.
    by apply add_waiter_acquiring.
Qed.

(** While the status of a handler is Connecting or Closing, [__resource]
    holds the promise of a chain that has not settled: a [close()] made in
    one of these statuses always finds an acquisition to abort. *)
Lemma reachable_acquiring (h : ResourceHandler) :
  reachable h → busy h → acquiring h.
Proof.
  intros (opts & evs & Hrun). revert h Hrun.
  induction evs as [|ev evs IH] using rev_ind; intros h.
  - intros [= <-] _. exists 0, {| c_state := AwaitFactory 1; c_errors := []; c_waiters := [] |}.
    done.
  - rewrite run_app. destruct (run (new opts) evs) as [h0|]; [|done]. cbn.
    destruct (step h0 ev) as [h1|] eqn:Hstep; [|done]. intros [= <-].
    eapply step_acquiring; [|done]. by apply IH.
Qed.

(** ** Retries, then open *)

(** One failed attempt with budget left, and the backoff after it. *)
Lemma failed_round (h : ResourceHandler) (i k : nat) (errs : list error)
    (ws : list waiter) (err : error) :
  __status h ≠ Closing →
  chains h !! i = Some {| c_state := AwaitFactory k; c_errors := errs; c_waiters := ws |} →
  (k ≤ o_retries (__opts h))%nat →
  ∃ h',
    run h [FactoryRejects i err; BackoffElapses i] = Some h' ∧
    __status h' = __status h ∧
    __opts h' = __opts h ∧
    __resource h' = __resource h ∧
    chains h' !! i = Some {| c_state := AwaitFactory (S k); c_errors := errs ++ [err];
                             c_waiters := ws |} ∧
    length (chains h') = length (chains h) ∧
    trace h' = trace h ++ [Emit (EvRetry err k (o_retries (__opts h) - (k - 1))); FactoryCall].
Proof.
  intros Hs Hc Hk.
  assert (Hi : i < length (chains h)) by (eapply lookup_lt_Some; eauto).
  destruct h as [o s p e rc ra dp cs sub tr]. cbn in Hs, Hc, Hk, Hi |- *.
  eexists. split.
  - unfold factory_rejects, backoff_elapses. cbn. rewrite Hc. cbn.
    rewrite decide_True by done. upd.
    rewrite list_lookup_insert_eq by done. cbn.
    unfold attempt. upd. rewrite list_lookup_insert_eq by done.
    rewrite decide_False by done. reflexivity.
  - cbn. rewrite list_lookup_insert_eq by (by rewrite length_insert).
    rewrite !length_insert, <- app_assoc. done.
Qed.

Lemma failed_rounds (i : nat) (ws : list waiter) (es : list error) :
  ∀ (h : ResourceHandler) (k : nat) (errs : list error),
  __status h ≠ Closing →
  chains h !! i = Some {| c_state := AwaitFactory k; c_errors := errs; c_waiters := ws |} →
  (k + length es ≤ S (o_retries (__opts h)))%nat →
  ∃ h',
    run h (failures i es) = Some h' ∧
    __status h' = __status h ∧
    __opts h' = __opts h ∧
    __resource h' = __resource h ∧
    chains h' !! i = Some {| c_state := AwaitFactory (k + length es); c_errors := errs ++ es;
                             c_waiters := ws |} ∧
    length (chains h') = length (chains h) ∧
    statuses (trace h') = statuses (trace h) ∧
    emits (trace h') = emits (trace h) ++ retry_events (o_retries (__opts h)) k es.
Proof.
  induction es as [|e es IH]; intros h k errs Hs Hc Hk.
  - exists h. cbn. rewrite Nat.add_0_r, !app_nil_r. done.
  - cbn [length] in Hk.
    destruct (failed_round h i k errs ws e) as (h1 & Hrun & Hs1 & Ho1 & Hr1 & Hc1 & Hl1 & Ht1);
      [done|done|lia|].
    destruct (IH h1 (S k) (errs ++ [e])) as (h2 & Hrun2 & Hs2 & Ho2 & Hr2 & Hc2 & Hl2 & Hst2 & He2);
      [congruence|done|rewrite Ho1; lia|].
    exists h2. split.
    { change (failures i (e :: es)) with ([FactoryRejects i e; BackoffElapses i] ++ failures i es).
      rewrite run_app, Hrun. cbn. done. }
    repeat split; try congruence.
    + rewrite Hc2. cbn [length]. rewrite <- app_assoc. do 3 f_equal. lia.
    + rewrite Hst2, Ht1. unfold statuses. rewrite omap_app. cbn. by rewrite app_nil_r.
    + rewrite He2, Ht1, Ho1. unfold emits. rewrite omap_app. cbn.
      by rewrite <- app_assoc.
Qed.

(** The attempt in flight succeeds on a handler that is not closing. *)
Lemma attempt_succeeds (h : ResourceHandler) (i k : nat) (errs : list error)
    (ws : list waiter) (r : res) :
  __status h ≠ Closing →
  chains h !! i = Some {| c_state := AwaitFactory k; c_errors := errs; c_waiters := ws |} →
  ∃ h',
    step h (FactoryResolves i r) = Some h' ∧
    __status h' = Connected ∧
    __opts h' = __opts h ∧
    __resource h' = __resource h ∧
    chains h' !! i = Some {| c_state := Settled (Some r); c_errors := errs; c_waiters := [] |} ∧
    statuses (trace h') = statuses (trace h) ++ [Connected] ∧
    emits (trace h') = emits (trace h) ++ [EvOpen].
Proof.
  intros Hs Hc.
  assert (Hi : i < length (chains h)) by (eapply lookup_lt_Some; eauto).
  destruct h as [o s p e rc ra dp cs sub tr]. cbn in Hs, Hc, Hi |- *.
  eexists. split.
  - unfold factory_resolves. cbn. rewrite Hc. reflexivity.
  - unfold chain_then. rewrite decide_False by done. cbv zeta.
    unfold settle. upd. rewrite Hc. cbn.
    match goal with |- context [foldl (resume (Some r)) ?h0 ws] =>
      destruct (resume_resource r ws h0) as (H1 & H2 & H3 & H4 & H5 & H6); [done|]
    end.
    cbn in *. rewrite H1, H2, H3, H4, H5, H6.
    rewrite list_lookup_insert_eq by done.
    unfold statuses, emits. rewrite <- !app_assoc, !omap_app. cbn. done.
Qed.

(** The same on any chain, that of a reconnection included: from attempt
    [k] on, failures within the budget and then a success. *)
Lemma chain_retries_then_open (h : ResourceHandler) (i k : nat) (errs0 : list error)
    (ws : list waiter) (errs : list error) (r : res) :
  __status h ≠ Closing →
  chains h !! i = Some {| c_state := AwaitFactory k; c_errors := errs0; c_waiters := ws |} →
  (k + length errs ≤ S (o_retries (__opts h)))%nat →
  ∃ h',
    run h (failures i errs ++ [FactoryResolves i r]) = Some h' ∧
    __status h' = Connected ∧
    __resource h' = __resource h ∧
    chains h' !! i = Some {| c_state := Settled (Some r); c_errors := errs0 ++ errs;
                             c_waiters := [] |} ∧
    statuses (trace h') = statuses (trace h) ++ [Connected] ∧
    emits (trace h') =
      emits (trace h) ++ retry_events (o_retries (__opts h)) k errs ++ [EvOpen].
Proof.
  intros Hs Hc Hk.
  destruct (failed_rounds i ws errs h k errs0)
    as (h1 & Hrun & Hs1 & Ho & Hr & Hc1 & _ & Hst & He); [done..|].
  destruct (attempt_succeeds h1 i (k + length errs) (errs0 ++ errs) ws r)
    as (h2 & Hstep & Hs2 & Ho2 & Hr2 & Hc2 & Hst2 & He2); [by rewrite Hs1|done|].
  exists h2. split.
  { rewrite run_app, Hrun. cbn [mbind option_bind run]. by rewrite Hstep. }
  split; [done|]. split; [congruence|]. split; [done|]. split.
  - by rewrite Hst2, Hst.
  - by rewrite He2, He, <- app_assoc.
Qed.

(** C4.  Whatever errors the first [n] attempts of a new handler fail with,
    [n] being at most the number of retries, when the next attempt succeeds
    the handler is Connected and holds the resource, and it has emitted one
    [retry] per failed attempt, in order and with the counts of p-retry, and
    then one [open], and nothing else. *)
Theorem retries_then_open (opts : ResourceHandlerOptions) (errs : list error) (r : res) :
  (length errs ≤ o_retries (__opts (new opts)))%nat →
  ∃ h,
    run (new opts) (failures 0 errs ++ [FactoryResolves 0 r]) = Some h ∧
    __status h = Connected ∧
    emits (trace h) = retry_events (o_retries (__opts (new opts))) 1 errs ++ [EvOpen] ∧
    resource h = (h, Resolves r).
Proof.
  intros Hn.
  destruct (chain_retries_then_open (new opts) 0 1 [] [] errs r)
    as (h & Hrun & Hs & Hr & Hc & _ & He); [done|done|lia|].
  exists h. split; [done|]. split; [done|]. split; [done|].
  unfold resource, await. rewrite Hr.
  change (__resource (new opts)) with (OfChain 0). cbn. by rewrite Hc.
Qed.

Lemma retries_then_open_witness :
  (length [Failure "refused"; Failure "timeout"; Failure "refused"]
     ≤ o_retries (__opts (new Sample.sender_opts)))%nat ∧
  ∃ h,
    run (new Sample.sender_opts)
      (failures 0 [Failure "refused"; Failure "timeout"; Failure "refused"] ++
       [FactoryResolves 0 7]) = Some h ∧
    __status h = Connected ∧
    emits (trace h) =
      retry_events (o_retries (__opts (new Sample.sender_opts))) 1
        [Failure "refused"; Failure "timeout"; Failure "refused"] ++ [EvOpen] ∧
    resource h = (h, Resolves 7).
Proof.
  split; [vm_compute; lia|].
  apply (retries_then_open Sample.sender_opts
           [Failure "refused"; Failure "timeout"; Failure "refused"] 7).
  vm_compute. lia.
Defined.

Example three_failures_then_open :
  (λ h, (__status h, emits (trace h))) <$>
    run (new Sample.two_retries)
      [FactoryRejects 0 (Failure "refused"); BackoffElapses 0;
       FactoryRejects 0 (Failure "timeout"); BackoffElapses 0; FactoryResolves 0 7]
  = Some (Connected,
          [EvRetry (Failure "refused") 1 2; EvRetry (Failure "timeout") 2 1; EvOpen]).
Proof. reflexivity. Qed.

Example reconnection_retries_then_open :
  (λ h, (__status h, emits (trace h))) <$>
    run Sample.connecting
      [FactoryResolves 0 7; ResourceError 7 (Failure "reset"); DelayElapses;
       FactoryRejects 1 (Failure "refused"); BackoffElapses 1; FactoryResolves 1 8]
  = Some (Connected,
          [EvOpen; EvError (Failure "reset"); EvRetry (Failure "refused") 1 10; EvOpen]).
Proof. reflexivity. Qed.

Example budget_exhausted :
  (λ h, (__status h, __err h, emits (trace h))) <$>
    run (new Sample.two_retries)
      [FactoryRejects 0 (Failure "refused"); BackoffElapses 0;
       FactoryRejects 0 (Failure "refused"); BackoffElapses 0;
       FactoryRejects 0 (Failure "timeout")]
  = Some (Error, Some (Failure "refused"),
          [EvRetry (Failure "refused") 1 2; EvRetry (Failure "refused") 2 1;
           EvRetry (Failure "timeout") 3 0; EvError (Failure "refused")]).
Proof. reflexivity. Qed.

(** ** close() while connecting *)

(** An attempt of the chain held in [__resource] finds the handler Closing:
    [__setToClose] waits for the chain, the [catch] callback settles it with
    null, and the teardown follows. *)
Lemma aborted_attempt (h : ResourceHandler) (i : nat) (st : chain_state)
    (errs : list error) (ws : list waiter) (err : error) :
  __status h = Closing →
  isReconnecting h = false →
  __resource h = OfChain i →
  chains h !! i = Some {| c_state := st; c_errors := errs; c_waiters := ws |} →
  (∀ v, st ≠ Settled v) →
  let h' := chain_catch i err (__setToClose h) in
  __status h' = Closed ∧
  __resource h' = RejectedWith (IsClosed (o_name (__opts h))) ∧
  __opts h' = __opts h ∧
  subscribed h' = subscribed h ∧
  ∃ t, trace h' = trace h ++ t ∧ Forall (λ a, connects a = false) t.
Proof.
  intros Hs Hr Hslot Hc Hst.
  assert (Hi : i < length (chains h)) by (eapply lookup_lt_Some; eauto).
  destruct h as [o s p e rc ra dp cs sub tr]. cbn in Hs, Hr, Hslot, Hc, Hi |- *. subst s rc p.
  unfold __setToClose. cbn.
  unfold __attemptReconnect. rewrite decide_True by done.
  unfold connect, __connect. cbn.
  unfold await. cbn. rewrite Hc. cbn.
  assert (Hp : match st with Settled v => Got v | _ => Pending i end = Pending i).
  { destruct st; try done. by destruct (Hst v). }
  rewrite Hp. unfold add_waiter. cbn. rewrite Hc. cbn.
  unfold chain_catch, settle. upd.
  rewrite list_lookup_insert_eq by done. cbn.
  rewrite foldl_app. cbn.
  match goal with |- context [foldl (resume None) ?h0 ws] =>
    destruct (resume_null ws h0) as (Hs' & Ho & Hch & Hre & Hsub & _ & t & Ht & Hq);
      [done|];
    set (hf := foldl (resume None) h0 ws) in *; clearbody hf
  end.
  destruct hf as [o' s' p' e' rc' ra' dp' cs' sub' tr'].
  cbn in Hs', Ho, Hsub, Ht |- *. subst o' sub' tr'.
  unfold __setToClose_resume. cbn. rewrite decide_False by done.
  unfold teardown. upd. repeat split; try done.
  eexists. split; [by rewrite <- !app_assoc|].
  cbn. repeat constructor. apply Forall_app. split; [done|]. by repeat constructor.
Qed.

(** On a handler that is Connecting, with no reconnection
    under way, whose attempt in flight is that of the chain held in
    [__resource]: [close()] sets the status to Closing and returns at once;
    when the attempt then succeeds, or fails with a retry left so that the
    next attempt starts, the handler ends Closed with the rejected promise in
    [__resource], and nothing it does after the [close()] connects: no
    subscription to the resource, no status Connected, no [open], no further
    call of the factory. *)
Lemma close_while_connecting (h : ResourceHandler) (i k : nat)
    (errs : list error) (ws : list waiter) (closed : option error) :
  __status h = Connecting →
  isReconnecting h = false →
  __resource h = OfChain i →
  chains h !! i = Some {| c_state := AwaitFactory k; c_errors := errs; c_waiters := ws |} →
  ∃ h1,
    close h closed = (h1, Resolves ()) ∧
    __status h1 = Closing ∧
    trace h1 = trace h ++ [SetStatus Closing] ∧
    (∀ r, ∃ h2, step h1 (FactoryResolves i r) = Some h2 ∧ torn_down h1 h2) ∧
    (∀ err, (k ≤ o_retries (__opts h))%nat →
       ∃ h2, run h1 [FactoryRejects i err; BackoffElapses i] = Some h2 ∧ torn_down h1 h2).
Proof.
  intros Hs Hr Hslot Hc.
  assert (Hi : i < length (chains h)) by (eapply lookup_lt_Some; eauto).
  destruct h as [o s p e rc ra dp cs sub tr]. cbn in Hs, Hr, Hslot, Hc, Hi |- *.
  subst s rc p.
  eexists. split; [reflexivity|].
  split; [done|]. split; [done|]. split.
  - intros r. eexists. split.
    + unfold factory_resolves. cbn. rewrite Hc. reflexivity.
    + unfold chain_then. rewrite decide_True by done. cbv zeta.
      match goal with |- torn_down ?h0 (chain_catch i ?err (__setToClose _)) =>
        destruct (aborted_attempt h0 i (AwaitFactory k) errs ws err)
          as (H1 & H2 & H3 & H4 & H5); try done
      end.
  - intros err Hk. eexists. split.
    + unfold factory_rejects, backoff_elapses. cbn.
      rewrite Hc. cbn. rewrite decide_True by done. upd.
      rewrite list_lookup_insert_eq by done. cbn. reflexivity.
    + unfold attempt. upd. rewrite list_lookup_insert_eq by done.
      rewrite decide_True by done.
      match goal with |- torn_down _ (chain_catch i Aborted (__setToClose ?h0)) =>
        destruct (aborted_attempt h0 i (AwaitBackoff k) (errs ++ [err]) ws Aborted)
          as (H1 & H2 & H3 & H4 & t & H5 & H6); try done
      end.
      { cbn. by rewrite list_lookup_insert_eq. }
      repeat split; try done.
      cbn in H5. eexists. split; [rewrite H5, <- app_assoc; reflexivity|].
      cbn. by constructor.
Qed.

(** At a sender still at its first attempt. *)
Example close_at_first_attempt :
  __status Sample.connecting = Connecting ∧
  isReconnecting Sample.connecting = false ∧
  __resource Sample.connecting = OfChain 0 ∧
  chains Sample.connecting !! 0 =
    Some {| c_state := AwaitFactory 1; c_errors := []; c_waiters := [] |} ∧
  ∃ h1,
    close Sample.connecting None = (h1, Resolves ()) ∧
    __status h1 = Closing ∧
    trace h1 = trace Sample.connecting ++ [SetStatus Closing] ∧
    (∀ r, ∃ h2, step h1 (FactoryResolves 0 r) = Some h2 ∧ torn_down h1 h2) ∧
    (∀ err, (1 ≤ o_retries (__opts Sample.connecting))%nat →
       ∃ h2, run h1 [FactoryRejects 0 err; BackoffElapses 0] = Some h2 ∧ torn_down h1 h2).
Proof.
  repeat (split; [reflexivity|]).
  apply (close_while_connecting Sample.connecting 0 1 [] [] None); reflexivity.
Qed.

(** The resource given after the [close()] is not closed; and at a sender
    with two retries closed during its last attempt, the failure of that
    attempt leaves the handler in Error. *)
Example close_at_last_attempt :
  (∃ h,
     run Sample.connecting [OwnerClose; FactoryResolves 0 7] = Some h ∧
     __status h = Closed ∧
     trace h = [SetStatus Connecting; FactoryCall; SetStatus Closing; SetStatus Error;
                Emit (EvError (IsClosed "Sender")); SetStatus Closed; Emit EvClose;
                RemoveOwnListeners]) ∧
  (∃ h,
     run (new Sample.two_retries)
       [FactoryRejects 0 (Failure "refused"); BackoffElapses 0;
        FactoryRejects 0 (Failure "refused"); BackoffElapses 0;
        OwnerClose; FactoryRejects 0 (Failure "refused")] = Some h ∧
     __status h = Error ∧
     statuses (trace h) = [Connecting; Closing; Error]).
Proof.
  split; eexists; (split; [vm_compute; reflexivity|]); split; reflexivity.
Qed.

(** C2.  The claim fails on the code, by three slips.  When the attempt in
    flight succeeds after the [close()], the resource it gives is dropped:
    the handler ends Closed, but neither the closer nor the [close] of the
    resource is called, as [close()] calls them on a resource it holds.
    When the attempt in flight is the last of the retry budget and fails,
    the [catch] callback does not look for Closing, as the attempt function
    and the [then] callback do: the handler stays in Error and never gets
    to Closed.  And a second [close()] made while Closing sets the status
    to Closed, which the [then] callback does not take for Closing: the
    handler subscribes to the resource, is Connected and emits [open]. *)
Theorem close_while_connecting_slips (opts : ResourceHandlerOptions) (r : res) (e : error) :
  (∃ h,
     run (new opts) [OwnerClose; FactoryResolves 0 r] = Some h ∧
     __status h = Closed ∧
     trace h = [SetStatus Connecting; FactoryCall; SetStatus Closing; SetStatus Error;
                Emit (EvError (IsClosed (o_name (__opts (new opts))))); SetStatus Closed;
                Emit EvClose; RemoveOwnListeners]) ∧
  (∃ h,
     run (new opts)
       (failures 0 (replicate (o_retries (__opts (new opts))) e) ++
        [OwnerClose; FactoryRejects 0 e]) = Some h ∧
     __status h = Error ∧
     statuses (trace h) = [Connecting; Closing; Error]) ∧
  (∃ h,
     run (new opts) [OwnerClose; OwnerClose; FactoryResolves 0 r] = Some h ∧
     __status h = Connected ∧
     statuses (trace h) = [Connecting; Closing; Closed; Connected] ∧
     emits (trace h) = [EvOpen]).
Proof.
  split; [|split].
  - exists (chain_then 0 r (close (new opts) None).1).
    split; [reflexivity|]. split; reflexivity.
  - destruct (failed_rounds 0 [] (replicate (o_retries (__opts (new opts))) e) (new opts) 1 [])
      as (h1 & Hrun & Hs & Ho & Hr & Hc & Hl & Hst & He);
      [done|done|rewrite length_replicate; lia|].
    rewrite length_replicate in Hc.
    change (__status (new opts)) with Connecting in Hs.
    change (statuses (trace (new opts))) with [Connecting] in Hst.
    change (length (chains (new opts))) with 1 in Hl.
    set (o := __opts (new opts)) in *. clearbody o.
    destruct h1 as [o1 s p e1 rc ra dp cs sub tr].
    cbn in Hs, Ho, Hc, Hl, Hst. subst o1 s.
    destruct cs as [|c [|c' cs]]; try done. cbn in Hc. injection Hc as ->.
    eexists. split.
    { rewrite run_app, Hrun. cbn. unfold close. cbn.
      rewrite (decide_False (P := Connecting = Closed)) by done.
      rewrite (decide_True (P := Connecting = Connecting)) by done.
      unfold factory_rejects. upd.
      rewrite decide_False by lia. reflexivity. }
    cbv zeta. destruct (mainError _); unfold chain_catch, chain_catch_null, settle; upd;
      (split; [done|]); unfold statuses in *; rewrite <- !app_assoc, !omap_app; cbn;
      by rewrite Hst.
  - exists (chain_then 0 r (close (close (new opts) None).1 None).1).
    split; [reflexivity|]. split; [reflexivity|].
    destruct opts as [n [] rt]; split; reflexivity.
Qed.

Example close_during_reconnection :
  (λ h, (__status h, isReconnecting h, statuses (trace h))) <$>
    run Sample.connecting
      [FactoryResolves 0 7; ResourceError 7 (Failure "reset"); OwnerConnect; OwnerClose;
       FactoryResolves 1 8]
  = Some (Error, true, [Connecting; Connected; Error; Connecting; Closing; Error]).
Proof. reflexivity. Qed.

(** ** close() otherwise *)

(** C3, amended.  On a handler that is neither Connecting nor Closed,
    [close()] sets the status to Closed at once, there being no Closing
    stage, and then awaits the current resource: when one is held its
    listeners are removed and the closer is called on it, or its own [close]
    when no closer was supplied, and [close()] settles as that call does;
    when none is held, [close()] resolves; when the promise is rejected,
    [close()] rejects; when the resource is still being acquired, [close()]
    waits, and closes the resource once the attempt has given it. *)
Theorem close_sets_closed_first (h : ResourceHandler) (closed : option error) :
  __status h ≠ Connecting →
  __status h ≠ Closed →
  ∃ h' p,
    close h closed = (h', p) ∧
    __status h' = Closed ∧
    match await h with
    | Got (Some r) =>
        trace h' = trace h ++ [SetStatus Closed; RemoveAllListeners r; closing_call h r] ∧
        (r ∉ subscribed h') ∧
        p = match closed with Some e => Rejects e | None => Resolves () end
    | Got None =>
        trace h' = trace h ++ [SetStatus Closed] ∧ p = Resolves ()
    | Thrown e =>
        trace h' = trace h ++ [SetStatus Closed] ∧ p = Rejects e
    | Pending i =>
        trace h' = trace h ++ [SetStatus Closed] ∧ p = Waits i ∧
        ∀ r h'', step h' (FactoryResolves i r) = Some h'' →
          ∃ t, trace h'' = trace h' ++ t ++ [RemoveAllListeners r; closing_call h r]
    end.
Proof.
  intros Hs1 Hs2.
  unfold close. rewrite !decide_False by done. cbv zeta.
  destruct h as [o s p e rc ra dp cs sub tr]. cbn in Hs1, Hs2.
  assert (Ha : ∀ tr', await (Build_ResourceHandler o Closed p e rc ra dp cs sub tr') =
                      await (Build_ResourceHandler o s p e rc ra dp cs sub tr))
    by reflexivity.
  upd. rewrite Ha.
  destruct (await _) as [i|[r|]|e'] eqn:Hawait; eexists _, _; (split; [reflexivity|]).
  - unfold add_waiter. cbn.
    destruct (cs !! i) as [[st errs ws]|] eqn:Hc; cbn.
    2: { repeat split. intros r h''. unfold factory_resolves. cbn. by rewrite Hc. }
    assert (Hi : i < length cs) by (eapply lookup_lt_Some; eauto).
    repeat split.
    intros r h''. unfold factory_resolves. cbn.
    rewrite list_lookup_insert_eq by done.
    destruct st; try done. intros [= <-].
    unfold chain_then. rewrite decide_False by done. cbv zeta.
    unfold settle. upd. rewrite list_lookup_insert_eq by done. cbn.
    rewrite foldl_app.
    match goal with |- context [foldl (resume (Some r)) ?h0 ws] =>
      pose proof (resume_opts (Some r) ws h0) as Ho;
      destruct (resume_trace (Some r) ws h0) as [t Ht];
      set (hf := foldl (resume (Some r)) h0 ws) in *; clearbody hf
    end.
    destruct hf as [o' s' p' e0 rc' ra' dp' cs' sub' tr'].
    cbn in Ho, Ht |- *. subst o' tr'. unfold closing_call. cbn.
    exists ([Subscribe r; SetStatus Connected; Emit EvOpen] ++ t).
    rewrite <- !app_assoc. reflexivity.
  - cbn. split; [done|]. unfold closing_call. upd. split.
    + rewrite <- !app_assoc. reflexivity.
    + split; [|done]. intros [Hne _]%list_elem_of_filter. done.
  - done.
  - done.
Qed.

Lemma close_sets_closed_first_witness :
  __status Sample.connected ≠ Connecting ∧
  __status Sample.connected ≠ Closed ∧
  ∃ h' p,
    close Sample.connected None = (h', p) ∧
    __status h' = Closed ∧
    trace h' = trace Sample.connected ++
                 [SetStatus Closed; RemoveAllListeners 7; closing_call Sample.connected 7] ∧
    (7 ∉ subscribed h') ∧
    p = Resolves ().
Proof.
  split; [discriminate|]. split; [discriminate|].
  apply (close_sets_closed_first Sample.connected None); discriminate.
Defined.

(** C3 as stated fails: the status never passes through Closing, Closed is
    set before the closer is called, and no [close] event is emitted. *)
Lemma close_sets_closed_first_counterexample :
  ∃ h,
    run Sample.connecting [FactoryResolves 0 7; OwnerClose] = Some h ∧
    trace h = [SetStatus Connecting; FactoryCall; Subscribe 7; SetStatus Connected;
               Emit EvOpen; SetStatus Closed; RemoveAllListeners 7; CallCloser 7] ∧
    statuses (trace h) = [Connecting; Connected; Closed] ∧
    emits (trace h) = [EvOpen].
Proof.
  eexists. split; [vm_compute; reflexivity|]. repeat split.
Qed.

(** ** close() twice *)

Lemma close_when_closed (h : ResourceHandler) (closed : option error) :
  __status h = Closed →
  close h closed = (h, Rejects (IsClosed (o_name (__opts h)))).
Proof. intros Hs. unfold close. by rewrite decide_True. Qed.

Lemma close_closes (h : ResourceHandler) (closed : option error) :
  __status h ≠ Connecting →
  __status (close h closed).1 = Closed ∧ __opts (close h closed).1 = __opts h.
Proof.
  intros Hs. destruct (decide (__status h = Closed)) as [Hc|Hc].
  - by rewrite close_when_closed.
  - unfold close. rewrite !decide_False by done. cbv zeta.
    destruct h as [o s p e rc ra dp cs sub tr]. upd.
    destruct (await _) as [i|[r|]|e']; cbn; try done.
    unfold add_waiter. cbn. by destruct (cs !! i).
Qed.

(** On a closed handler the calls of the owner change neither the status
    nor the trace. *)
Lemma closed_owner_step (h h' : ResourceHandler) (ev : event) :
  __status h = Closed → owner_call ev = true → step h ev = Some h' →
  __status h' = Closed ∧ trace h' = trace h ∧ __opts h' = __opts h.
Proof.
  intros Hs Hev. destruct ev; try done; cbn; intros [= <-].
  - by rewrite close_when_closed.
  - unfold owner_connect, connect, __connect. rewrite Hs. cbn.
    destruct (await h) as [i|v|e]; cbn; try done.
    unfold add_waiter. destruct (chains h !! i); by destruct h.
  - unfold resource. destruct (await h) as [i|[r|]|e]; cbn; try done.
    unfold add_waiter. destruct (chains h !! i); by destruct h.
Qed.

Lemma closed_owner_run (evs : list event) :
  ∀ h h' : ResourceHandler,
  __status h = Closed → Forall (λ ev, owner_call ev = true) evs → run h evs = Some h' →
  __status h' = Closed ∧ trace h' = trace h ∧ __opts h' = __opts h.
Proof.
  induction evs as [|ev evs IH]; intros h h' Hs Hev; cbn.
  - by intros [= <-].
  - apply Forall_cons in Hev as [Hev Hevs].
    destruct (step h ev) as [h1|] eqn:Hstep; [|done]. intros Hrun.
    destruct (closed_owner_step h h1 ev Hs Hev Hstep) as (Hs1 & Ht1 & Ho1).
    destruct (IH h1 h' Hs1 Hevs Hrun) as (? & ? & ?). repeat split; congruence.
Qed.

Lemma settled_not_pending (h : ResourceHandler) (i : nat) :
  Forall (λ c, ∃ v, c_state c = Settled v) (chains h) →
  await h = Pending i → chains h !! i = None.
Proof.
  intros Hall. unfold await. destruct (__resource h) as [j|e]; [|done].
  destruct (chains h !! j) as [c|] eqn:Hc; cbn.
  - rewrite Forall_lookup in Hall. destruct (Hall j c Hc) as [v ->]. done.
  - by intros [= <-].
Qed.

(** Nothing can happen to a frozen handler but calls of its owner, and
    they leave it as it is. *)
Lemma frozen_step (h h' : ResourceHandler) (ev : event) :
  frozen h → step h ev = Some h' → h' = h.
Proof.
  intros (Hs & Hd & Hall & Hsub).
  assert (Hno : ∀ i c, chains h !! i = Some c → ∃ v, c_state c = Settled v).
  { intros i c Hc. rewrite Forall_lookup in Hall. by apply (Hall i c). }
  destruct ev as [i r|i err|i| |r err|r| | |]; cbn.
  - unfold factory_resolves. destruct (chains h !! i) as [[st errs ws]|] eqn:Hc; [|done].
    destruct (Hno i _ Hc) as [v Hv]. cbn in Hv. by subst st.
  - unfold factory_rejects. destruct (chains h !! i) as [[st errs ws]|] eqn:Hc; [|done].
    destruct (Hno i _ Hc) as [v Hv]. cbn in Hv. by subst st.
  - unfold backoff_elapses. destruct (chains h !! i) as [[st errs ws]|] eqn:Hc; [|done].
    destruct (Hno i _ Hc) as [v Hv]. cbn in Hv. by subst st.
  - unfold delay_elapses. by rewrite Hd.
  - rewrite Hsub. rewrite decide_False by apply not_elem_of_nil. done.
  - rewrite Hsub. rewrite decide_False by apply not_elem_of_nil. done.
  - intros [= <-]. by rewrite close_when_closed.
  - intros [= <-]. unfold owner_connect, connect, __connect. rewrite Hs. cbn.
    destruct (await h) as [i|v|e] eqn:Ha; cbn; try done.
    unfold add_waiter. by rewrite (settled_not_pending h i Hall Ha).
  - intros [= <-]. unfold resource.
    destruct (await h) as [i|[r|]|e] eqn:Ha; cbn; try done.
    unfold add_waiter. by rewrite (settled_not_pending h i Hall Ha).
Qed.

Lemma frozen_run (evs : list event) (h h' : ResourceHandler) :
  frozen h → run h evs = Some h' → h' = h.
Proof.
  intros Hf. induction evs as [|ev evs IH]; cbn; [by intros [= <-]|].
  destruct (step h ev) as [h1|] eqn:Hstep; [|done].
  rewrite (frozen_step h h1 ev Hf Hstep). exact IH.
Qed.

Lemma filter_ne_all (r : res) (l : list res) :
  (∀ x, x ∈ l → x = r) → filter (λ x, x ≠ r) l = [].
Proof.
  induction l as [|a l IH]; intros H; [done|]. rewrite filter_cons.
  rewrite decide_False by (intros Hne; apply Hne, H, list_elem_of_here).
  apply IH. intros x Hx. apply H. by apply list_elem_of_further.
Qed.

(** [close()] freezes a handler that has nothing under way. *)
Lemma close_freezes (h : ResourceHandler) (closed : option error) :
  settled h → __status h ≠ Connecting → __status h ≠ Closed →
  frozen (close h closed).1.
Proof.
  intros (Hd & Hall & Hsub) Hs1 Hs2.
  unfold close. rewrite !decide_False by done. cbv zeta.
  destruct h as [o s p e rc ra dp cs sub tr]. cbn in Hd, Hall, Hsub.
  assert (Ha : ∀ tr', await (Build_ResourceHandler o Closed p e rc ra dp cs sub tr') =
                      await (Build_ResourceHandler o s p e rc ra dp cs sub tr))
    by reflexivity.
  upd. rewrite Ha.
  assert (Hempty : (∀ r, await (Build_ResourceHandler o s p e rc ra dp cs sub tr)
                         ≠ Got (Some r)) → sub = []).
  { intros Hn. destruct sub as [|r sub]; [done|].
    destruct (Hn r). apply Hsub, list_elem_of_here. }
  destruct (await _) as [i|[r|]|e'] eqn:Hawait.
  - assert (sub = []) as -> by (apply Hempty; done). cbn.
    assert (Hi : cs !! i = None)
      by (by apply (settled_not_pending (Build_ResourceHandler o s p e rc ra dp cs [] tr))).
    unfold add_waiter. cbn. rewrite Hi. done.
  - cbn. unfold closing_call. upd. repeat split; try done.
    apply filter_ne_all. intros r' Hr'. specialize (Hsub r' Hr'). congruence.
  - assert (sub = []) as -> by (apply Hempty; done). done.
  - assert (sub = []) as -> by (apply Hempty; done). done.
Qed.

(** C7, amended.  When [close()] is called on a handler that is not
    Connecting, the status is Closed, and a second [close()] fails with the
    error `<name> is closed` and changes nothing, so that no second [close]
    is emitted: after any calls of the owner in between, which change
    neither the status nor the trace; and, on a handler that was not closed
    and had nothing under way when it was closed, at any later time, since
    nothing can happen to such a handler any more. *)
Theorem second_close_rejects (h : ResourceHandler) (closed closed' : option error) :
  __status h ≠ Connecting →
  ∃ h1 p,
    close h closed = (h1, p) ∧
    __status h1 = Closed ∧
    (∀ evs h2,
        Forall (λ ev, owner_call ev = true) evs → run h1 evs = Some h2 →
        __status h2 = Closed ∧
        trace h2 = trace h1 ∧
        close h2 closed' = (h2, Rejects (IsClosed (o_name (__opts h))))) ∧
    (settled h → __status h ≠ Closed →
     ∀ evs h2,
        run h1 evs = Some h2 →
        h2 = h1 ∧
        close h2 closed' = (h2, Rejects (IsClosed (o_name (__opts h))))).
Proof.
  intros Hs. destruct (close_closes h closed Hs) as [Hc Ho].
  exists (close h closed).1, (close h closed).2.
  split; [by destruct (close h closed)|]. split; [done|]. split.
  - intros evs h2 Hev Hrun.
    destruct (closed_owner_run evs _ h2 Hc Hev Hrun) as (Hs2 & Ht2 & Ho2).
    split; [done|]. split; [done|].
    rewrite close_when_closed by done. by rewrite Ho2, Ho.
  - intros Hset Hnc evs h2 Hrun.
    rewrite (frozen_run evs _ h2 (close_freezes h closed Hset Hs Hnc) Hrun).
    split; [done|]. rewrite close_when_closed by done. by rewrite Ho.
Qed.

Lemma second_close_rejects_witness :
  __status Sample.connected ≠ Connecting ∧
  ∃ h1 p,
    close Sample.connected None = (h1, p) ∧
    __status h1 = Closed ∧
    (∀ evs h2,
        Forall (λ ev, owner_call ev = true) evs → run h1 evs = Some h2 →
        __status h2 = Closed ∧
        trace h2 = trace h1 ∧
        close h2 None = (h2, Rejects (IsClosed (o_name (__opts Sample.connected))))) ∧
    (settled Sample.connected → __status Sample.connected ≠ Closed →
     ∀ evs h2,
        run h1 evs = Some h2 →
        h2 = h1 ∧
        close h2 None = (h2, Rejects (IsClosed (o_name (__opts Sample.connected))))).
Proof.
  split; [discriminate|].
  apply (second_close_rejects Sample.connected None None). discriminate.
Defined.

(** A sender that has connected has nothing under way. *)
Example connected_is_settled : settled Sample.connected.
Proof.
  split; [done|]. split; [repeat constructor; by eexists|].
  intros r [->|Hr%elem_of_nil]%elem_of_cons; done.
Qed.

(** C7 as stated fails: after a [close()] made while Connecting the status
    is Closing, and a second [close()] is not refused; it sets the status to
    Closed and waits for the attempt in flight. *)
Lemma second_close_counterexample :
  ∃ h1 h2,
    close Sample.connecting None = (h1, Resolves ()) ∧
    __status h1 = Closing ∧
    close h1 None = (h2, Waits 0) ∧
    __status h2 = Closed.
Proof. by eexists _, _. Qed.

Example second_close_then_connected :
  (λ h, (__status h, statuses (trace h))) <$>
    run Sample.connecting [OwnerClose; OwnerClose; FactoryResolves 0 7]
  = Some (Connected, [Connecting; Closing; Closed; Connected]).
Proof. reflexivity. Qed.

(** ** Closed is not terminal *)

(** C1.  The claim fails on the code.  After a [close()] on a connected
    handler the status is Closed and [resource()] still resolves, with the
    resource that was closed.  And a [close()] made during the delay of
    [__handleReconnect] does not stop it: when the delay is over the factory
    is called again and the status goes from Closed to Connecting. *)
Theorem closed_is_not_terminal (opts : ResourceHandlerOptions) (r : res) (e : error) :
  (∃ h h',
      run (new opts) [FactoryResolves 0 r] = Some h ∧
      close h None = (h', Resolves ()) ∧
      __status h' = Closed ∧
      resource h' = (h', Resolves r)) ∧
  (∃ h h',
      run (new opts) [FactoryResolves 0 r; ResourceError r e; OwnerClose] = Some h ∧
      __status h = Closed ∧
      step h DelayElapses = Some h' ∧
      __status h' = Connecting ∧
      trace h' = trace h ++ [SetStatus Connecting; FactoryCall]).
Proof.
  split.
  - exists (chain_then 0 r (new opts)), (close (chain_then 0 r (new opts)) None).1.
    repeat split.
  - exists (close (on_error r e (chain_then 0 r (new opts))) None).1.
    eexists. split.
    { change (run (new opts) [FactoryResolves 0 r; ResourceError r e; OwnerClose])
        with (run (chain_then 0 r (new opts)) [ResourceError r e; OwnerClose]).
      cbn [run step]. rewrite decide_True by (apply list_elem_of_here). reflexivity. }
    repeat split.
Qed.

Example reconnects_after_close :
  (λ h, (__status h, statuses (trace h))) <$>
    run Sample.connecting
      [FactoryResolves 0 7; ResourceError 7 (Failure "reset"); OwnerClose; DelayElapses;
       FactoryResolves 1 8]
  = Some (Connected, [Connecting; Connected; Error; Closed; Connecting; Connected]).
Proof. reflexivity. Qed.

(** After the teardown of [__setToClose], [resource()] does reject. *)
Example torn_down_rejects :
  (λ h, (resource h).2) <$> run Sample.connecting [OwnerClose; FactoryResolves 0 7]
  = Some (Rejects (IsClosed "Sender")).
Proof. reflexivity. Qed.

(** ** The options of a handler

    No method assigns [__opts]. *)

Lemma opts_add_waiter (i : nat) (w : waiter) (h : ResourceHandler) :
  __opts (add_waiter i w h) = __opts h.
Proof. unfold add_waiter. destruct (chains h !! i); [|done]. by destruct h. Qed.

Lemma opts___connect (force : bool) (h : ResourceHandler) :
  __opts (__connect force h) = __opts h.
Proof. unfold __connect. destruct (_ && _); [done|]. by destruct h. Qed.

Lemma opts_teardown (h : ResourceHandler) : __opts (teardown h) = __opts h.
Proof. by destruct h. Qed.

Lemma opts___setToClose_resume (h : ResourceHandler) :
  __opts (__setToClose_resume h) = __opts h.
Proof.
  unfold __setToClose_resume. destruct (decide _); [done|apply opts_teardown].
Qed.

Lemma opts___setToClose (h : ResourceHandler) : __opts (__setToClose h) = __opts h.
Proof.
  unfold __setToClose. destruct (isReconnecting h); [done|].
  unfold __attemptReconnect. destruct (decide _).
  - unfold connect. pose proof (opts___connect false h) as Hc.
    destruct (await (__connect false h)) as [i|v|e].
    + by rewrite opts_add_waiter.
    + by rewrite opts___setToClose_resume.
    + rewrite opts_teardown. by destruct (__connect false h).
  - apply opts___setToClose_resume.
Qed.

Lemma opts_settle (i : nat) (v : option res) (h : ResourceHandler) :
  __opts (settle i v h) = __opts h.
Proof.
  unfold settle. destruct (chains h !! i) as [c|]; [|done].
  rewrite resume_opts. by destruct h.
Qed.

Lemma opts_chain_catch (i : nat) (err : error) (h : ResourceHandler) :
  __opts (chain_catch i err h) = __opts h.
Proof. unfold chain_catch. cbv zeta. rewrite opts_settle. by destruct h. Qed.

Lemma opts_chain_catch_null (i : nat) (h : ResourceHandler) :
  __opts (chain_catch_null i h) = __opts h.
Proof. unfold chain_catch_null. cbv zeta. rewrite opts_settle. by destruct h. Qed.

Lemma opts_chain_then (i : nat) (r : res) (h : ResourceHandler) :
  __opts (chain_then i r h) = __opts h.
Proof.
  unfold chain_then. destruct (decide _); cbv zeta.
  - by rewrite opts_chain_catch, opts___setToClose.
  - rewrite opts_settle. by destruct h.
Qed.

Lemma opts_attempt (i k : nat) (h : ResourceHandler) :
  __opts (attempt i k h) = __opts h.
Proof.
  unfold attempt. destruct (chains h !! i) as [c|]; [|done].
  destruct (decide _); cbv zeta.
  - by rewrite opts_chain_catch, opts___setToClose.
  - by destruct h.
Qed.

Lemma opts_close (h : ResourceHandler) (closed : option error) :
  __opts (close h closed).1 = __opts h.
Proof.
  unfold close. destruct (decide _); [done|].
  destruct (decide _); cbn; [by destruct h|].
  assert (Hs : __opts (__setStatus Closed h) = __opts h) by (by destruct h).
  destruct (await (__setStatus Closed h)) as [i|[r|]|e]; cbn; try done.
  - by rewrite opts_add_waiter.
  - rewrite <- Hs. by destruct (__setStatus Closed h).
Qed.

Lemma opts___handleReconnect (h : ResourceHandler) :
  __opts (__handleReconnect h) = __opts h.
Proof.
  unfold __handleReconnect. destruct (isReconnecting h); [done|]. cbv zeta.
  destruct (decide _); [by destruct h|].
  rewrite opts___setToClose. by destruct h.
Qed.

Lemma step_opts (h h' : ResourceHandler) (ev : event) :
  step h ev = Some h' → __opts h' = __opts h.
Proof.
  destruct ev as [i r|i err|i| |r err|r| | |]; cbn.
  - unfold factory_resolves. destruct (chains h !! i) as [[[]]|]; try done.
    intros [= <-]. apply opts_chain_then.
  - unfold factory_rejects. destruct (chains h !! i) as [[[k|k|v] errs ws]|]; try done.
    cbv zeta. destruct (decide _); intros [= <-]; [by destruct h|].
    destruct (mainError _);
      [rewrite opts_chain_catch|rewrite opts_chain_catch_null]; by destruct h.
  - unfold backoff_elapses. destruct (chains h !! i) as [[[k|k|v] errs ws]|]; try done.
    intros [= <-]. apply opts_attempt.
  - unfold delay_elapses. destruct (delayPending h); [|done]. intros [= <-].
    unfold __handleReconnect_resume. cbv zeta.
    match goal with |- __opts (with_reconnect _ _ _ ?x) = _ =>
      transitivity (__opts x); [by destruct x|] end.
    rewrite opts___connect. by destruct h.
  - destruct (decide _); [|done]. intros [= <-]. unfold on_error. cbv zeta.
    match goal with |- __opts (emit _ ?x) = _ =>
      transitivity (__opts x); [by destruct x|] end.
    rewrite opts___handleReconnect. by destruct h.
  - destruct (decide _); [|done]. intros [= <-]. unfold on_close. cbv zeta.
    rewrite opts___setToClose. by destruct h.
  - intros [= <-]. apply opts_close.
  - intros [= <-]. unfold owner_connect, connect.
    pose proof (opts___connect false h) as Hc.
    destruct (await (__connect false h)) as [i|v|e]; cbn; try done.
    by rewrite opts_add_waiter.
  - intros [= <-]. unfold resource.
    destruct (await h) as [i|[r|]|e]; cbn; try done. apply opts_add_waiter.
Qed.

(** What [close()] does to a handler, by its status. *)
Lemma close_by_status (h : ResourceHandler) (closed : option error) :
  match __status h with
  | Closed => (close h closed).1 = h
  | Connecting =>
      __status (close h closed).1 = Closing ∧
      trace (close h closed).1 = trace h ++ [SetStatus Closing]
  | _ =>
      __status (close h closed).1 = Closed ∧
      trace (close h closed).1 =
        trace h ++ SetStatus Closed ::
          match await h with
          | Got (Some r) => [RemoveAllListeners r; closing_call h r]
          | _ => []
          end
  end.
Proof.
  destruct h as [o s p e rc ra dp cs sub tr].
  assert (Ha : ∀ tr', await (Build_ResourceHandler o Closed p e rc ra dp cs sub tr') =
                      await (Build_ResourceHandler o s p e rc ra dp cs sub tr))
    by reflexivity.
  unfold close.
  destruct s; cbn [__status];
    try (rewrite decide_True by done; done);
    try (rewrite (decide_False (P := _ = Closed)) by done);
    try (rewrite (decide_True (P := Connecting = Connecting)) by done; done);
    rewrite (decide_False (P := _ = Connecting)) by done; cbv zeta; upd; rewrite Ha;
    (destruct (await _) as [i|[r|]|e']; cbn; try done;
     [unfold add_waiter; cbn; by destruct (cs !! i)|
      unfold closing_call; upd; by rewrite <- !app_assoc]).
Qed.

(** ** The pool *)

Section PoolFacts.

Import Connection Pool.

Variable toHash : ConnectionSettings → string.

Lemma open_wf (s : ConnectionSettings) (st : state) :
  pool_wf st → pool_wf (open toHash s st).2.
Proof.
  intros [Hb Hi]. unfold open.
  destruct (POOL st !! toHash s) as [c|] eqn:Hl; cbn; [done|].
  split.
  - intros k c. cbn [POOL objects]. rewrite length_app. cbn. rewrite lookup_insert.
    case_decide; [intros [= <-]; lia|]. intros Hk%Hb. lia.
  - intros k1 k2 c. cbn [POOL objects]. rewrite !lookup_insert.
    repeat case_decide; subst; try done.
    + intros [= <-] Hk%Hb. lia.
    + intros Hk%Hb [= <-]. lia.
    + apply Hi.
Qed.

Lemma close_wf (s : ConnectionSettings) (st : state) :
  pool_wf st → pool_wf (close toHash s st).1.
Proof.
  intros [Hb Hi]. unfold close.
  destruct (POOL st !! toHash s) as [c|] eqn:Hl; cbn; [|done].
  split; cbn [POOL objects].
  - intros k c' [_ Hk]%lookup_delete_Some.
    destruct (objects st !! c); [rewrite length_insert|]; eauto.
  - intros k1 k2 c' [_ H1]%lookup_delete_Some [_ H2]%lookup_delete_Some. eauto.
Qed.

Lemma reachable_wf (st : state) : reachable toHash st → pool_wf st.
Proof.
  intros [ops ->]. induction ops as [|o ops IH] using rev_ind.
  - split; cbn; intros *; by rewrite lookup_empty.
  - rewrite foldl_app. cbn. destruct o; cbn; [by apply open_wf|by apply close_wf].
Qed.

Lemma open_hit (s : ConnectionSettings) (st : state) (c : nat) :
  POOL st !! toHash s = Some c → open toHash s st = (c, st).
Proof. intros H. unfold open. by rewrite H. Qed.

Lemma open_miss (s : ConnectionSettings) (st : state) :
  POOL st !! toHash s = None →
  open toHash s st =
    (length (objects st),
     {| POOL := <[toHash s := length (objects st)]> (POOL st);
        objects := objects st ++ [Connection.new s] |}).
Proof. intros H. unfold open. by rewrite H. Qed.

(** *** The pool while its connections live *)

Lemma close_settings (c : Connection) (closed : option Resource.error) :
  __settings (Connection.close c closed).1 = __settings c ∧
  __conn (Connection.close c closed).1 = (Resource.close (__conn c) closed).1.
Proof. unfold Connection.close. by destruct (Resource.close _ _). Qed.

Lemma empty_registered : registered toHash empty.
Proof. split; intros *; cbn; [by rewrite lookup_empty|by rewrite lookup_nil]. Qed.

Lemma open_registered (s : ConnectionSettings) (st : state) :
  registered toHash st → registered toHash (open toHash s st).2.
Proof.
  intros [Hp Ho]. unfold open.
  destruct (POOL st !! toHash s) as [c|] eqn:Hl; cbn [snd]; [done|].
  split; cbn [POOL objects].
  - intros k c. rewrite lookup_insert. case_decide as Hk.
    + intros [= <-]. exists (Connection.new s).
      by rewrite lookup_app_r, Nat.sub_diag by done.
    + intros (conn & Hc & Hh)%Hp. exists conn. split; [|done].
      by apply lookup_app_l_Some.
  - intros c conn [Hc|[_ Hc]]%lookup_app_Some; [by eapply Ho|].
    destruct (c - length (objects st)); [|by destruct n].
    by injection Hc as <-.
Qed.

Lemma close_registered (s : ConnectionSettings) (st : state) :
  registered toHash st → registered toHash (close toHash s st).1.
Proof.
  intros [Hp Ho]. unfold close.
  destruct (POOL st !! toHash s) as [c|] eqn:Hl; cbn [fst]; [|done].
  destruct (objects st !! c) as [conn|] eqn:Hc; split; cbn [POOL objects].
  - intros k c' [_ (conn' & Hc' & Hh)%Hp]%lookup_delete_Some.
    destruct (decide (c' = c)) as [->|Hne].
    + exists (Connection.close conn None).1.
      rewrite list_lookup_insert_eq by (by eapply lookup_lt_Some).
      split; [done|]. destruct (close_settings conn None) as [-> _]. congruence.
    + exists conn'. by rewrite list_lookup_insert_ne.
  - intros c' conn'. destruct (decide (c' = c)) as [->|Hne].
    + rewrite list_lookup_insert_eq by (by eapply lookup_lt_Some).
      intros [= <-]. destruct (close_settings conn None) as [-> ->].
      rewrite opts_close. by eapply Ho.
    + rewrite list_lookup_insert_ne by done. apply Ho.
  - intros k c' [_ Hk]%lookup_delete_Some. by apply Hp.
  - apply Ho.
Qed.

Lemma deliver_registered (c : nat) (ev : Resource.event) (st st' : state) :
  registered toHash st → deliver c ev st = Some st' → registered toHash st'.
Proof.
  intros [Hp Ho]. unfold deliver.
  destruct (objects st !! c) as [conn|] eqn:Hc; cbn; [|done].
  destruct (Resource.step (__conn conn) ev) as [h|] eqn:Hstep; cbn; [|done].
  intros [= <-]. split; cbn [POOL objects].
  - intros k c' (conn' & Hc' & Hh)%Hp.
    destruct (decide (c' = c)) as [->|Hne].
    + eexists. rewrite list_lookup_insert_eq by (by eapply lookup_lt_Some).
      split; [done|]. cbn. congruence.
    + exists conn'. by rewrite list_lookup_insert_ne.
  - intros c' conn'. destruct (decide (c' = c)) as [->|Hne].
    + rewrite list_lookup_insert_eq by (by eapply lookup_lt_Some).
      intros [= <-]. cbn. rewrite (step_opts _ _ _ Hstep). by eapply Ho.
    + rewrite list_lookup_insert_ne by done. apply Ho.
Qed.

Lemma occur_registered (x : occurrence) (st st' : state) :
  registered toHash st → occur toHash st x = Some st' → registered toHash st'.
Proof.
  intros Hr. destruct x as [[s|s]|c ev]; cbn.
  - intros [= <-]. by apply open_registered.
  - intros [= <-]. by apply close_registered.
  - by apply deliver_registered.
Qed.

Lemma occurs_registered (xs : list occurrence) (st st' : state) :
  registered toHash st → occurs toHash st xs = Some st' → registered toHash st'.
Proof.
  revert st. induction xs as [|x xs IH]; intros st Hr; cbn; [by intros [= <-]|].
  destruct (occur toHash st x) as [st1|] eqn:Hx; [|done].
  apply IH. by eapply occur_registered.
Qed.

Lemma live_registered (st : state) : live toHash st → registered toHash st.
Proof. intros [xs Hxs]. eapply occurs_registered; [apply empty_registered|done]. Qed.

Lemma registered_wf (st : state) : registered toHash st → pool_wf st.
Proof.
  intros [Hp _]. split.
  - intros k c (conn & Hc & _)%Hp. by eapply lookup_lt_Some.
  - intros k1 k2 c (conn1 & Hc1 & <-)%Hp (conn2 & Hc2 & <-)%Hp. congruence.
Qed.

(** A connection keeps its place and its settings. *)
Lemma occur_keeps_settings (x : occurrence) (st st' : state) (c : nat) (conn : Connection) :
  occur toHash st x = Some st' → objects st !! c = Some conn →
  ∃ conn', objects st' !! c = Some conn' ∧ __settings conn' = __settings conn.
Proof.
  intros Hx Hc. destruct x as [[s|s]|c0 ev]; cbn in Hx.
  - injection Hx as <-. exists conn. split; [|done]. unfold open.
    destruct (POOL st !! toHash s); cbn; [done|]. by apply lookup_app_l_Some.
  - injection Hx as <-. unfold close.
    destruct (POOL st !! toHash s) as [c1|]; cbn; [|by exists conn].
    destruct (objects st !! c1) as [conn1|] eqn:Hc1; [|by exists conn].
    destruct (decide (c = c1)) as [->|Hne].
    + exists (Connection.close conn1 None).1.
      rewrite list_lookup_insert_eq by (by eapply lookup_lt_Some).
      split; [done|]. destruct (close_settings conn1 None) as [-> _]. congruence.
    + exists conn. by rewrite list_lookup_insert_ne.
  - unfold deliver in Hx.
    destruct (objects st !! c0) as [conn0|] eqn:Hc0; cbn in Hx; [|done].
    destruct (Resource.step (__conn conn0) ev) as [h|]; cbn in Hx; [|done].
    injection Hx as <-. cbn [objects].
    destruct (decide (c = c0)) as [->|Hne].
    + eexists. rewrite list_lookup_insert_eq by (by eapply lookup_lt_Some).
      split; [done|]. cbn. congruence.
    + exists conn. by rewrite list_lookup_insert_ne.
Qed.

Lemma occurs_keeps_settings (xs : list occurrence) (st st' : state) (c : nat)
    (conn : Connection) :
  occurs toHash st xs = Some st' → objects st !! c = Some conn →
  ∃ conn', objects st' !! c = Some conn' ∧ __settings conn' = __settings conn.
Proof.
  revert st conn. induction xs as [|x xs IH]; intros st conn; cbn.
  - intros [= <-] Hc. by exists conn.
  - destruct (occur toHash st x) as [st1|] eqn:Hx; [|done]. intros Hxs Hc.
    destruct (occur_keeps_settings _ _ _ _ _ Hx Hc) as (conn1 & Hc1 & Hs1).
    destruct (IH _ _ Hxs Hc1) as (conn' & Hc' & Hs'). exists conn'. split; [done|congruence].
Qed.

(** An entry stays until [close] is called with settings of its
    fingerprint. *)
Lemma occurs_keeps_entry (xs : list occurrence) (st st' : state) (k : string) (c : nat) :
  Forall (λ x, forgets toHash k x = false) xs →
  occurs toHash st xs = Some st' → POOL st !! k = Some c → POOL st' !! k = Some c.
Proof.
  revert st. induction xs as [|x xs IH]; intros st Hf; cbn; [by intros [= <-]|].
  apply Forall_cons in Hf as [Hx Hf].
  destruct (occur toHash st x) as [st1|] eqn:Ho; [|done]. intros Hxs Hk.
  apply (IH st1 Hf Hxs). destruct x as [[s|s]|c0 ev]; cbn in Ho.
  - injection Ho as <-. unfold open.
    destruct (POOL st !! toHash s) eqn:Hs; cbn; [done|].
    rewrite lookup_insert_ne; [done|]. congruence.
  - injection Ho as <-. cbn in Hx. apply bool_decide_eq_false in Hx. unfold close.
    destruct (POOL st !! toHash s); cbn; [|done]. by rewrite lookup_delete_ne.
  - unfold deliver in Ho.
    destruct (objects st !! c0) as [conn0|]; cbn in Ho; [|done].
    destruct (Resource.step (__conn conn0) ev) as [h|]; cbn in Ho; [|done].
    by injection Ho as <-.
Qed.

Lemma open_registers (s : ConnectionSettings) (st : state) :
  POOL (open toHash s st).2 !! toHash s = Some (open toHash s st).1.
Proof.
  unfold open. destruct (POOL st !! toHash s) eqn:Hs; cbn; [done|].
  apply lookup_insert_eq.
Qed.

(** C5, amended.  While the pool and its connections live, [open(S1)] and a
    later [open(S2)] return one and the same connection, the second without
    making one, when the settings are equal, or have the same fingerprint,
    and [close] has not been called with settings of that fingerprint in
    between; and they return two different connections whenever the
    fingerprints differ, whatever has happened in between. *)
Theorem open_shares_by_settings (st st2 : state) (S1 S2 : ConnectionSettings)
    (xs : list occurrence) :
  live toHash st →
  occurs toHash (open toHash S1 st).2 xs = Some st2 →
  (S1 = S2 → Forall (λ x, forgets toHash (toHash S1) x = false) xs →
     open toHash S2 st2 = ((open toHash S1 st).1, st2)) ∧
  (toHash S1 = toHash S2 → Forall (λ x, forgets toHash (toHash S1) x = false) xs →
     open toHash S2 st2 = ((open toHash S1 st).1, st2)) ∧
  (toHash S1 ≠ toHash S2 → (open toHash S2 st2).1 ≠ (open toHash S1 st).1).
Proof.
  intros Hr0%live_registered Hxs.
  pose proof (open_registered S1 st Hr0) as Hr1.
  pose proof (occurs_registered _ _ _ Hr1 Hxs) as Hr2.
  pose proof (open_registers S1 st) as H1.
  assert (Hsame : toHash S1 = toHash S2 →
                  Forall (λ x, forgets toHash (toHash S1) x = false) xs →
                  open toHash S2 st2 = ((open toHash S1 st).1, st2)).
  { intros Hh Hf. apply open_hit. rewrite <- Hh. by eapply occurs_keeps_entry. }
  split; [intros ->; by apply Hsame|]. split; [done|].
  intros Hne Heq.
  destruct Hr1 as [Hp1 _]. destruct (Hp1 _ _ H1) as (conn1 & Hc1 & Hh1).
  destruct (occurs_keeps_settings _ _ _ _ _ Hxs Hc1) as (conn2 & Hc2 & Hs2).
  destruct (POOL st2 !! toHash S2) as [c2|] eqn:H2.
  - rewrite (open_hit _ _ _ H2) in Heq. cbn in Heq. subst c2.
    destruct Hr2 as [Hp2 _]. destruct (Hp2 _ _ H2) as (conn3 & Hc3 & Hh3).
    congruence.
  - rewrite (open_miss _ _ H2) in Heq. cbn in Heq. apply lookup_lt_Some in Hc2. lia.
Qed.

(** C6.  While the pool and its connections live, [close(settings)] changes
    nothing when no connection is registered under the fingerprint of the
    settings.  When one is, the entry is removed and [close()] is called on
    that connection: a connection that is Closed stays as it is; one that
    is Connecting is set to Closing; any other is set to Closed, and when it
    holds an amqplib connection its listeners are removed and its [close]
    is called.  An [open] with the same settings then makes a new
    connection, registered under the fingerprint. *)
Theorem close_forgets_connection (st : state) (settings : ConnectionSettings) :
  live toHash st →
  match POOL st !! toHash settings with
  | None => close toHash settings st = (st, Resource.Resolves ())
  | Some c =>
      ∃ conn st',
        objects st !! c = Some conn ∧
        close toHash settings st = (st', Resource.Resolves ()) ∧
        POOL st' = delete (toHash settings) (POOL st) ∧
        objects st' = <[c := (Connection.close conn None).1]> (objects st) ∧
        __settings (Connection.close conn None).1 = __settings conn ∧
        match status conn with
        | Resource.Closed => (Connection.close conn None).1 = conn
        | Resource.Connecting =>
            status (Connection.close conn None).1 = Resource.Closing ∧
            Resource.trace (__conn (Connection.close conn None).1) =
              Resource.trace (__conn conn) ++ [Resource.SetStatus Resource.Closing]
        | _ =>
            status (Connection.close conn None).1 = Resource.Closed ∧
            Resource.trace (__conn (Connection.close conn None).1) =
              Resource.trace (__conn conn) ++
              Resource.SetStatus Resource.Closed ::
                match Resource.await (__conn conn) with
                | Resource.Got (Some r) =>
                    [Resource.RemoveAllListeners r; Resource.CallClose r]
                | _ => []
                end
        end ∧
        ∃ c' st'',
          open toHash settings st' = (c', st'') ∧
          c' ≠ c ∧
          objects st' !! c' = None ∧
          objects st'' !! c' = Some (Connection.new settings) ∧
          POOL st'' !! toHash settings = Some c'
  end.
Proof.
  intros Hr%live_registered. pose proof (registered_wf _ Hr) as [Hb Hi].
  destruct (POOL st !! toHash settings) as [c|] eqn:Hl.
  - pose proof (Hb _ _ Hl) as Hc.
    destruct (lookup_lt_is_Some_2 _ _ Hc) as [conn Hconn].
    exists conn,
      {| POOL := delete (toHash settings) (POOL st);
         objects := <[c := (Connection.close conn None).1]> (objects st) |}.
    split; [done|]. split.
    { unfold close. cbv zeta. rewrite Hl. cbn. by rewrite Hconn. }
    split; [done|]. split; [done|].
    destruct (close_settings conn None) as [Hset Hcl]. split; [done|]. split.
    { unfold status. rewrite Hcl.
      pose proof (close_by_status (__conn conn) None) as Hby.
      assert (Hcall : ∀ r, Resource.closing_call (__conn conn) r = Resource.CallClose r).
      { intros r. unfold Resource.closing_call.
        destruct Hr as [_ Ho]. by rewrite (Ho _ _ Hconn). }
      destruct (Resource.__status (__conn conn)).
      - done.
      - destruct Hby as [-> ->]. split; [done|].
        destruct (Resource.await (__conn conn)) as [i|[r|]|e]; try done.
        by rewrite Hcall.
      - destruct Hby as [-> ->]. split; [done|].
        destruct (Resource.await (__conn conn)) as [i|[r|]|e]; try done.
        by rewrite Hcall.
      - destruct Hby as [-> ->]. split; [done|].
        destruct (Resource.await (__conn conn)) as [i|[r|]|e]; try done.
        by rewrite Hcall.
      - destruct conn as [s0 h0]. cbn in Hby, Hset, Hcl |- *.
        destruct (Connection.close _ _).1 as [s1 h1]. cbn in Hset, Hcl. congruence. }
    rewrite open_miss by (cbn; apply lookup_delete_eq).
    eexists _, _. split; [reflexivity|]. cbn. rewrite length_insert.
    split; [lia|]. split.
    + apply lookup_ge_None_2. by rewrite length_insert.
    + split; [|by rewrite lookup_insert_eq].
      rewrite lookup_app_r by (by rewrite length_insert).
      by rewrite length_insert, Nat.sub_diag.
  - unfold close. by rewrite Hl.
Qed.

End PoolFacts.

Lemma fingerprint_inj (s1 s2 : Connection.ConnectionSettings) :
  Sample.fingerprint s1 = Sample.fingerprint s2 → s1 = s2.
Proof.
  unfold Sample.fingerprint. intros H.
  apply (inj pretty) in H. by apply (inj encode) in H.
Qed.

Example opened_is_live : Pool.live Connection.host Sample.opened.
Proof. by exists [Pool.Call (Pool.Open Sample.localhost)]. Qed.

Example pooled_is_live : Pool.live Connection.host Sample.pooled.
Proof.
  by exists [Pool.Call (Pool.Open Sample.localhost);
             Pool.Event 0 (Resource.FactoryResolves 0 3)].
Qed.

Lemma open_shares_by_settings_witness :
  Pool.live Connection.host Pool.empty ∧
  Pool.occurs Connection.host (Pool.open Connection.host Sample.localhost Pool.empty).2
    [Pool.Event 0 (Resource.FactoryResolves 0 3)] = Some Sample.pooled ∧
  ((Sample.localhost = Sample.unverified →
    Forall (λ x, Pool.forgets Connection.host (Connection.host Sample.localhost) x = false)
      [Pool.Event 0 (Resource.FactoryResolves 0 3)] →
    Pool.open Connection.host Sample.unverified Sample.pooled =
      ((Pool.open Connection.host Sample.localhost Pool.empty).1, Sample.pooled)) ∧
   (Connection.host Sample.localhost = Connection.host Sample.unverified →
    Forall (λ x, Pool.forgets Connection.host (Connection.host Sample.localhost) x = false)
      [Pool.Event 0 (Resource.FactoryResolves 0 3)] →
    Pool.open Connection.host Sample.unverified Sample.pooled =
      ((Pool.open Connection.host Sample.localhost Pool.empty).1, Sample.pooled)) ∧
   (Connection.host Sample.localhost ≠ Connection.host Sample.unverified →
    (Pool.open Connection.host Sample.unverified Sample.pooled).1 ≠
    (Pool.open Connection.host Sample.localhost Pool.empty).1)) ∧
  ((Sample.localhost = Sample.remote →
    Forall (λ x, Pool.forgets Connection.host (Connection.host Sample.localhost) x = false)
      [Pool.Event 0 (Resource.FactoryResolves 0 3)] →
    Pool.open Connection.host Sample.remote Sample.pooled =
      ((Pool.open Connection.host Sample.localhost Pool.empty).1, Sample.pooled)) ∧
   (Connection.host Sample.localhost = Connection.host Sample.remote →
    Forall (λ x, Pool.forgets Connection.host (Connection.host Sample.localhost) x = false)
      [Pool.Event 0 (Resource.FactoryResolves 0 3)] →
    Pool.open Connection.host Sample.remote Sample.pooled =
      ((Pool.open Connection.host Sample.localhost Pool.empty).1, Sample.pooled)) ∧
   (Connection.host Sample.localhost ≠ Connection.host Sample.remote →
    (Pool.open Connection.host Sample.remote Sample.pooled).1 ≠
    (Pool.open Connection.host Sample.localhost Pool.empty).1)).
Proof.
  assert (Hl : Pool.live Connection.host Pool.empty) by (by exists []).
  assert (Hx : Pool.occurs Connection.host
                 (Pool.open Connection.host Sample.localhost Pool.empty).2
                 [Pool.Event 0 (Resource.FactoryResolves 0 3)] = Some Sample.pooled)
    by reflexivity.
  split; [exact Hl|]. split; [exact Hx|]. split.
  - exact (open_shares_by_settings Connection.host Pool.empty Sample.pooled
             Sample.localhost Sample.unverified
             [Pool.Event 0 (Resource.FactoryResolves 0 3)] Hl Hx).
  - exact (open_shares_by_settings Connection.host Pool.empty Sample.pooled
             Sample.localhost Sample.remote
             [Pool.Event 0 (Resource.FactoryResolves 0 3)] Hl Hx).
Defined.

(** The two halves at work, the host being the fingerprint: the settings
    of [localhost] opened again give the connection made before, now
    connected; those of [remote] give a second one. *)
Example open_again_and_another :
  (Pool.open Connection.host Sample.localhost Sample.pooled).1 = 0 ∧
  (Pool.open Connection.host Sample.localhost Sample.pooled).2 = Sample.pooled ∧
  (Pool.open Connection.host Sample.remote Sample.pooled).1 = 1 ∧
  Connection.status <$> Pool.objects (Pool.open Connection.host Sample.remote Sample.pooled).2 =
    [Resource.Connected; Resource.Connecting].
Proof. repeat split. Qed.

(** Two fingerprints among more settings than there are fingerprints. *)
Lemma fingerprints_repeat (toHash : Connection.ConnectionSettings → string)
    (hashes : list string) (f : nat → Connection.ConnectionSettings) :
  (∀ s, toHash s ∈ hashes) →
  ∃ i j, i < j ∧ toHash (f i) = toHash (f j).
Proof.
  intros Hin.
  destruct (finite.list_pigeonhole ((λ i, toHash (f i)) <$> seq 0 (S (length hashes))) hashes)
    as (i & j & x & Hlt & Hi & Hj).
  - intros x (i & -> & _)%list_elem_of_fmap. apply Hin.
  - rewrite length_fmap, length_seq. lia.
  - apply list_lookup_fmap_Some in Hi as (i' & -> & Hi).
    apply list_lookup_fmap_Some in Hj as (j' & Hx & Hj).
    apply lookup_seq in Hi as [-> _]. apply lookup_seq in Hj as [-> _].
    by exists i, j.
Qed.

(** C5 as stated fails for every fingerprint that takes finitely many
    values, as the digests of object-hash do: some two different settings
    have the same fingerprint, and [open] gives one connection for
    both. *)
Lemma open_shares_by_settings_counterexample :
  ¬ ∃ (toHash : Connection.ConnectionSettings → string) (hashes : list string),
      (∀ s, toHash s ∈ hashes) ∧
      ∀ S1 S2, S1 ≠ S2 →
        (Pool.open toHash S2 (Pool.open toHash S1 Pool.empty).2).1 ≠
        (Pool.open toHash S1 Pool.empty).1.
Proof.
  intros (toHash & hashes & Hin & Hclaim).
  pose (f := λ i : nat,
    {| Connection.host := "localhost"; Connection.port := Z.of_nat i;
       Connection.vhost := "/"; Connection.keepAlive := 0; Connection.useTLS := false;
       Connection.verifyServerCert := false; Connection.useCA := false;
       Connection.ca := EmptyString; Connection.useTopology := false;
       Connection.topology := EmptyString; Connection.username := EmptyString;
       Connection.password := EmptyString |}).
  destruct (fingerprints_repeat toHash hashes f Hin) as (i & j & Hlt & Hh).
  apply (Hclaim (f i) (f j)).
  - intros [= Heq]. lia.
  - rewrite (open_hit toHash (f j) _ (Pool.open toHash (f i) Pool.empty).1); [done|].
    rewrite <- Hh. apply open_registers.
Qed.

Lemma close_forgets_connection_witness :
  Pool.live Connection.host Sample.pooled ∧
  match Pool.POOL Sample.pooled !! Connection.host Sample.localhost with
  | None =>
      Pool.close Connection.host Sample.localhost Sample.pooled =
      (Sample.pooled, Resource.Resolves ())
  | Some c =>
      ∃ conn st',
        Pool.objects Sample.pooled !! c = Some conn ∧
        Pool.close Connection.host Sample.localhost Sample.pooled =
          (st', Resource.Resolves ()) ∧
        Pool.POOL st' =
          delete (Connection.host Sample.localhost) (Pool.POOL Sample.pooled) ∧
        Pool.objects st' =
          <[c := (Connection.close conn None).1]> (Pool.objects Sample.pooled) ∧
        Connection.__settings (Connection.close conn None).1 = Connection.__settings conn ∧
        match Connection.status conn with
        | Resource.Closed => (Connection.close conn None).1 = conn
        | Resource.Connecting =>
            Connection.status (Connection.close conn None).1 = Resource.Closing ∧
            Resource.trace (Connection.__conn (Connection.close conn None).1) =
              Resource.trace (Connection.__conn conn) ++
              [Resource.SetStatus Resource.Closing]
        | _ =>
            Connection.status (Connection.close conn None).1 = Resource.Closed ∧
            Resource.trace (Connection.__conn (Connection.close conn None).1) =
              Resource.trace (Connection.__conn conn) ++
              Resource.SetStatus Resource.Closed ::
                match Resource.await (Connection.__conn conn) with
                | Resource.Got (Some r) =>
                    [Resource.RemoveAllListeners r; Resource.CallClose r]
                | _ => []
                end
        end ∧
        ∃ c' st'',
          Pool.open Connection.host Sample.localhost st' = (c', st'') ∧
          c' ≠ c ∧
          Pool.objects st' !! c' = None ∧
          Pool.objects st'' !! c' = Some (Connection.new Sample.localhost) ∧
          Pool.POOL st'' !! Connection.host Sample.localhost = Some c'
  end.
Proof.
  split; [exact pooled_is_live|].
  exact (close_forgets_connection Connection.host Sample.pooled Sample.localhost
           pooled_is_live).
Defined.

(** The connected connection of the pool, closed through the pool: its
    listeners are removed and the [close] of amqplib's connection 3 is
    called. *)
Example close_of_pooled_connection :
  let st := (Pool.close Connection.host Sample.localhost Sample.pooled).1 in
  Pool.POOL st !! "localhost" = None ∧
  Connection.status <$> Pool.objects st = [Resource.Closed] ∧
  Resource.trace <$> (Connection.__conn <$> Pool.objects st) =
    [[Resource.SetStatus Resource.Connecting; Resource.FactoryCall; Resource.Subscribe 3;
      Resource.SetStatus Resource.Connected; Resource.Emit Resource.EvOpen;
      Resource.SetStatus Resource.Closed; Resource.RemoveAllListeners 3;
      Resource.CallClose 3]].
Proof. repeat split. Qed.

(** The scenario of the specification, with the host as fingerprint: opened
    twice, one connection; closed, none; opened again, a new one. *)
Example open_twice_close_open :
  let st0 := Pool.empty in
  let '(c1, st1) := Pool.open Connection.host Sample.localhost st0 in
  let '(c2, st2) := Pool.open Connection.host Sample.localhost st1 in
  let '(st3, _) := Pool.close Connection.host Sample.localhost st2 in
  let '(c4, st4) := Pool.open Connection.host Sample.localhost st3 in
  (c1, c2, length (Pool.objects st2), Pool.POOL st3 !! "localhost", c4) =
  (0, 0, 1, None, 1).
Proof. reflexivity. Qed.

(** ** The sender *)

Lemma stringify_no_text (v : Amqp.value) :
  Amqp.JSON_stringify v = Amqp.NoText ↔
  v = Amqp.Undefined ∨ v = Amqp.Function ∨ v = Amqp.Symbol.
Proof.
  split; [|by intros [->|[->| ->]]].
  destruct v as [| |[]| | |l|l| | | |]; cbn; try done; eauto;
    by destruct (existsb _ _).
Qed.

(** What [send] does, by what [await this.__handler.resource()] finds and
    by what [JSON.stringify(payload)] gives. *)
Lemma send_by_cases (s : Sender.Sender) (topic : string) (payload : Amqp.value)
    (options : option Amqp.value) (flow : bool) :
  match Resource.await (Sender.__handler s) with
  | Resource.Got (Some ch) =>
      Sender.send s topic payload options flow =
        match Amqp.JSON_stringify payload with
        | Amqp.Text text =>
            (s, [Amqp.Publish ch (Sender.__exchange s) topic
                   (String.list_byte_of_string text) options],
             Sender.Returns flow)
        | Amqp.NoText => (s, [], Sender.TypeError)
        | Amqp.Throws => (s, [], Sender.JSONTypeError)
        end
  | Resource.Got None =>
      Sender.send s topic payload options flow =
        (s, [], Sender.Fails (Resource.NotAvailable
                                (Resource.o_name (Resource.__opts (Sender.__handler s)))))
  | Resource.Thrown e =>
      Sender.send s topic payload options flow = (s, [], Sender.Fails e)
  | Resource.Pending i =>
      ∃ s', Sender.send s topic payload options flow = (s', [], Sender.Waits i)
  end.
Proof.
  unfold Sender.send, Resource.resource.
  destruct s as [h ex]. cbn [Sender.__handler Sender.__exchange].
  destruct (Resource.await h) as [i|[ch|]|e]; cbn; try done.
  by eexists.
Qed.

(** C8, amended.  For every routing key, options and payload for which
    [JSON.stringify] gives a text, [send] awaits the handler's resource;
    with a channel held it publishes the UTF-8 bytes of that text to the
    sender's exchange with that routing key and those options, once, and
    returns what [publish] returned; with none held it fails with `<name>
    is not available` and with a rejected promise it fails with that
    rejection, nothing being published. *)
Theorem send_publishes_json (s : Sender.Sender) (topic : string) (payload : Amqp.value)
    (options : option Amqp.value) (flow : bool) (text : string) :
  Amqp.JSON_stringify payload = Amqp.Text text →
  match Resource.await (Sender.__handler s) with
  | Resource.Got (Some ch) =>
      Sender.send s topic payload options flow =
        (s, [Amqp.Publish ch (Sender.__exchange s) topic
               (String.list_byte_of_string text) options],
         Sender.Returns flow)
  | Resource.Got None =>
      Sender.send s topic payload options flow =
        (s, [], Sender.Fails (Resource.NotAvailable
                                (Resource.o_name (Resource.__opts (Sender.__handler s)))))
  | Resource.Thrown e =>
      Sender.send s topic payload options flow = (s, [], Sender.Fails e)
  | Resource.Pending i =>
      ∃ s', Sender.send s topic payload options flow = (s', [], Sender.Waits i)
  end.
Proof.
  intros Ht. pose proof (send_by_cases s topic payload options flow) as Hs.
  destruct (Resource.await (Sender.__handler s)) as [i|[ch|]|e]; try done.
  by rewrite Ht in Hs.
Qed.

Lemma send_publishes_json_witness :
  Amqp.JSON_stringify
    (Amqp.Object [("level", Amqp.String "info"); ("code", Amqp.Number "7")]) =
    Amqp.Text (String.concat (String.String Amqp.quotation_mark EmptyString)
                 ["{"; "level"; ":"; "info"; ","; "code"; ":7}"]) ∧
  Sender.send Sample.sender "audit"
    (Amqp.Object [("level", Amqp.String "info"); ("code", Amqp.Number "7")]) None true =
  (Sample.sender,
   [Amqp.Publish 7 "logs" "audit"
      (String.list_byte_of_string
         (String.concat (String.String Amqp.quotation_mark EmptyString)
            ["{"; "level"; ":"; "info"; ","; "code"; ":7}"])) None],
   Sender.Returns true).
Proof.
  split; [reflexivity|].
  apply (send_publishes_json Sample.sender "audit"
           (Amqp.Object [("level", Amqp.String "info"); ("code", Amqp.Number "7")])
           None true).
  reflexivity.
Defined.

(** C8 as stated fails for the payloads that have no JSON text: for a
    payload that holds a BigInt [JSON.stringify] throws, and for a function
    it gives [undefined], so that [Buffer.from] throws; on a sender that
    holds a channel nothing is published. *)
Lemma send_publishes_json_counterexample :
  Resource.resource (Sender.__handler Sample.sender) =
    (Sample.connected, Resource.Resolves 7) ∧
  Sender.send Sample.sender "audit" (Amqp.Object [("n", Amqp.BigInt 1)]) None true =
    (Sample.sender, [], Sender.JSONTypeError) ∧
  Sender.send Sample.sender "audit" Amqp.Function None true =
    (Sample.sender, [], Sender.TypeError).
Proof. repeat split. Qed.

(** X28.  A message without payload, which the README says is sent as a
    whole, is not sent: on a sender that holds a channel, [send] with the payload
    [undefined] publishes nothing and fails with the [TypeError] of
    [Buffer.from], [JSON.stringify(undefined)] being [undefined]; and the
    [input] handler of the out node, which passes [msg.payload] on as it
    is, reports that error. *)
Theorem send_without_payload_throws (s : Sender.Sender) (ch : Resource.res)
    (topic : string) (options : option Amqp.value) (flow : bool)
    (props : Nodes.Properties) (msg : Nodes.NodeMessage) :
  Resource.await (Sender.__handler s) = Resource.Got (Some ch) →
  Amqp.JSON_stringify Amqp.Undefined = Amqp.NoText ∧
  Sender.send s topic Amqp.Undefined options flow = (s, [], Sender.TypeError) ∧
  (Nodes.payload msg = Amqp.Undefined →
   Nodes.routing_key props msg = Amqp.String topic →
   Nodes.input props msg s flow = Some (s, [], [Nodes.Caught Nodes.BufferTypeError])).
Proof.
  intros Hch. split; [done|].
  pose proof (send_by_cases s topic Amqp.Undefined options flow) as Hs.
  rewrite Hch in Hs. cbn in Hs. split; [done|].
  intros Hp Hk. unfold Nodes.input. rewrite Hk, Hp.
  pose proof (send_by_cases s topic Amqp.Undefined (Nodes.options msg) flow) as Hs'.
  rewrite Hch in Hs'. cbn in Hs'. by rewrite Hs'.
Qed.

Lemma send_without_payload_throws_witness :
  Resource.await (Sender.__handler Sample.sender) = Resource.Got (Some 7) ∧
  Amqp.JSON_stringify Amqp.Undefined = Amqp.NoText ∧
  Sender.send Sample.sender "audit" Amqp.Undefined None true =
    (Sample.sender, [], Sender.TypeError) ∧
  (Nodes.payload {| Nodes.payload := Amqp.Undefined; Nodes.topic := Amqp.String "audit";
                    Nodes.options := None |} = Amqp.Undefined →
   Nodes.routing_key Sample.out_props
     {| Nodes.payload := Amqp.Undefined; Nodes.topic := Amqp.String "audit";
        Nodes.options := None |} = Amqp.String "audit" →
   Nodes.input Sample.out_props
     {| Nodes.payload := Amqp.Undefined; Nodes.topic := Amqp.String "audit";
        Nodes.options := None |} Sample.sender true =
   Some (Sample.sender, [], [Nodes.Caught Nodes.BufferTypeError])).
Proof.
  split; [reflexivity|].
  apply (send_without_payload_throws Sample.sender 7 "audit" None true Sample.out_props
           {| Nodes.payload := Amqp.Undefined; Nodes.topic := Amqp.String "audit";
              Nodes.options := None |}).
  reflexivity.
Defined.

(** A message without payload at the out node: nothing is published. *)
Example input_without_payload :
  Nodes.input Sample.out_props
    {| Nodes.payload := Amqp.Undefined; Nodes.topic := Amqp.String "audit";
       Nodes.options := None |} Sample.sender true =
  Some (Sample.sender, [], [Nodes.Caught Nodes.BufferTypeError]).
Proof. reflexivity. Qed.

Example stringify_object :
  Amqp.JSON_stringify
    (Amqp.Object [("a", Amqp.Number "1");
                  ("b", Amqp.Array [Amqp.Undefined; Amqp.Bool true; Amqp.Number "-12";
                                    Amqp.Function; Amqp.Number "NaN"]);
                  ("c", Amqp.Undefined); ("d", Amqp.Symbol)])
  = Amqp.Text (String.concat (String.String Amqp.quotation_mark EmptyString)
                 ["{"; "a"; ":1,"; "b"; ":[null,true,-12,null,null]}"]).
Proof. reflexivity. Qed.

(** 2^64 is written as the double is printed, and a BigInt or a cycle
    anywhere in the payload makes [JSON.stringify] throw. *)
Example stringify_numbers :
  Amqp.JSON_stringify (Amqp.Number "18446744073709552000") =
    Amqp.Text "18446744073709552000" ∧
  Amqp.JSON_stringify (Amqp.Array [Amqp.Null; Amqp.Object [("n", Amqp.BigInt 1)]]) =
    Amqp.Throws ∧
  Amqp.JSON_stringify (Amqp.Object [("self", Amqp.Cycle)]) = Amqp.Throws.
Proof. repeat split. Qed.

Example send_bytes :
  (Sender.send Sample.sender "audit" (Amqp.Number "42") None false).1.2 =
  [Amqp.Publish 7 "logs" "audit" [Byte.x34; Byte.x32] None].
Proof. reflexivity. Qed.

(** C10.  Whatever the state of the handler, [Sender.close] and
    [Subscriber.close] call its [close] and resolve: what the handler's
    [close] settles to, a rejection included, does not reach the caller. *)
Theorem wrappers_close_resolves (s : Sender.Sender) (b : Subscriber.Subscriber)
    (closed : option Resource.error) :
  Sender.close s closed =
    ({| Sender.__handler := (Resource.close (Sender.__handler s) closed).1;
        Sender.__exchange := Sender.__exchange s |}, Resource.Resolves ()) ∧
  Subscriber.close b closed =
    ({| Subscriber.__handler := (Resource.close (Subscriber.__handler b) closed).1;
        Subscriber.__queue := Subscriber.__queue b |}, Resource.Resolves ()).
Proof.
  unfold Sender.close, Subscriber.close.
  destruct (Resource.close (Sender.__handler s) closed) as [h1 p1].
  destruct (Resource.close (Subscriber.__handler b) closed) as [h2 p2].
  done.
Qed.

(** On a sender closed before, the handler rejects and the sender resolves;
    [Connection.close], which returns the handler's promise, rejects. *)
Example close_of_closed_sender :
  let s := (Sender.close Sample.sender None).1 in
  (Resource.close (Sender.__handler s) None).2 = Resource.Rejects (Resource.IsClosed "Sender") ∧
  (Sender.close s None).2 = Resource.Resolves ().
Proof. split; reflexivity. Qed.

Example close_of_closed_connection :
  let c := (Connection.close Sample.connection None).1 in
  (Connection.close c None).2 = Resource.Rejects (Resource.IsClosed "Connection").
Proof. reflexivity. Qed.

(** ** The subscriber *)

(** C9.  When the factory of the subscriber gives a channel, it has asked
    the connection for it and then called [consume] on it for the
    subscriber's queue with [noAck: true], and nothing else; it does so
    whenever the connection is held and both calls succeed.  The callback
    emits [message] with the message delivered, which carries the routing
    key and the payload bytes, makes no call on the channel (no ack, no
    nack), and does nothing for a null message. *)
Theorem subscriber_consumes_then_emits (s : Subscriber.Subscriber)
    (conn : Connection.Connection) :
  (∀ answer consumed conn' calls ch,
      Subscriber.factory s conn answer consumed = (conn', calls, Resource.Resolves ch) →
      ∃ k, calls = [Amqp.CreateChannel k; Amqp.Consume ch (Subscriber.__queue s) true]) ∧
  (∀ k ch,
      Resource.await (Connection.__conn conn) = Resource.Got (Some k) →
      Subscriber.factory s conn (inr ch) None =
        (conn, [Amqp.CreateChannel k; Amqp.Consume ch (Subscriber.__queue s) true],
         Resource.Resolves ch)) ∧
  (∀ key bytes, ∃ s',
      Subscriber.on_message
        (Some {| Resource.routingKey := key; Resource.content := bytes |}) s = (s', []) ∧
      Subscriber.__queue s' = Subscriber.__queue s ∧
      Resource.__status (Subscriber.__handler s') = Resource.__status (Subscriber.__handler s) ∧
      Resource.trace (Subscriber.__handler s') =
        Resource.trace (Subscriber.__handler s) ++
        [Resource.Emit (Resource.EvMessage
           {| Resource.routingKey := key; Resource.content := bytes |})]) ∧
  Subscriber.on_message None s = (s, []).
Proof.
  split; [|split; [|split; [|done]]].
  - intros answer consumed conn' calls ch.
    unfold Subscriber.factory, Connection.createChannel, Resource.resource.
    destruct (Resource.await (Connection.__conn conn)) as [i|[k|]|e]; cbn; try done.
    destruct answer as [e|ch']; cbn; [done|].
    destruct consumed as [e|]; [done|].
    intros [= <- <- <-]. by exists k.
  - intros k ch Hk.
    unfold Subscriber.factory, Connection.createChannel, Resource.resource.
    rewrite Hk. cbn. by destruct conn.
  - intros key bytes. eexists. split; [reflexivity|].
    destruct s as [h q]. destruct h. done.
Qed.

Example subscriber_factory_on_connection :
  (Subscriber.factory Sample.subscriber Sample.connection (inr 9) None).1.2 =
    [Amqp.CreateChannel 3; Amqp.Consume 9 "jobs" true] ∧
  (Subscriber.factory Sample.subscriber Sample.connection (inr 9)
     (Some (Resource.Failure "NOT_FOUND"))).2 =
    Resource.Rejects (Resource.Failure "NOT_FOUND").
Proof. split; reflexivity. Qed.

(** * Further properties of the code *)

(** ** The handler while it acquires *)

(** X1.  In every state a handler can reach, while its status is Connecting
    or Closing the promise in [__resource] is pending: [resource()] and
    [connect()] neither resolve nor reject at once, they wait for the
    attempt under way, and [connect()] starts no attempt of its own. *)
Theorem busy_calls_wait (h : ResourceHandler) :
  reachable h → busy h →
  ∃ i,
    await h = Pending i ∧
    (resource h).2 = Waits i ∧
    (owner_connect h).2 = Waits i ∧
    __status (owner_connect h).1 = __status h ∧
    trace (owner_connect h).1 = trace h.
Proof.
  intros Hr Hb. destruct (reachable_acquiring h Hr Hb) as (i & c & Hslot & Hc & Hst).
  assert (Ha : await h = Pending i).
  { unfold await. rewrite Hslot, Hc. cbn. destruct (c_state c); try done. by destruct (Hst v). }
  exists i. split; [done|]. split.
  { unfold resource. by rewrite Ha. }
  assert (Hn : __connect false h = h).
  { unfold __connect. by destruct Hb as [-> | ->]. }
  unfold owner_connect, connect. rewrite Hn, Ha.
  unfold add_waiter. rewrite Hc. by destruct h.
Qed.

Lemma busy_calls_wait_witness :
  reachable Sample.connecting ∧ busy Sample.connecting ∧
  ∃ i,
    await Sample.connecting = Pending i ∧
    (resource Sample.connecting).2 = Waits i ∧
    (owner_connect Sample.connecting).2 = Waits i ∧
    __status (owner_connect Sample.connecting).1 = __status Sample.connecting ∧
    trace (owner_connect Sample.connecting).1 = trace Sample.connecting.
Proof.
  assert (Hr : reachable Sample.connecting) by (by exists Sample.sender_opts, []).
  assert (Hb : busy Sample.connecting) by (by left).
  split; [exact Hr|]. split; [exact Hb|].
  exact (busy_calls_wait Sample.connecting Hr Hb).
Defined.

(** ** The retry budget *)

Lemma retry_events_app (retries k : nat) (es1 es2 : list error) :
  retry_events retries k (es1 ++ es2) =
  retry_events retries k es1 ++ retry_events retries (k + length es1) es2.
Proof.
  revert k. induction es1 as [|e es1 IH]; intros k; cbn.
  - by rewrite Nat.add_0_r.
  - rewrite IH. do 3 f_equal. lia.
Qed.

(** [mainError()] picks one of the errors collected whose message names no
    property of [Object.prototype], and gives null when there is none. *)
Lemma mainError_from_spec (errs : list error) :
  ∀ (counts : gmap string nat) (main : option error) (mainCount : nat),
  match mainError_from counts main mainCount errs with
  | Some m => main = Some m ∨ (m ∈ errs ∧ message m ∉ Object_prototype)
  | None => main = None ∧
            (mainCount = 0 → Forall (λ x, message x ∈ Object_prototype) errs)
  end.
Proof.
  induction errs as [|e errs IH]; intros counts main mainCount; cbn.
  - destruct main; [by left|done].
  - destruct (decide (message e ∈ Object_prototype)) as [Hin|Hin].
    + specialize (IH counts main mainCount).
      destruct (mainError_from _ _ _ _) as [m|].
      * destruct IH as [->|[Hm Hp]]; [by left|right]. split; [|done].
        by apply list_elem_of_further.
      * destruct IH as [-> Hall]. split; [done|]. intros H0. constructor; auto.
    + destruct (decide _) as [Hle|Hgt].
      * specialize (IH (<[message e := default 0 (counts !! message e) + 1]> counts)
                       (Some e) (default 0 (counts !! message e) + 1)).
        destruct (mainError_from _ _ _ _) as [m|]; [|by destruct IH]. right.
        destruct IH as [[= <-]|[Hm Hp]];
          [split; [apply list_elem_of_here|done]|split; [by apply list_elem_of_further|done]].
      * specialize (IH (<[message e := default 0 (counts !! message e) + 1]> counts)
                       main mainCount).
        destruct (mainError_from _ _ _ _) as [m|].
        -- destruct IH as [->|[Hm Hp]]; [by left|right]. split; [|done].
           by apply list_elem_of_further.
        -- destruct IH as [-> _]. split; [done|]. lia.
Qed.

Lemma mainError_spec (errs : list error) :
  match mainError errs with
  | Some m => m ∈ errs ∧ message m ∉ Object_prototype
  | None => Forall (λ x, message x ∈ Object_prototype) errs
  end.
Proof.
  pose proof (mainError_from_spec errs ∅ None 0) as H. unfold mainError.
  destruct (mainError_from _ _ _ _) as [m|]; [by destruct H|]. destruct H as [_ H]. auto.
Qed.

(** X2.  When the attempts of a new handler fail once more than the number
    of retries, the handler gives up: one [retry] has been emitted per
    failed attempt, the last with no retry left, then one [error] with what
    p-retry rejects with, [mainError()] of the retry package: one of the
    errors met whose message names no property of [Object.prototype], or
    null when every message names one; the status is Error, [__err] holds
    what was emitted, no timer is left for a further attempt, and
    [resource()] rejects with `<name> is not available`. *)
Theorem retries_exhausted_then_error (opts : ResourceHandlerOptions)
    (errs : list error) (e : error) :
  length errs = o_retries (__opts (new opts)) →
  ∃ h,
    run (new opts) (failures 0 errs ++ [FactoryRejects 0 e]) = Some h ∧
    match mainError (errs ++ [e]) with
    | Some m => m ∈ errs ++ [e] ∧ message m ∉ Object_prototype
    | None => Forall (λ x, message x ∈ Object_prototype) (errs ++ [e])
    end ∧
    __status h = Error ∧
    __err h = mainError (errs ++ [e]) ∧
    statuses (trace h) = [Connecting; Error] ∧
    emits (trace h) =
      retry_events (length errs) 1 errs ++
      [EvRetry e (S (length errs)) 0;
       match mainError (errs ++ [e]) with Some m => EvError m | None => EvErrorNull end] ∧
    step h (BackoffElapses 0) = None ∧
    resource h = (h, Rejects (NotAvailable (o_name (__opts (new opts))))).
Proof.
  intros Hn.
  pose proof (mainError_spec (errs ++ [e])) as Hspec.
  destruct (failed_rounds 0 [] errs (new opts) 1 [])
    as (h1 & Hrun & Hs & Ho & Hr & Hc & Hl & Hst & He); [done|done|lia|].
  change (__resource (new opts)) with (OfChain 0) in Hr.
  change (statuses (trace (new opts))) with [Connecting] in Hst.
  change (emits (trace (new opts))) with (@nil emitted) in He.
  change (length (chains (new opts))) with 1 in Hl.
  rewrite <- Hn in He.
  set (o := __opts (new opts)) in *. clearbody o.
  destruct h1 as [o1 s p e1 rc ra dp cs sub tr].
  cbn in Hs, Ho, Hr, Hc, Hl, Hst, He. subst o1 s p.
  destruct cs as [|c [|c' cs]]; try done. cbn in Hc. injection Hc as ->.
  destruct (mainError (errs ++ [e])) as [m|] eqn:Hm.
  - eexists. split.
    { rewrite run_app, Hrun. cbn. unfold factory_rejects. cbn.
      rewrite decide_False by lia. rewrite Hm. cbn.
      unfold chain_catch, settle. upd. reflexivity. }
    split; [done|]. cbn.
    split; [done|]. split; [done|].
    unfold statuses, emits in *. rewrite <- !app_assoc, !omap_app. cbn.
    rewrite Hst, He. cbn.
    split; [done|]. split; [|done].
    do 3 f_equal. lia.
  - eexists. split.
    { rewrite run_app, Hrun. cbn. unfold factory_rejects. cbn.
      rewrite decide_False by lia. rewrite Hm. cbn.
      unfold chain_catch_null, settle. upd. reflexivity. }
    split; [done|]. cbn.
    split; [done|]. split; [done|].
    unfold statuses, emits in *. rewrite <- !app_assoc, !omap_app. cbn.
    rewrite Hst, He. cbn.
    split; [done|]. split; [|done].
    do 3 f_equal. lia.
Qed.

Lemma retries_exhausted_then_error_witness :
  length [Failure "refused"; Failure "toString"] = o_retries (__opts (new Sample.two_retries)) ∧
  ∃ h,
    run (new Sample.two_retries)
      (failures 0 [Failure "refused"; Failure "toString"] ++
       [FactoryRejects 0 (Failure "toString")]) = Some h ∧
    match mainError ([Failure "refused"; Failure "toString"] ++ [Failure "toString"]) with
    | Some m => m ∈ [Failure "refused"; Failure "toString"] ++ [Failure "toString"] ∧
                message m ∉ Object_prototype
    | None => Forall (λ x, message x ∈ Object_prototype)
                ([Failure "refused"; Failure "toString"] ++ [Failure "toString"])
    end ∧
    __status h = Error ∧
    __err h = mainError ([Failure "refused"; Failure "toString"] ++ [Failure "toString"]) ∧
    statuses (trace h) = [Connecting; Error] ∧
    emits (trace h) =
      retry_events (length [Failure "refused"; Failure "toString"]) 1
        [Failure "refused"; Failure "toString"] ++
      [EvRetry (Failure "toString") (S (length [Failure "refused"; Failure "toString"])) 0;
       match mainError ([Failure "refused"; Failure "toString"] ++ [Failure "toString"]) with
       | Some m => EvError m
       | None => EvErrorNull
       end] ∧
    step h (BackoffElapses 0) = None ∧
    resource h = (h, Rejects (NotAvailable (o_name (__opts (new Sample.two_retries))))).
Proof.
  split; [reflexivity|].
  apply (retries_exhausted_then_error Sample.two_retries
           [Failure "refused"; Failure "toString"] (Failure "toString")).
  reflexivity.
Defined.

(** What [mainError()] picks: the error met most often, the latest among
    equals; never one whose message names a property of
    [Object.prototype]; null when there is no other. *)
Example mainError_picks :
  mainError [Failure "refused"; Failure "timeout"; Failure "refused"] =
    Some (Failure "refused") ∧
  mainError [Failure "refused"; Failure "timeout"] = Some (Failure "timeout") ∧
  mainError [Failure "refused"; Failure "toString"; Failure "toString"] =
    Some (Failure "refused") ∧
  mainError [Failure "toString"; Failure "valueOf"; Failure "constructor"] = None.
Proof. repeat split. Qed.

(** A handler with two retries whose three attempts fail with messages
    that name properties of [Object.prototype]: [error] is emitted with
    null, and the status is Error with no error kept. *)
Example budget_exhausted_with_null :
  ∃ h,
    run (new Sample.two_retries)
      (failures 0 [Failure "toString"; Failure "valueOf"] ++
       [FactoryRejects 0 (Failure "toString")]) = Some h ∧
    __status h = Error ∧ __err h = None ∧
    emits (trace h) =
      [EvRetry (Failure "toString") 1 2; EvRetry (Failure "valueOf") 2 1;
       EvRetry (Failure "toString") 3 0; EvErrorNull].
Proof. eexists. split; [vm_compute; reflexivity|]. repeat split. Qed.


(** ** Events of the resource *)

(** X4.  The [close] event of a resource on a handler that is Connected is
    swallowed: the listeners of the resource are removed and nothing else
    happens.  The status stays Connected, no [close] or [error] is emitted,
    the factory is not called, and [resource()] answers as before, so that
    it goes on giving the resource that has closed. *)
Theorem close_event_while_connected (h : ResourceHandler) (r : res) :
  __status h = Connected →
  r ∈ subscribed h →
  ∃ h',
    step h (ResourceClose r) = Some h' ∧
    __status h' = Connected ∧
    trace h' = trace h ++ [RemoveAllListeners r] ∧
    (r ∉ subscribed h') ∧
    (resource h').2 = (resource h).2.
Proof.
  intros Hs Hin. exists (removeAllListeners r h). split.
  { cbn. rewrite decide_True by done. unfold on_close. cbv zeta.
    unfold __setToClose.
    destruct (isReconnecting (removeAllListeners r h)) eqn:Hrc; [done|].
    unfold __attemptReconnect. rewrite decide_False by (by destruct h; cbn in *; intros []).
    unfold __setToClose_resume. rewrite decide_True by (by destruct h). done. }
  destruct h as [o s p e rc ra dp cs sub tr]. cbn in Hs |- *.
  split; [done|]. split; [done|]. split.
  - by intros [Hne _]%list_elem_of_filter.
  - unfold resource, await. cbn. destruct p as [i|e']; [|done].
    destruct (c_state <$> cs !! i) as [[k|k|[v|]]|] eqn:Hc; cbn; try done;
      unfold add_waiter; cbn; by destruct (cs !! i).
Qed.

Lemma close_event_while_connected_witness :
  __status Sample.connected = Connected ∧
  7 ∈ subscribed Sample.connected ∧
  ∃ h',
    step Sample.connected (ResourceClose 7) = Some h' ∧
    __status h' = Connected ∧
    trace h' = trace Sample.connected ++ [RemoveAllListeners 7] ∧
    (7 ∉ subscribed h') ∧
    (resource h').2 = (resource Sample.connected).2.
Proof.
  split; [reflexivity|]. split; [apply list_elem_of_here|].
  apply (close_event_while_connected Sample.connected 7);
    [reflexivity|apply list_elem_of_here].
Defined.

(** X5.  The [error] event of a resource, on a handler that is not already
    reconnecting, is followed by one reconnection: the listeners of the
    resource are removed, the status is Error and [error] is emitted; when
    the delay is over the factory is called again in a new chain; when it
    answers, the handler subscribes to the new resource, is Connected, emits
    [open], and [resource()] gives the new resource.  The broken resource is
    not closed. *)
Theorem error_then_reconnects (h : ResourceHandler) (r r' : res) (err : error) :
  isReconnecting h = false →
  r ∈ subscribed h →
  ∃ h',
    run h [ResourceError r err; DelayElapses; FactoryResolves (length (chains h)) r']
      = Some h' ∧
    __status h' = Connected ∧
    isReconnecting h' = false ∧
    trace h' = trace h ++
      [RemoveAllListeners r; SetStatus Error; Emit (EvError err);
       SetStatus Connecting; FactoryCall;
       Subscribe r'; SetStatus Connected; Emit EvOpen] ∧
    subscribed h' = r' :: filter (λ x, x ≠ r) (subscribed h) ∧
    resource h' = (h', Resolves r').
Proof.
  intros Hrc Hin.
  destruct h as [o s p e rc ra dp cs sub tr]. cbn in Hrc, Hin |- *. subst rc.
  rewrite decide_True by done. unfold on_error, __handleReconnect. upd.
  rewrite decide_True by (unfold maxReconnectAttempts; lia). upd.
  unfold delay_elapses. cbn. unfold __handleReconnect_resume, __connect. upd.
  unfold factory_resolves. cbn.
  rewrite lookup_app_r by done. rewrite Nat.sub_diag. cbn.
  eexists. split.
  { unfold chain_then. rewrite decide_False by done. cbv zeta.
    unfold settle. upd. rewrite lookup_app_r by done. rewrite Nat.sub_diag. cbn.
    reflexivity. }
  cbn. split; [done|]. split; [done|]. split.
  { by rewrite <- !app_assoc. }
  split; [done|].
  unfold resource, await. cbn.
  rewrite list_lookup_insert_eq by (rewrite length_app; cbn; lia). done.
Qed.

Lemma error_then_reconnects_witness :
  isReconnecting Sample.connected = false ∧
  7 ∈ subscribed Sample.connected ∧
  ∃ h',
    run Sample.connected
      [ResourceError 7 (Failure "reset"); DelayElapses;
       FactoryResolves (length (chains Sample.connected)) 8] = Some h' ∧
    __status h' = Connected ∧
    isReconnecting h' = false ∧
    trace h' = trace Sample.connected ++
      [RemoveAllListeners 7; SetStatus Error; Emit (EvError (Failure "reset"));
       SetStatus Connecting; FactoryCall;
       Subscribe 8; SetStatus Connected; Emit EvOpen] ∧
    subscribed h' = 8 :: filter (λ x, x ≠ 7) (subscribed Sample.connected) ∧
    resource h' = (h', Resolves 8).
Proof.
  split; [reflexivity|]. split; [apply list_elem_of_here|].
  apply (error_then_reconnects Sample.connected 7 8 (Failure "reset"));
    [reflexivity|apply list_elem_of_here].
Defined.

(** X6.  A [connect()] of the owner during the delay of a reconnection
    starts an acquisition, and the reconnection starts a second one when
    the delay is over: the factory is called twice.  When both attempts
    succeed the handler subscribes to both resources and emits [open]
    twice; it holds the second resource, and a later [close()] closes that
    one only, the first staying open with the listeners of the handler on
    it. *)
Theorem connect_during_delay_acquires_twice (h : ResourceHandler) (r r1 r2 : res)
    (err : error) :
  isReconnecting h = false →
  r ∈ subscribed h →
  ∃ h' h'',
    run h [ResourceError r err; OwnerConnect; DelayElapses;
           FactoryResolves (length (chains h)) r1;
           FactoryResolves (S (length (chains h))) r2] = Some h' ∧
    trace h' = trace h ++
      [RemoveAllListeners r; SetStatus Error; Emit (EvError err);
       SetStatus Connecting; FactoryCall;
       SetStatus Connecting; FactoryCall;
       Subscribe r1; SetStatus Connected; Emit EvOpen;
       Subscribe r2; SetStatus Connected; Emit EvOpen] ∧
    subscribed h' = r2 :: r1 :: filter (λ x, x ≠ r) (subscribed h) ∧
    resource h' = (h', Resolves r2) ∧
    close h' None = (h'', Resolves ()) ∧
    trace h'' = trace h' ++ [SetStatus Closed; RemoveAllListeners r2; closing_call h r2] ∧
    (r1 ≠ r2 → r1 ∈ subscribed h'').
Proof.
  intros Hrc Hin.
  destruct h as [o s p e rc ra dp cs sub tr]. cbn in Hrc, Hin |- *. subst rc.
  rewrite decide_True by done. unfold on_error, __handleReconnect. upd.
  rewrite decide_True by (unfold maxReconnectAttempts; lia). upd.
  unfold owner_connect, connect, __connect. upd.
  unfold await. cbn. rewrite lookup_app_r by done. rewrite Nat.sub_diag. cbn.
  unfold add_waiter. cbn. rewrite lookup_app_r by done. rewrite Nat.sub_diag. cbn.
  rewrite insert_app_r_alt by done. rewrite Nat.sub_diag. cbn.
  unfold delay_elapses. cbn. unfold __handleReconnect_resume, __connect. upd.
  unfold factory_resolves. cbn.
  rewrite <- !app_assoc. cbn.
  rewrite lookup_app_r by done. rewrite Nat.sub_diag. cbn.
  rewrite length_app. cbn [length]. rewrite Nat.add_1_r.
  unfold chain_then. cbn.
  rewrite (decide_False (P := Connecting = Closing)) by done.
  unfold settle. upd.
  rewrite lookup_app_r by done. rewrite Nat.sub_diag. cbn.
  rewrite insert_app_r_alt by done. rewrite Nat.sub_diag. cbn.
  rewrite lookup_app_r by lia.
  replace (S (length cs) - length cs) with 1 by lia. cbn.
  rewrite (decide_False (P := Connected = Closing)) by done.
  upd.
  rewrite insert_app_r_alt by lia.
  replace (S (length cs) - length cs) with 1 by lia. cbn.
  assert (Hl : (cs ++ [{| c_state := Settled (Some r1); c_errors := []; c_waiters := [] |};
                       {| c_state := Settled (Some r2); c_errors := []; c_waiters := [] |}])
                 !! S (length cs) =
               Some {| c_state := Settled (Some r2); c_errors := []; c_waiters := [] |}).
  { rewrite lookup_app_r by lia. by replace (S (length cs) - length cs) with 1 by lia. }
  eexists _, _. split; [reflexivity|]. cbn.
  split; [by rewrite <- !app_assoc|]. split; [done|]. split.
  { unfold resource, await. cbn. by rewrite Hl. }
  split.
  { unfold close. cbn. unfold await. upd. rewrite Hl. cbn. reflexivity. }
  unfold closing_call. upd. split; [by rewrite <- !app_assoc|].
  intros Hne. rewrite decide_False by (by intros []). rewrite decide_True by done.
  apply list_elem_of_here.
Qed.

Lemma connect_during_delay_acquires_twice_witness :
  isReconnecting Sample.connected = false ∧
  7 ∈ subscribed Sample.connected ∧
  ∃ h' h'',
    run Sample.connected
      [ResourceError 7 (Failure "reset"); OwnerConnect; DelayElapses;
       FactoryResolves (length (chains Sample.connected)) 8;
       FactoryResolves (S (length (chains Sample.connected))) 9] = Some h' ∧
    trace h' = trace Sample.connected ++
      [RemoveAllListeners 7; SetStatus Error; Emit (EvError (Failure "reset"));
       SetStatus Connecting; FactoryCall;
       SetStatus Connecting; FactoryCall;
       Subscribe 8; SetStatus Connected; Emit EvOpen;
       Subscribe 9; SetStatus Connected; Emit EvOpen] ∧
    subscribed h' = 9 :: 8 :: filter (λ x, x ≠ 7) (subscribed Sample.connected) ∧
    resource h' = (h', Resolves 9) ∧
    close h' None = (h'', Resolves ()) ∧
    trace h'' = trace h' ++
      [SetStatus Closed; RemoveAllListeners 9; closing_call Sample.connected 9] ∧
    (8 ≠ 9 → 8 ∈ subscribed h'').
Proof.
  split; [reflexivity|]. split; [apply list_elem_of_here|].
  apply (connect_during_delay_acquires_twice Sample.connected 7 8 9 (Failure "reset"));
    [reflexivity|apply list_elem_of_here].
Defined.

(** ** Reconnection and connect() *)

(** X7.  A reconnection has the whole retry budget again.  After the
    [error] event of a resource, on a handler that is not already
    reconnecting, and the delay, the attempts of the new chain may fail as
    often as there are retries: each failure is announced by [retry],
    numbered from 1 again, and when the next attempt succeeds the handler
    is Connected, has emitted [open], and [resource()] gives the new
    resource. *)
Theorem reconnection_retries_again (h : ResourceHandler) (r r' : res) (err : error)
    (errs : list error) :
  isReconnecting h = false →
  r ∈ subscribed h →
  (length errs ≤ o_retries (__opts h))%nat →
  ∃ h',
    run h ([ResourceError r err; DelayElapses] ++
           failures (length (chains h)) errs ++
           [FactoryResolves (length (chains h)) r']) = Some h' ∧
    __status h' = Connected ∧
    statuses (trace h') = statuses (trace h) ++ [Error; Connecting; Connected] ∧
    emits (trace h') =
      emits (trace h) ++ [EvError err] ++
      retry_events (o_retries (__opts h)) 1 errs ++ [EvOpen] ∧
    resource h' = (h', Resolves r').
Proof.
  intros Hrc Hin Hn.
  destruct h as [o s p e rc ra dp cs sub tr]. cbn in Hrc, Hin, Hn |- *. subst rc.
  rewrite decide_True by done. unfold on_error, __handleReconnect. upd.
  rewrite decide_True by (unfold maxReconnectAttempts; lia). upd.
  unfold delay_elapses. cbn. unfold __handleReconnect_resume, __connect. upd.
  match goal with |- ∃ h', run ?h1 _ = _ ∧ _ =>
    destruct (chain_retries_then_open h1 (length cs) 1 [] [] errs r')
      as (h' & Hrun & Hs & Hr & Hc & Hst & He)
  end.
  { done. }
  { cbn. rewrite lookup_app_r by done. by rewrite Nat.sub_diag. }
  { cbn. lia. }
  exists h'. split; [done|]. split; [done|].
  cbn in Hr, Hst, He. split.
  { rewrite Hst. unfold statuses. rewrite <- !app_assoc, !omap_app. cbn.
    by rewrite <- !app_assoc. }
  split.
  { rewrite He. unfold emits. rewrite <- !app_assoc, !omap_app. cbn.
    by rewrite <- !app_assoc. }
  unfold resource, await. rewrite Hr, Hc. done.
Qed.

Lemma reconnection_retries_again_witness :
  isReconnecting Sample.connected = false ∧
  7 ∈ subscribed Sample.connected ∧
  (length [Failure "refused"; Failure "timeout"] ≤ o_retries (__opts Sample.connected))%nat ∧
  ∃ h',
    run Sample.connected
      ([ResourceError 7 (Failure "reset"); DelayElapses] ++
       failures (length (chains Sample.connected)) [Failure "refused"; Failure "timeout"] ++
       [FactoryResolves (length (chains Sample.connected)) 8]) = Some h' ∧
    __status h' = Connected ∧
    statuses (trace h') =
      statuses (trace Sample.connected) ++ [Error; Connecting; Connected] ∧
    emits (trace h') =
      emits (trace Sample.connected) ++ [EvError (Failure "reset")] ++
      retry_events (o_retries (__opts Sample.connected)) 1
        [Failure "refused"; Failure "timeout"] ++ [EvOpen] ∧
    resource h' = (h', Resolves 8).
Proof.
  split; [reflexivity|]. split; [apply list_elem_of_here|]. split; [vm_compute; lia|].
  apply (reconnection_retries_again Sample.connected 7 8 (Failure "reset")
           [Failure "refused"; Failure "timeout"]);
    [reflexivity|apply list_elem_of_here|vm_compute; lia].
Defined.

(** X8.  [connect()] acts in the status Error only.  There it starts an
    acquisition: the status is Connecting, the error is forgotten, the
    factory is called once in a new chain, and the call waits for that
    chain.  In every other status it calls nothing and changes neither the
    status nor the promise in [__resource]; it only awaits that promise. *)
Theorem connect_acts_in_error_only (h : ResourceHandler) :
  (__status h = Error →
   ∃ h',
     owner_connect h = (h', Waits (length (chains h))) ∧
     __status h' = Connecting ∧
     __err h' = None ∧
     __resource h' = OfChain (length (chains h)) ∧
     trace h' = trace h ++ [SetStatus Connecting; FactoryCall]) ∧
  (__status h ≠ Error →
   __status (owner_connect h).1 = __status h ∧
   __err (owner_connect h).1 = __err h ∧
   __resource (owner_connect h).1 = __resource h ∧
   length (chains (owner_connect h).1) = length (chains h) ∧
   trace (owner_connect h).1 = trace h ∧
   (owner_connect h).2 =
     match await h with
     | Pending i => Waits i
     | Got _ => Resolves ()
     | Thrown e => Rejects e
     end).
Proof.
  split; intros Hs.
  - destruct h as [o s p e rc ra dp cs sub tr]. cbn in Hs. subst s.
    unfold owner_connect, connect, __connect. upd. unfold await. cbn.
    rewrite lookup_app_r by done. rewrite Nat.sub_diag. cbn.
    unfold add_waiter. cbn. rewrite lookup_app_r by done. rewrite Nat.sub_diag. cbn.
    eexists. split; [reflexivity|]. cbn. by rewrite <- !app_assoc.
  - assert (Hn : __connect false h = h).
    { unfold __connect. by destruct (__status h). }
    unfold owner_connect, connect. rewrite Hn.
    destruct (await h) as [i|v|e]; cbn; try done.
    unfold add_waiter. destruct (chains h !! i) as [c|]; [|done].
    destruct h as [o s p e rc ra dp cs sub tr]. cbn. by rewrite length_insert.
Qed.

(** ** A resource made for a handler that is closing *)

(** The continuations resumed with null act on no resource. *)
Lemma resume_null_quiet (ws : list waiter) (h : ResourceHandler) :
  ∃ t, trace (foldl (resume None) h ws) = trace h ++ t ∧
       Forall (λ a, on_resource a = false) t.
Proof.
  revert h. induction ws as [|w ws IH]; intros h; cbn.
  - exists []. by rewrite app_nil_r.
  - destruct (IH (resume None h w)) as (t2 & -> & Hq2).
    assert (Hw : ∃ t1, trace (resume None h w) = trace h ++ t1 ∧
                       Forall (λ a, on_resource a = false) t1).
    { destruct w; cbn; try (exists []; by rewrite app_nil_r).
      unfold __setToClose_resume. destruct (decide _); [exists []; by rewrite app_nil_r|].
      destruct h as [o s p e rc ra dp cs sub tr]. unfold teardown. upd.
      eexists. split; [by rewrite <- !app_assoc|]. by repeat constructor. }
    destruct Hw as (t1 & -> & Hq1).
    exists (t1 ++ t2). rewrite app_assoc. split; [done|]. by apply Forall_app.
Qed.

(** X9.  When [close()] is called on a handler that is Connecting, with no
    reconnection under way, and the attempt in flight then succeeds, the
    resource it gives is dropped: the handler does not subscribe to it and
    calls neither the closer nor its [close]; it emits [error] with
    `<name> is closed`, ends Closed, and [resource()] rejects with that
    error.  The resource stays open. *)
Theorem aborted_resource_is_dropped (h : ResourceHandler) (i k : nat)
    (errs : list error) (ws : list waiter) (closed : option error) (r : res) :
  __status h = Connecting →
  isReconnecting h = false →
  __resource h = OfChain i →
  chains h !! i = Some {| c_state := AwaitFactory k; c_errors := errs; c_waiters := ws |} →
  ∃ h1 h2 t,
    close h closed = (h1, Resolves ()) ∧
    step h1 (FactoryResolves i r) = Some h2 ∧
    __status h2 = Closed ∧
    subscribed h2 = subscribed h ∧
    trace h2 = trace h ++
      [SetStatus Closing; SetStatus Error; Emit (EvError (IsClosed (o_name (__opts h))))] ++ t ∧
    Forall (λ a, on_resource a = false) t ∧
    resource h2 = (h2, Rejects (IsClosed (o_name (__opts h)))).
Proof.
  intros Hs Hr Hslot Hc.
  assert (Hi : i < length (chains h)) by (eapply lookup_lt_Some; eauto).
  destruct h as [o s p e rc ra dp cs sub tr]. cbn in Hs, Hr, Hslot, Hc, Hi |- *.
  subst s rc p.
  exists (Build_ResourceHandler o Closing (OfChain i) e false ra dp cs sub
            (tr ++ [SetStatus Closing])).
  unfold factory_resolves. cbn. rewrite Hc. cbn.
  unfold chain_then. rewrite decide_True by done. cbv zeta.
  unfold __setToClose. cbn.
  unfold __attemptReconnect. rewrite decide_True by done.
  unfold connect, __connect. cbn.
  unfold await. cbn. rewrite Hc. cbn.
  unfold add_waiter. cbn. rewrite Hc. cbn.
  unfold chain_catch, settle. upd.
  rewrite list_lookup_insert_eq by done. cbn.
  rewrite foldl_app. cbn.
  match goal with |- context [foldl (resume None) ?h0 ws] =>
    destruct (resume_null ws h0) as (Hs' & Ho & Hch & Hre & Hsub & _ & _); [done|];
    destruct (resume_null_quiet ws h0) as (t & Ht & Hq);
    set (hf := foldl (resume None) h0 ws) in *; clearbody hf
  end.
  destruct hf as [o' s' p' e' rc' ra' dp' cs' sub' tr'].
  cbn in Hs', Ho, Hsub, Ht |- *. subst o' sub' tr'.
  unfold __setToClose_resume. cbn. rewrite decide_False by done.
  unfold teardown. upd.
  eexists _, (t ++ [SetStatus Closed; Emit EvClose; RemoveOwnListeners]).
  split; [reflexivity|]. split; [reflexivity|]. cbn.
  split; [done|]. split; [done|]. split.
  { by rewrite <- !app_assoc. }
  split; [|done].
  apply Forall_app. split; [done|]. by repeat constructor.
Qed.

Lemma aborted_resource_is_dropped_witness :
  __status Sample.connecting = Connecting ∧
  isReconnecting Sample.connecting = false ∧
  __resource Sample.connecting = OfChain 0 ∧
  chains Sample.connecting !! 0 =
    Some {| c_state := AwaitFactory 1; c_errors := []; c_waiters := [] |} ∧
  ∃ h1 h2 t,
    close Sample.connecting None = (h1, Resolves ()) ∧
    step h1 (FactoryResolves 0 7) = Some h2 ∧
    __status h2 = Closed ∧
    subscribed h2 = subscribed Sample.connecting ∧
    trace h2 = trace Sample.connecting ++
      [SetStatus Closing; SetStatus Error;
       Emit (EvError (IsClosed (o_name (__opts Sample.connecting))))] ++ t ∧
    Forall (λ a, on_resource a = false) t ∧
    resource h2 = (h2, Rejects (IsClosed (o_name (__opts Sample.connecting)))).
Proof.
  repeat (split; [reflexivity|]).
  apply (aborted_resource_is_dropped Sample.connecting 0 1 [] [] None 7); reflexivity.
Defined.

(** X10.  A handler torn down by [__setToClose] stays as it is whatever the
    owner calls: [resource()] and [connect()] reject with the error held in
    [__resource], [close()] rejects with `<name> is closed`, and none of
    them changes the state, calls the factory or emits anything;
    [connect()] is no way back from this state. *)
Theorem torn_down_handler_is_stuck (h : ResourceHandler) (e : error) (evs : list event) :
  __status h = Closed →
  __resource h = RejectedWith e →
  Forall (λ ev, owner_call ev = true) evs →
  run h evs = Some h ∧
  resource h = (h, Rejects e) ∧
  owner_connect h = (h, Rejects e) ∧
  ∀ closed, close h closed = (h, Rejects (IsClosed (o_name (__opts h)))).
Proof.
  intros Hs Hslot Hev.
  assert (Hres : resource h = (h, Rejects e)).
  { unfold resource, await. by rewrite Hslot. }
  assert (Hcon : owner_connect h = (h, Rejects e)).
  { unfold owner_connect, connect, __connect. rewrite Hs. cbn.
    unfold await. by rewrite Hslot. }
  assert (Hclose : ∀ closed, close h closed = (h, Rejects (IsClosed (o_name (__opts h))))).
  { intros closed. by apply close_when_closed. }
  split; [|done].
  induction Hev as [|ev evs Hev _ IH]; [done|].
  destruct ev; try done; cbn [run step].
  - by rewrite Hclose.
  - by rewrite Hcon.
  - by rewrite Hres.
Qed.

Lemma torn_down_handler_is_stuck_witness :
  __status Sample.aborted = Closed ∧
  __resource Sample.aborted = RejectedWith (IsClosed "Sender") ∧
  Forall (λ ev, owner_call ev = true) [OwnerConnect; OwnerResource; OwnerClose] ∧
  run Sample.aborted [OwnerConnect; OwnerResource; OwnerClose] = Some Sample.aborted ∧
  resource Sample.aborted = (Sample.aborted, Rejects (IsClosed "Sender")) ∧
  owner_connect Sample.aborted = (Sample.aborted, Rejects (IsClosed "Sender")) ∧
  ∀ closed, close Sample.aborted closed =
              (Sample.aborted, Rejects (IsClosed (o_name (__opts Sample.aborted)))).
Proof.
  split; [reflexivity|]. split; [reflexivity|].
  split; [by repeat constructor|].
  apply (torn_down_handler_is_stuck Sample.aborted (IsClosed "Sender")
           [OwnerConnect; OwnerResource; OwnerClose]);
    [reflexivity|reflexivity|by repeat constructor].
Defined.

(** ** What every reachable state satisfies *)

Ltac announce :=
  unfold announced, statuses; cbn; rewrite ?omap_app; cbn;
  rewrite ?app_nil_r, ?last_snoc; try done.

Ltac steady_here h :=
  destruct h as [? ? ? ? ? ? ? ? ? ?]; split; [reflexivity|announce].

Lemma steady_refl (h : ResourceHandler) : steady h h.
Proof. by split. Qed.

Lemma steady_trans (h1 h2 h3 : ResourceHandler) :
  steady h1 h2 → steady h2 h3 → steady h1 h3.
Proof. intros [H1 H2] [H3 H4]. split; [congruence|auto]. Qed.

Lemma steady_add_waiter (i : nat) (w : waiter) (h : ResourceHandler) :
  steady h (add_waiter i w h).
Proof.
  unfold add_waiter. destruct (chains h !! i); [|apply steady_refl]. steady_here h.
Qed.

Lemma steady_set_chain (i : nat) (st : chain_state) (errs : list error)
    (ws : list waiter) (h : ResourceHandler) :
  steady h (set_chain i st errs ws h).
Proof. steady_here h. Qed.

Lemma steady___connect (force : bool) (h : ResourceHandler) :
  steady h (__connect force h).
Proof.
  unfold __connect. destruct (_ && _); [apply steady_refl|]. steady_here h.
Qed.

Lemma steady_teardown (h : ResourceHandler) : steady h (teardown h).
Proof. unfold teardown. steady_here h. Qed.

Lemma steady___setToClose_resume (h : ResourceHandler) :
  steady h (__setToClose_resume h).
Proof.
  unfold __setToClose_resume. destruct (decide _); [apply steady_refl|apply steady_teardown].
Qed.

Lemma steady___setToClose (h : ResourceHandler) : steady h (__setToClose h).
Proof.
  unfold __setToClose. destruct (isReconnecting h); [apply steady_refl|].
  unfold __attemptReconnect. destruct (decide _).
  - unfold connect. pose proof (steady___connect false h) as Hc.
    destruct (await (__connect false h)) as [i|v|e].
    + eapply steady_trans; [exact Hc|apply steady_add_waiter].
    + eapply steady_trans; [exact Hc|apply steady___setToClose_resume].
    + eapply steady_trans; [exact Hc|].
      eapply steady_trans; [|apply steady_teardown].
      destruct (__connect false h). by split.
  - apply steady___setToClose_resume.
Qed.

Lemma steady_close_resume (v : option res) (h : ResourceHandler) :
  steady h (close_resume v h).
Proof.
  destruct v as [r|]; [|apply steady_refl]. unfold close_resume, closing_call.
  destruct h as [o ? ? ? ? ? ? ? ? ?]. cbn. destruct (o_closer o); split; try done; announce.
Qed.

Lemma steady_resumes (v : option res) (ws : list waiter) (h : ResourceHandler) :
  steady h (foldl (resume v) h ws).
Proof.
  revert h. induction ws as [|w ws IH]; intros h; cbn; [apply steady_refl|].
  eapply steady_trans; [|apply IH].
  destruct w; cbn;
    [apply steady_close_resume|apply steady_refl|apply steady_refl|
     apply steady___setToClose_resume].
Qed.

Lemma steady_settle (i : nat) (v : option res) (h : ResourceHandler) :
  steady h (settle i v h).
Proof.
  unfold settle. destruct (chains h !! i) as [c|]; [|apply steady_refl].
  eapply steady_trans; [|apply steady_resumes]. apply steady_set_chain.
Qed.

Lemma steady_chain_catch (i : nat) (err : error) (h : ResourceHandler) :
  steady h (chain_catch i err h).
Proof.
  unfold chain_catch. cbv zeta. eapply steady_trans; [|apply steady_settle]. steady_here h.
Qed.

Lemma steady_chain_catch_null (i : nat) (h : ResourceHandler) :
  steady h (chain_catch_null i h).
Proof.
  unfold chain_catch_null. cbv zeta. eapply steady_trans; [|apply steady_settle]. steady_here h.
Qed.

Lemma steady_chain_then (i : nat) (r : res) (h : ResourceHandler) :
  steady h (chain_then i r h).
Proof.
  unfold chain_then. destruct (decide _); cbv zeta.
  - eapply steady_trans; [apply steady___setToClose|apply steady_chain_catch].
  - eapply steady_trans; [|apply steady_settle]. steady_here h.
Qed.

Lemma steady_attempt (i k : nat) (h : ResourceHandler) : steady h (attempt i k h).
Proof.
  unfold attempt. destruct (chains h !! i) as [c|]; [|apply steady_refl].
  destruct (decide _); cbv zeta.
  - eapply steady_trans; [apply steady___setToClose|apply steady_chain_catch].
  - eapply steady_trans; [|apply steady_set_chain]. steady_here h.
Qed.

Lemma steady_close (h : ResourceHandler) (closed : option error) :
  steady h (close h closed).1.
Proof.
  unfold close. destruct (decide _); [apply steady_refl|].
  destruct (decide _); cbn; [steady_here h|].
  assert (Hs : steady h (__setStatus Closed h)) by steady_here h.
  destruct (await (__setStatus Closed h)) as [i|[r|]|e]; cbn; try done.
  - eapply steady_trans; [exact Hs|apply steady_add_waiter].
  - eapply steady_trans; [exact Hs|apply (steady_close_resume (Some r))].
Qed.

Lemma steady_owner_connect (h : ResourceHandler) : steady h (owner_connect h).1.
Proof.
  unfold owner_connect, connect. pose proof (steady___connect false h) as Hc.
  destruct (await (__connect false h)) as [i|v|e]; cbn; try done.
  eapply steady_trans; [exact Hc|apply steady_add_waiter].
Qed.

Lemma steady_resource (h : ResourceHandler) : steady h (resource h).1.
Proof.
  unfold resource. destruct (await h) as [i|[r|]|e]; cbn; try apply steady_refl.
  apply steady_add_waiter.
Qed.

(** The events that do not belong to the reconnection loop. *)
Lemma steady_step (h h' : ResourceHandler) (ev : event) :
  (∀ r err, ev ≠ ResourceError r err) → ev ≠ DelayElapses →
  step h ev = Some h' → steady h h'.
Proof.
  intros He Hd. destruct ev as [i r|i err|i| |r err|r| | |]; cbn.
  - unfold factory_resolves. destruct (chains h !! i) as [[[]]|]; try done.
    intros [= <-]. apply steady_chain_then.
  - unfold factory_rejects. destruct (chains h !! i) as [[[k|k|v] errs ws]|]; try done.
    destruct (decide _); intros [= <-].
    + eapply steady_trans; [|apply steady_set_chain]. steady_here h.
    + eapply steady_trans;
        [|destruct (mainError _); [apply steady_chain_catch|apply steady_chain_catch_null]].
      eapply steady_trans; [|apply steady_set_chain]. steady_here h.
  - unfold backoff_elapses. destruct (chains h !! i) as [[[k|k|v] errs ws]|]; try done.
    intros [= <-]. apply steady_attempt.
  - done.
  - by destruct (He r err).
  - destruct (decide _); [|done]. intros [= <-]. unfold on_close. cbv zeta.
    eapply steady_trans; [|apply steady___setToClose]. steady_here h.
  - intros [= <-]. apply steady_close.
  - intros [= <-]. apply steady_owner_connect.
  - intros [= <-]. apply steady_resource.
Qed.

Lemma step_invariants (h h' : ResourceHandler) (ev : event) :
  step h ev = Some h' →
  announced h ∧ isReconnecting h = delayPending h ∧ (reconnectAttempts h ≤ 1)%nat →
  announced h' ∧ isReconnecting h' = delayPending h' ∧ (reconnectAttempts h' ≤ 1)%nat.
Proof.
  intros Hstep (Ha & Hf & Hn).
  assert (Hsteady : (∀ r err, ev ≠ ResourceError r err) → ev ≠ DelayElapses →
                    announced h' ∧ isReconnecting h' = delayPending h' ∧
                    (reconnectAttempts h' ≤ 1)%nat).
  { intros He Hd. destruct (steady_step h h' ev He Hd Hstep) as [Hs1 Hs2].
    unfold reconnection in Hs1. injection Hs1 as -> -> ->. auto. }
  destruct ev as [i r|i err|i| |r err|r| | |]; try (by apply Hsteady).
  - clear Hsteady. revert Hstep. cbn. unfold delay_elapses.
    destruct (delayPending h) eqn:Hdp; [|done].
    intros [= <-]. unfold __handleReconnect_resume. cbv zeta.
    destruct h as [o0 s0 p0 e0 rc0 ra0 dp0 cs0 sub0 tr0]. cbn in Hf, Hn, Hdp |- *.
    match goal with |- context [__connect true ?h0] =>
      destruct (steady___connect true h0) as [Hs1 Hs2];
      specialize (Hs2 Ha);
      destruct (__connect true h0) as [o s p e rc ra dp cs sub tr]
    end.
    unfold reconnection in Hs1. cbn in Hs1. injection Hs1 as -> -> ->.
    cbn. split; [done|]. split; [done|lia].
  - clear Hsteady. revert Hstep. cbn. destruct (decide _); [|done]. intros [= <-].
    unfold on_error, __handleReconnect. destruct h as [o s p e0 rc ra dp cs sub tr].
    cbn in Hf, Hn |- *. subst dp. destruct rc; cbn.
    + split; [revert Ha; announce|]. split; [done|lia].
    + rewrite decide_True by (unfold maxReconnectAttempts; lia). cbn.
      split; [revert Ha; announce|]. split; [done|lia].
Qed.

Lemma reachable_invariants (h : ResourceHandler) :
  reachable h →
  announced h ∧ isReconnecting h = delayPending h ∧ (reconnectAttempts h ≤ 1)%nat.
Proof.
  intros (opts & evs & Hrun). revert h Hrun.
  induction evs as [|ev evs IH] using rev_ind; intros h.
  - intros [= <-]. split; [done|]. split; [done|].
    change (reconnectAttempts (new opts)) with 0. lia.
  - rewrite run_app. destruct (run (new opts) evs) as [h0|]; [|done]. cbn.
    destruct (step h0 ev) as [h1|] eqn:Hstep; [|done]. intros [= <-].
    eapply step_invariants; [done|]. by apply IH.
Qed.

(** X11.  In every state a handler can reach, the status is the one last
    given to [__setStatus]: no code path changes the status without the
    [status] event being scheduled for it, so that a listener of [status]
    that has seen every event knows the current status. *)
Theorem status_is_announced (h : ResourceHandler) :
  reachable h → last (statuses (trace h)) = Some (__status h).
Proof. intros Hr. by destruct (reachable_invariants h Hr) as (Ha & _). Qed.

Lemma status_is_announced_witness :
  reachable Sample.aborted ∧
  last (statuses (trace Sample.aborted)) = Some (__status Sample.aborted).
Proof.
  assert (Hr : reachable Sample.aborted)
    by (by exists Sample.sender_opts, [OwnerClose; FactoryResolves 0 7]).
  split; [exact Hr|]. exact (status_is_announced Sample.aborted Hr).
Defined.

(** X12.  In every state a handler can reach, the loop of
    [__handleReconnect] is in its first round or over: [reconnectAttempts]
    is at most 1, never near [maxReconnectAttempts], so that the branch
    that gives up after the last attempt is never taken; and
    [isReconnecting] is set exactly while the delay before the attempt is
    pending, not while the attempt itself runs. *)
Theorem reconnection_never_repeats (h : ResourceHandler) :
  reachable h →
  (reconnectAttempts h ≤ 1)%nat ∧
  (reconnectAttempts h < maxReconnectAttempts)%nat ∧
  isReconnecting h = delayPending h.
Proof.
  intros Hr. destruct (reachable_invariants h Hr) as (_ & Hf & Hn).
  split; [done|]. split; [unfold maxReconnectAttempts; lia|done].
Qed.

Lemma reconnection_never_repeats_witness :
  reachable (on_error 7 (Failure "reset") Sample.connected) ∧
  (reconnectAttempts (on_error 7 (Failure "reset") Sample.connected) ≤ 1)%nat ∧
  (reconnectAttempts (on_error 7 (Failure "reset") Sample.connected)
     < maxReconnectAttempts)%nat ∧
  isReconnecting (on_error 7 (Failure "reset") Sample.connected) =
    delayPending (on_error 7 (Failure "reset") Sample.connected).
Proof.
  assert (Hr : reachable (on_error 7 (Failure "reset") Sample.connected))
    by (by exists Sample.sender_opts, [FactoryResolves 0 7; ResourceError 7 (Failure "reset")]).
  split; [exact Hr|].
  exact (reconnection_never_repeats (on_error 7 (Failure "reset") Sample.connected) Hr).
Defined.

(** ** Resources are closed by close() only *)

Ltac unclosed_here h :=
  destruct h as [? ? ? ? ? ? ? ? ? ?]; intros [Htr Hch]; split; cbn in *;
  [rewrite ?Forall_app; repeat split; try done; by repeat constructor|try done].

Lemma unclosed_add_waiter (i : nat) (w : waiter) (h : ResourceHandler) :
  w ≠ WClose → unclosed h → unclosed (add_waiter i w h).
Proof.
  intros Hw. unfold add_waiter. destruct (chains h !! i) as [c|] eqn:Hc; [|done].
  destruct h as [? ? ? ? ? ? ? cs ? ?]. intros [Htr Hch]. split; [done|]. cbn in *.
  apply Forall_insert; [done|]. cbn.
  rewrite Forall_lookup in Hch. specialize (Hch i c Hc).
  rewrite elem_of_app, list_elem_of_singleton. intros [?|?]; [done|congruence].
Qed.

Lemma unclosed_set_chain (i : nat) (st : chain_state) (errs : list error)
    (ws : list waiter) (h : ResourceHandler) :
  WClose ∉ ws → unclosed h → unclosed (set_chain i st errs ws h).
Proof.
  intros Hw. destruct h as [? ? ? ? ? ? ? cs ? ?]. intros [Htr Hch]. split; [done|].
  cbn in *. by apply Forall_insert.
Qed.

Lemma unclosed___connect (force : bool) (h : ResourceHandler) :
  unclosed h → unclosed (__connect force h).
Proof.
  unfold __connect. destruct (_ && _); [done|]. unclosed_here h.
  apply Forall_app. split; [done|]. repeat constructor. cbn. apply not_elem_of_nil.
Qed.

Lemma unclosed_teardown (h : ResourceHandler) : unclosed h → unclosed (teardown h).
Proof. unfold teardown. unclosed_here h. Qed.

Lemma unclosed___setToClose_resume (h : ResourceHandler) :
  unclosed h → unclosed (__setToClose_resume h).
Proof.
  unfold __setToClose_resume. destruct (decide _); [done|apply unclosed_teardown].
Qed.

Lemma unclosed___setToClose (h : ResourceHandler) :
  unclosed h → unclosed (__setToClose h).
Proof.
  intros Hu. unfold __setToClose. destruct (isReconnecting h); [done|].
  unfold __attemptReconnect. destruct (decide _).
  - unfold connect. pose proof (unclosed___connect false h Hu) as Hc.
    destruct (await (__connect false h)) as [i|v|e].
    + by apply unclosed_add_waiter.
    + by apply unclosed___setToClose_resume.
    + apply unclosed_teardown. revert Hc. destruct (__connect false h). by intros [].
  - by apply unclosed___setToClose_resume.
Qed.

Lemma unclosed_resumes (v : option res) (ws : list waiter) :
  ∀ h : ResourceHandler,
  WClose ∉ ws → unclosed h → unclosed (foldl (resume v) h ws).
Proof.
  induction ws as [|w ws IH]; intros h Hw Hu; [done|].
  apply not_elem_of_cons in Hw as [Hne Hw]. cbn. apply IH; [done|].
  destruct w; cbn; try done. by apply unclosed___setToClose_resume.
Qed.

Lemma unclosed_settle (i : nat) (v : option res) (h : ResourceHandler) :
  unclosed h → unclosed (settle i v h).
Proof.
  intros Hu. unfold settle. destruct (chains h !! i) as [c|] eqn:Hc; [|done].
  assert (Hw : WClose ∉ c_waiters c).
  { destruct Hu as [_ Hch]. rewrite Forall_lookup in Hch. by apply (Hch i c). }
  apply unclosed_resumes; [done|]. apply unclosed_set_chain; [apply not_elem_of_nil|done].
Qed.

Lemma unclosed_chain_catch (i : nat) (err : error) (h : ResourceHandler) :
  unclosed h → unclosed (chain_catch i err h).
Proof.
  intros Hu. unfold chain_catch. cbv zeta. apply unclosed_settle.
  revert Hu. unclosed_here h.
Qed.

Lemma unclosed_chain_catch_null (i : nat) (h : ResourceHandler) :
  unclosed h → unclosed (chain_catch_null i h).
Proof.
  intros Hu. unfold chain_catch_null. cbv zeta. apply unclosed_settle.
  revert Hu. unclosed_here h.
Qed.

Lemma unclosed_chain_then (i : nat) (r : res) (h : ResourceHandler) :
  unclosed h → unclosed (chain_then i r h).
Proof.
  intros Hu. unfold chain_then. destruct (decide _); cbv zeta.
  - by apply unclosed_chain_catch, unclosed___setToClose.
  - apply unclosed_settle. revert Hu. unclosed_here h.
Qed.

Lemma unclosed_attempt (i k : nat) (h : ResourceHandler) :
  unclosed h → unclosed (attempt i k h).
Proof.
  intros Hu. unfold attempt. destruct (chains h !! i) as [c|] eqn:Hc; [|done].
  assert (Hw : WClose ∉ c_waiters c).
  { destruct Hu as [_ Hch]. rewrite Forall_lookup in Hch. by apply (Hch i c). }
  destruct (decide _); cbv zeta.
  - by apply unclosed_chain_catch, unclosed___setToClose.
  - apply unclosed_set_chain; [done|]. revert Hu. unclosed_here h.
Qed.

Lemma unclosed_step (h h' : ResourceHandler) (ev : event) :
  ev ≠ OwnerClose → step h ev = Some h' → unclosed h → unclosed h'.
Proof.
  intros Hev Hstep Hu. revert Hstep.
  destruct ev as [i r|i err|i| |r err|r| | |]; cbn; try done.
  - unfold factory_resolves. destruct (chains h !! i) as [[[]]|]; try done.
    intros [= <-]. by apply unclosed_chain_then.
  - unfold factory_rejects.
    destruct (chains h !! i) as [[[k|k|v] errs ws]|] eqn:Hc; try done.
    assert (Hw : WClose ∉ ws).
    { destruct Hu as [_ Hch]. rewrite Forall_lookup in Hch. by apply (Hch i _ Hc). }
    assert (Hu' : unclosed (emit (EvRetry err k (o_retries (__opts h) - (k - 1))) h))
      by (revert Hu; unclosed_here h).
    destruct (decide _); intros [= <-].
    + apply unclosed_set_chain; [done|]. revert Hu'. by destruct h.
    + destruct (mainError _);
        [apply unclosed_chain_catch|apply unclosed_chain_catch_null];
        (apply unclosed_set_chain; [done|]); revert Hu'; by destruct h.
  - unfold backoff_elapses. destruct (chains h !! i) as [[[k|k|v] errs ws]|]; try done.
    intros [= <-]. by apply unclosed_attempt.
  - unfold delay_elapses. destruct (delayPending h); [|done]. intros [= <-].
    unfold __handleReconnect_resume. cbv zeta.
    match goal with |- context [__connect true ?h0] =>
      assert (Hu0 : unclosed h0) by (revert Hu; by destruct h);
      pose proof (unclosed___connect true h0 Hu0) as Hc;
      destruct (__connect true h0)
    end.
    exact Hc.
  - destruct (decide _); [|done]. intros [= <-]. unfold on_error. cbv zeta.
    match goal with |- unclosed (emit _ (__handleReconnect ?h0)) =>
      assert (Hu0 : unclosed h0) by (revert Hu; unclosed_here h);
      assert (Hu1 : unclosed (__handleReconnect h0))
    end.
    { unfold __handleReconnect. destruct (isReconnecting _); [done|].
      destruct (decide _).
      - revert Hu0. by destruct h.
      - apply unclosed___setToClose. revert Hu0. by destruct h. }
    revert Hu1. match goal with |- unclosed ?h1 → _ => unclosed_here h1 end.
  - destruct (decide _); [|done]. intros [= <-]. unfold on_close. cbv zeta.
    apply unclosed___setToClose. revert Hu. unclosed_here h.
  - intros [= <-]. unfold owner_connect, connect.
    pose proof (unclosed___connect false h Hu) as Hc.
    destruct (await (__connect false h)) as [i|v|e]; cbn; try done.
    by apply unclosed_add_waiter.
  - intros [= <-]. unfold resource.
    destruct (await h) as [i|[r|]|e]; cbn; try done.
    by apply unclosed_add_waiter.
Qed.

(** X13.  The handler closes a resource only for a [close()] of its owner:
    whatever the events, as long as [close()] is not called, neither the
    closer nor the [close] of a resource is called.  A resource that has
    failed, one that is replaced by a reconnection and one left by a
    teardown all stay open. *)
Theorem only_close_closes (opts : ResourceHandlerOptions) (evs : list event)
    (h : ResourceHandler) :
  run (new opts) evs = Some h →
  OwnerClose ∉ evs →
  Forall (λ a, closes a = false) (trace h).
Proof.
  intros Hrun Hno.
  enough (Hu : unclosed h) by (by destruct Hu).
  revert h Hrun Hno. induction evs as [|ev evs IH] using rev_ind; intros h.
  - intros [= <-] _. split; [by repeat constructor|].
    repeat constructor. cbn. apply not_elem_of_nil.
  - rewrite run_app. destruct (run (new opts) evs) as [h0|]; [|done]. cbn.
    destruct (step h0 ev) as [h1|] eqn:Hstep; [|done]. intros [= <-] Hno.
    rewrite elem_of_app, list_elem_of_singleton in Hno.
    eapply unclosed_step; [|exact Hstep|].
    + intros ->. apply Hno. by right.
    + apply IH; [done|]. intros Hin. apply Hno. by left.
Qed.

Lemma only_close_closes_witness :
  run (new Sample.sender_opts)
    [FactoryResolves 0 7; ResourceError 7 (Failure "reset"); DelayElapses;
     FactoryResolves 1 8; ResourceClose 8] =
    Some (on_close 8 (chain_then 1 8 (__handleReconnect_resume
            (on_error 7 (Failure "reset") Sample.connected)))) ∧
  (OwnerClose ∉ [FactoryResolves 0 7; ResourceError 7 (Failure "reset"); DelayElapses;
                 FactoryResolves 1 8; ResourceClose 8]) ∧
  Forall (λ a, closes a = false)
    (trace (on_close 8 (chain_then 1 8 (__handleReconnect_resume
              (on_error 7 (Failure "reset") Sample.connected))))).
Proof.
  assert (Hno : OwnerClose ∉ [FactoryResolves 0 7; ResourceError 7 (Failure "reset");
                              DelayElapses; FactoryResolves 1 8; ResourceClose 8]).
  { intros Hin. repeat (apply elem_of_cons in Hin as [Hin|Hin]; [discriminate|]).
    by apply elem_of_nil in Hin. }
  split; [reflexivity|]. split; [exact Hno|].
  apply (only_close_closes Sample.sender_opts
           [FactoryResolves 0 7; ResourceError 7 (Failure "reset"); DelayElapses;
            FactoryResolves 1 8; ResourceClose 8]); [reflexivity|exact Hno].
Defined.

(** ** The getters status and error *)

Ltac report :=
  unfold reported; cbn; rewrite ?omap_app; cbn; rewrite ?app_nil_r, ?last_snoc; try done.

Ltac ems_here h :=
  destruct h as [? ? ? ? ? ? ? ? ? ?]; unfold error_matches_status, busy; cbn;
  try (intros [He Hb]); split; try done; try (by intros [|]); try (intros _; report).

Lemma ems_fields (h h' : ResourceHandler) :
  __status h' = __status h → __err h' = __err h →
  reported (trace h') = reported (trace h) →
  error_matches_status h → error_matches_status h'.
Proof. unfold error_matches_status, busy. by intros -> -> ->. Qed.

Ltac ems_same h :=
  apply ems_fields; destruct h as [? ? ? ? ? ? ? ? ? ?]; cbn; report.

Lemma ems_add_waiter (i : nat) (w : waiter) (h : ResourceHandler) :
  error_matches_status h → error_matches_status (add_waiter i w h).
Proof.
  unfold add_waiter. destruct (chains h !! i); [|done].
  apply ems_fields; by destruct h.
Qed.

Lemma ems_set_chain (i : nat) (st : chain_state) (errs : list error)
    (ws : list waiter) (h : ResourceHandler) :
  error_matches_status h → error_matches_status (set_chain i st errs ws h).
Proof. apply ems_fields; by destruct h. Qed.

(** [__connect] on a handler that is in Error, or forced. *)
Lemma ems___connect_acts (force : bool) (h : ResourceHandler) :
  force = true ∨ __status h = Error →
  error_matches_status (__connect force h) ∧ __status (__connect force h) = Connecting.
Proof.
  intros Hf. unfold __connect.
  destruct (_ && _) eqn:Hb.
  { apply andb_true_iff in Hb as [Hn Hs]. destruct Hf as [->|Hf]; [done|].
    by rewrite Hf in Hs. }
  split; [ems_here h|by destruct h].
Qed.

Lemma ems___connect (force : bool) (h : ResourceHandler) :
  error_matches_status h → error_matches_status (__connect force h).
Proof.
  intros Hu. destruct (decide (force = true ∨ __status h = Error)) as [Hf|Hf].
  - by apply ems___connect_acts.
  - unfold __connect. destruct (_ && _) eqn:Hb; [done|]. destruct Hf.
    apply andb_false_iff in Hb as [Hb|Hb].
    + left. by destruct force.
    + right. by destruct (__status h).
Qed.

Lemma ems_teardown (h : ResourceHandler) : error_matches_status (teardown h).
Proof. unfold teardown. ems_here h. Qed.

Lemma ems___setToClose_resume (h : ResourceHandler) :
  error_matches_status h → error_matches_status (__setToClose_resume h).
Proof.
  unfold __setToClose_resume. destruct (decide _); [done|]. intros _. apply ems_teardown.
Qed.

Lemma ems___setToClose (h : ResourceHandler) :
  error_matches_status h → error_matches_status (__setToClose h).
Proof.
  intros Hu. unfold __setToClose. destruct (isReconnecting h); [done|].
  unfold __attemptReconnect. destruct (decide _).
  - unfold connect. pose proof (ems___connect false h Hu) as Hc.
    destruct (await (__connect false h)) as [i|v|e].
    + by apply ems_add_waiter.
    + by apply ems___setToClose_resume.
    + apply ems_teardown.
  - by apply ems___setToClose_resume.
Qed.

(** [__setToClose] on a handler that is in Error and not reconnecting
    leaves no handler in Error: it connects, or tears down. *)
Lemma ems___setToClose_error (h : ResourceHandler) :
  __status h = Error → isReconnecting h = false →
  error_matches_status (__setToClose h) ∧ __status (__setToClose h) ≠ Error.
Proof.
  intros Hs Hr. unfold __setToClose. rewrite Hr.
  unfold __attemptReconnect. rewrite decide_True by (by rewrite Hs).
  unfold connect.
  destruct (ems___connect_acts false h (or_intror Hs)) as [Hc Hst].
  destruct (await (__connect false h)) as [i|v|e].
  - split; [by apply ems_add_waiter|].
    unfold add_waiter. destruct (chains _ !! i); [|by rewrite Hst].
    destruct (__connect false h). cbn in *. by rewrite Hst.
  - unfold __setToClose_resume. rewrite decide_False by (by rewrite Hst).
    split; [apply ems_teardown|]. by destruct (__connect false h).
  - split; [apply ems_teardown|]. by destruct (__connect false h).
Qed.

Lemma ems_resumes (v : option res) (ws : list waiter) :
  ∀ h : ResourceHandler,
  error_matches_status h → error_matches_status (foldl (resume v) h ws).
Proof.
  induction ws as [|w ws IH]; intros h Hu; [done|].
  cbn. apply IH. destruct w; cbn; try done.
  - destruct v as [r|]; [|done]. revert Hu. unfold close_resume, closing_call.
    apply ems_fields; destruct h as [o ? ? ? ? ? ? ? ? ?]; cbn; destruct (o_closer o);
      report.
  - by apply ems___setToClose_resume.
Qed.

Lemma ems_settle (i : nat) (v : option res) (h : ResourceHandler) :
  error_matches_status h → error_matches_status (settle i v h).
Proof.
  intros Hu. unfold settle. destruct (chains h !! i) as [c|]; [|done].
  by apply ems_resumes, ems_set_chain.
Qed.

Lemma ems_chain_catch (i : nat) (err : error) (h : ResourceHandler) :
  error_matches_status (chain_catch i err h).
Proof. unfold chain_catch. cbv zeta. apply ems_settle. ems_here h. Qed.

Lemma ems_chain_catch_null (i : nat) (h : ResourceHandler) :
  error_matches_status (chain_catch_null i h).
Proof. unfold chain_catch_null. cbv zeta. apply ems_settle. ems_here h. Qed.

Lemma ems_chain_then (i : nat) (r : res) (h : ResourceHandler) :
  error_matches_status (chain_then i r h).
Proof.
  unfold chain_then. destruct (decide _); cbv zeta; [apply ems_chain_catch|].
  apply ems_settle. ems_here h.
Qed.

Lemma ems_attempt (i k : nat) (h : ResourceHandler) :
  error_matches_status h → error_matches_status (attempt i k h).
Proof.
  intros Hu. unfold attempt. destruct (chains h !! i) as [c|]; [|done].
  destruct (decide _); cbv zeta; [apply ems_chain_catch|].
  apply ems_set_chain. revert Hu. ems_same h.
Qed.

Lemma ems_on_error (r : res) (err : error) (h : ResourceHandler) :
  error_matches_status (on_error r err h).
Proof.
  unfold on_error, __handleReconnect. cbv zeta.
  match goal with |- context [isReconnecting ?h0] =>
    assert (Hs : __status h0 = Error) by (by destruct h);
    assert (He : __err h0 = Some err) by (by destruct h);
    destruct (isReconnecting h0) eqn:Hr; [revert Hs He; generalize h0|]
  end.
  { intros h0 Hs He. destruct h0; cbn in *; subst. split; [intros _; report|by intros [|]]. }
  destruct (decide _).
  - match goal with |- error_matches_status (emit _ (with_reconnect _ _ _ (with_reconnect _ _ _ ?h0))) =>
      revert Hs He; generalize h0
    end.
    intros h0 Hs He. destruct h0; cbn in *; subst. split; [intros _; report|by intros [|]].
  - match goal with |- error_matches_status (emit _ (__setToClose ?h0)) =>
      destruct (ems___setToClose_error h0) as [Hc Hne];
        [revert Hs; clear; by destruct h| clear; by destruct h |];
      revert Hc Hne; generalize (__setToClose h0)
    end.
    intros h1 [H1 H2] Hne. destruct h1; cbn in *. split; [done|]. exact H2.
Qed.

Lemma ems_step (h h' : ResourceHandler) (ev : event) :
  step h ev = Some h' → error_matches_status h → error_matches_status h'.
Proof.
  intros Hstep Hu. revert Hstep.
  destruct ev as [i r|i err|i| |r err|r| | |]; cbn.
  - unfold factory_resolves. destruct (chains h !! i) as [[[]]|]; try done.
    intros [= <-]. apply ems_chain_then.
  - unfold factory_rejects. destruct (chains h !! i) as [[[k|k|v] errs ws]|]; try done.
    destruct (decide _); intros [= <-];
      [|destruct (mainError _); [apply ems_chain_catch|apply ems_chain_catch_null]].
    apply ems_set_chain. revert Hu. ems_same h.
  - unfold backoff_elapses. destruct (chains h !! i) as [[[k|k|v] errs ws]|]; try done.
    intros [= <-]. by apply ems_attempt.
  - unfold delay_elapses. destruct (delayPending h); [|done]. intros [= <-].
    unfold __handleReconnect_resume. cbv zeta.
    match goal with |- context [__connect true ?h0] =>
      destruct (ems___connect_acts true h0 (or_introl eq_refl)) as [Hc _];
      destruct (__connect true h0)
    end.
    exact Hc.
  - destruct (decide _); [|done]. intros [= <-]. apply ems_on_error.
  - destruct (decide _); [|done]. intros [= <-]. unfold on_close. cbv zeta.
    apply ems___setToClose. revert Hu. ems_same h.
  - intros [= <-]. unfold close. destruct (decide _); [done|].
    destruct (decide _) as [Hs|Hs]; cbn.
    + destruct Hu as [_ Hb]. specialize (Hb (or_introl Hs)).
      destruct h as [? ? ? ? ? ? ? ? ? ?]. cbn in *. subst.
      split; cbn; [done|by intros _].
    + assert (Hc : error_matches_status (__setStatus Closed h)) by (by ems_here h).
      destruct (await (__setStatus Closed h)) as [i|[r|]|e]; cbn; try done.
      * by apply ems_add_waiter.
      * revert Hc. unfold closing_call.
        apply ems_fields; destruct h as [o ? ? ? ? ? ? ? ? ?]; cbn; destruct (o_closer o);
          report.
  - intros [= <-]. unfold owner_connect, connect.
    pose proof (ems___connect false h Hu) as Hc.
    destruct (await (__connect false h)) as [i|v|e]; cbn; try done.
    by apply ems_add_waiter.
  - intros [= <-]. unfold resource.
    destruct (await h) as [i|[r|]|e]; cbn; try done.
    by apply ems_add_waiter.
Qed.

(** X14.  In every state a handler can reach, the getters [status] and
    [error] agree with what was emitted: while the status is Error,
    [error] gives what the last [error] event carried, an error or null;
    and while the status is Connecting or Closing it gives nothing. *)
Theorem error_is_kept_while_in_error (h : ResourceHandler) :
  reachable h →
  (__status h = Error → last (reported (trace h)) = Some (__err h)) ∧
  (__status h = Connecting ∨ __status h = Closing → __err h = None).
Proof.
  intros (opts & evs & Hrun). revert h Hrun.
  induction evs as [|ev evs IH] using rev_ind; intros h.
  - intros [= <-]. split; [done|]. by intros _.
  - rewrite run_app. destruct (run (new opts) evs) as [h0|]; [|done]. cbn.
    destruct (step h0 ev) as [h1|] eqn:Hstep; [|done]. intros [= <-].
    eapply ems_step; [done|]. by apply IH.
Qed.

Lemma error_is_kept_while_in_error_witness :
  reachable (on_error 7 (Failure "reset") Sample.connected) ∧
  (__status (on_error 7 (Failure "reset") Sample.connected) = Error →
   last (reported (trace (on_error 7 (Failure "reset") Sample.connected))) =
     Some (__err (on_error 7 (Failure "reset") Sample.connected))) ∧
  (__status (on_error 7 (Failure "reset") Sample.connected) = Connecting ∨
   __status (on_error 7 (Failure "reset") Sample.connected) = Closing →
   __err (on_error 7 (Failure "reset") Sample.connected) = None).
Proof.
  assert (Hr : reachable (on_error 7 (Failure "reset") Sample.connected))
    by (by exists Sample.sender_opts, [FactoryResolves 0 7; ResourceError 7 (Failure "reset")]).
  split; [exact Hr|].
  exact (error_is_kept_while_in_error (on_error 7 (Failure "reset") Sample.connected) Hr).
Defined.

(** After a resource error the getter gives that error; after attempts
    that all failed with messages naming properties of [Object.prototype]
    the status is Error and the getter gives null. *)
Example error_getter :
  __status (on_error 7 (Failure "reset") Sample.connected) = Error ∧
  __err (on_error 7 (Failure "reset") Sample.connected) = Some (Failure "reset") ∧
  (run (new Sample.two_retries)
     (failures 0 [Failure "toString"; Failure "valueOf"] ++
      [FactoryRejects 0 (Failure "toString")]) ≫= λ h,
   Some (__status h, __err h, last (reported (trace h)))) =
  Some (Error, None, Some None).
Proof. repeat split. Qed.

(** ** The pool, further *)

Section PoolUse.

Import Connection Pool.

Variable toHash : ConnectionSettings → string.

Lemma close_keeps_settings (c : Connection) (closed : option Resource.error) :
  __settings (Connection.close c closed).1 = __settings c.
Proof. unfold Connection.close. by destruct (Resource.close _ _). Qed.

(** Every entry of the pool refers to a connection made for settings with
    the fingerprint of the entry. *)
Lemma reachable_entries (st : state) :
  reachable toHash st →
  ∀ k c, POOL st !! k = Some c →
         ∃ conn, objects st !! c = Some conn ∧ toHash (__settings conn) = k.
Proof.
  intros [ops ->]. induction ops as [|o ops IH] using rev_ind.
  - intros k c. cbn. by rewrite lookup_empty.
  - rewrite foldl_app. cbn. set (st := foldl (apply toHash) empty ops) in *.
    destruct o as [s|s]; cbn.
    + unfold open. destruct (POOL st !! toHash s) as [c0|] eqn:Hl; cbn; [exact IH|].
      intros k c. rewrite lookup_insert. case_decide as Hk.
      * intros [= <-]. exists (Connection.new s).
        rewrite lookup_app_r by done. by rewrite Nat.sub_diag.
      * intros Hc. destruct (IH k c Hc) as (conn & Hconn & Hh).
        exists conn. split; [|done]. rewrite lookup_app_l; [done|].
        by eapply lookup_lt_Some.
    + unfold close. destruct (POOL st !! toHash s) as [c0|] eqn:Hl; cbn; [|exact IH].
      intros k c [_ Hc]%lookup_delete_Some.
      destruct (IH k c Hc) as (conn & Hconn & Hh).
      destruct (objects st !! c0) as [conn0|] eqn:H0; [|by exists conn].
      destruct (decide (c = c0)) as [->|Hne].
      * exists (Connection.close conn0 None).1. split.
        -- apply list_lookup_insert_eq. by eapply lookup_lt_Some.
        -- rewrite close_keeps_settings. congruence.
      * exists conn. by rewrite list_lookup_insert_ne.
Qed.

(** X15.  In every state of the pool, [open(settings)] returns a connection
    that was made for settings with the same fingerprint, and that it has
    registered under this fingerprint and under no other; when the
    fingerprint is free of collisions the connection was made for these
    very settings. *)
Theorem open_returns_matching_connection (st : state) (settings : ConnectionSettings) :
  reachable toHash st →
  ∃ c st' conn,
    open toHash settings st = (c, st') ∧
    objects st' !! c = Some conn ∧
    toHash (__settings conn) = toHash settings ∧
    (∀ k, POOL st' !! k = Some c ↔ k = toHash settings) ∧
    ((∀ s1 s2, toHash s1 = toHash s2 → s1 = s2) → __settings conn = settings).
Proof.
  intros [ops ->].
  assert (Hr : reachable toHash (foldl (apply toHash) empty (ops ++ [Open settings])))
    by (by eexists).
  rewrite foldl_app in Hr. cbn in Hr.
  set (st := foldl (apply toHash) empty ops) in *.
  destruct (open toHash settings st) as [c st'] eqn:Hopen. cbn in Hr.
  assert (Hc : POOL st' !! toHash settings = Some c).
  { revert Hopen. unfold open. destruct (POOL st !! toHash settings) as [c0|] eqn:Hl.
    - by intros [= <- <-].
    - intros [= <- <-]. cbn. apply lookup_insert_eq. }
  destruct (reachable_entries st' Hr _ _ Hc) as (conn & Hconn & Hh).
  exists c, st', conn. split; [done|]. split; [done|]. split; [done|]. split.
  - intros k. split; [|by intros ->].
    intros Hk. destruct (reachable_wf toHash st' Hr) as [_ Hi]. by eapply Hi.
  - intros Hinj. by apply Hinj.
Qed.

Lemma apply_reachable (st : state) (o : op) :
  reachable toHash st → reachable toHash (apply toHash st o).
Proof. intros [ops ->]. exists (ops ++ [o]). by rewrite foldl_app. Qed.

(** X16.  The pool does not count its users.  When [open] is called twice
    with the same settings, both callers hold the same connection; the
    first [close] with these settings removes the entry and calls [close()]
    on that connection, which the other caller still holds; the second
    [close] finds no entry and does nothing. *)
Theorem shared_connection_closed_by_first_close (st : state) (settings : ConnectionSettings) :
  reachable toHash st →
  ∃ c st1 conn st2,
    open toHash settings st = (c, st1) ∧
    open toHash settings st1 = (c, st1) ∧
    objects st1 !! c = Some conn ∧
    close toHash settings st1 = (st2, Resource.Resolves ()) ∧
    POOL st2 !! toHash settings = None ∧
    objects st2 !! c = Some (Connection.close conn None).1 ∧
    close toHash settings st2 = (st2, Resource.Resolves ()).
Proof.
  intros Hr. pose proof (apply_reachable st (Open settings) Hr) as Hr1. cbn in Hr1.
  destruct (open toHash settings st) as [c st1] eqn:Hopen. cbn in Hr1.
  assert (Hc : POOL st1 !! toHash settings = Some c).
  { revert Hopen. unfold open. destruct (POOL st !! toHash settings) as [c0|] eqn:Hl.
    - by intros [= <- <-].
    - intros [= <- <-]. cbn. apply lookup_insert_eq. }
  destruct (reachable_entries st1 Hr1 _ _ Hc) as (conn & Hconn & _).
  exists c, st1, conn. eexists. split; [done|]. split; [by apply open_hit|].
  split; [done|]. split.
  { unfold close. rewrite Hc, Hconn. reflexivity. }
  cbn. split; [apply lookup_delete_eq|]. split.
  { apply list_lookup_insert_eq. by eapply lookup_lt_Some. }
  unfold close. cbn. by rewrite lookup_delete_eq.
Qed.

(** X17.  In every state of the pool, an [open] or a [close] with settings
    of another fingerprint leaves a registered connection alone: it stays
    registered, and nothing is called on it. *)
Theorem other_settings_leave_connection (st : state) (S1 : ConnectionSettings)
    (c : nat) (o : op) :
  reachable toHash st →
  POOL st !! toHash S1 = Some c →
  toHash (op_settings o) ≠ toHash S1 →
  POOL (apply toHash st o) !! toHash S1 = Some c ∧
  objects (apply toHash st o) !! c = objects st !! c.
Proof.
  intros [Hb Hi]%reachable_wf Hc Hne. pose proof (Hb _ _ Hc) as Hlt.
  destruct o as [S2|S2]; cbn.
  - unfold open. destruct (POOL st !! toHash S2) as [c2|] eqn:H2; cbn; [done|].
    split; [by rewrite lookup_insert_ne|]. by rewrite lookup_app_l.
  - unfold close. destruct (POOL st !! toHash S2) as [c2|] eqn:H2; cbn; [|done].
    split; [by rewrite lookup_delete_ne|].
    destruct (objects st !! c2); [|done].
    apply list_lookup_insert_ne. intros ->. apply Hne. by eapply Hi.
Qed.

End PoolUse.

Lemma open_returns_matching_connection_witness :
  Pool.reachable Sample.fingerprint
    (Pool.apply Sample.fingerprint Pool.empty (Pool.Open Sample.remote)) ∧
  ∃ c st' conn,
    Pool.open Sample.fingerprint Sample.localhost
      (Pool.apply Sample.fingerprint Pool.empty (Pool.Open Sample.remote)) = (c, st') ∧
    Pool.objects st' !! c = Some conn ∧
    Sample.fingerprint (Connection.__settings conn) = Sample.fingerprint Sample.localhost ∧
    (∀ k, Pool.POOL st' !! k = Some c ↔ k = Sample.fingerprint Sample.localhost) ∧
    ((∀ s1 s2, Sample.fingerprint s1 = Sample.fingerprint s2 → s1 = s2) →
     Connection.__settings conn = Sample.localhost).
Proof.
  split; [by exists [Pool.Open Sample.remote]|].
  apply (open_returns_matching_connection Sample.fingerprint
           (Pool.apply Sample.fingerprint Pool.empty (Pool.Open Sample.remote))
           Sample.localhost).
  by exists [Pool.Open Sample.remote].
Defined.

Lemma shared_connection_closed_by_first_close_witness :
  Pool.reachable Connection.host
    (Pool.apply Connection.host Pool.empty (Pool.Open Sample.remote)) ∧
  ∃ c st1 conn st2,
    Pool.open Connection.host Sample.localhost
      (Pool.apply Connection.host Pool.empty (Pool.Open Sample.remote)) = (c, st1) ∧
    Pool.open Connection.host Sample.localhost st1 = (c, st1) ∧
    Pool.objects st1 !! c = Some conn ∧
    Pool.close Connection.host Sample.localhost st1 = (st2, Resource.Resolves ()) ∧
    Pool.POOL st2 !! Connection.host Sample.localhost = None ∧
    Pool.objects st2 !! c = Some (Connection.close conn None).1 ∧
    Pool.close Connection.host Sample.localhost st2 = (st2, Resource.Resolves ()).
Proof.
  split; [by exists [Pool.Open Sample.remote]|].
  apply (shared_connection_closed_by_first_close Connection.host
           (Pool.apply Connection.host Pool.empty (Pool.Open Sample.remote))
           Sample.localhost).
  by exists [Pool.Open Sample.remote].
Defined.

Lemma other_settings_leave_connection_witness :
  Pool.reachable Connection.host
    (Pool.apply Connection.host Pool.empty (Pool.Open Sample.localhost)) ∧
  Pool.POOL (Pool.apply Connection.host Pool.empty (Pool.Open Sample.localhost))
    !! Connection.host Sample.localhost = Some 0 ∧
  Connection.host (Pool.op_settings (Pool.Close Sample.remote))
    ≠ Connection.host Sample.localhost ∧
  Pool.POOL (Pool.apply Connection.host
               (Pool.apply Connection.host Pool.empty (Pool.Open Sample.localhost))
               (Pool.Close Sample.remote))
    !! Connection.host Sample.localhost = Some 0 ∧
  Pool.objects (Pool.apply Connection.host
                  (Pool.apply Connection.host Pool.empty (Pool.Open Sample.localhost))
                  (Pool.Close Sample.remote)) !! 0 =
  Pool.objects (Pool.apply Connection.host Pool.empty (Pool.Open Sample.localhost)) !! 0.
Proof.
  split; [by exists [Pool.Open Sample.localhost]|].
  split; [reflexivity|]. split; [discriminate|].
  apply (other_settings_leave_connection Connection.host
           (Pool.apply Connection.host Pool.empty (Pool.Open Sample.localhost))
           Sample.localhost 0 (Pool.Close Sample.remote));
    [by exists [Pool.Open Sample.localhost]|reflexivity|discriminate].
Defined.

(** ** Opening the connection *)

(** X18.  [openInternal] does not read the settings [verifyServerCert],
    [useTopology] and [topology]; it reads [useCA] only with [useTLS], and
    [ca] only with both: settings that agree on what is read give the same
    call of [amqp.connect] and the same result. *)
Theorem openInternal_ignores_settings (fs : Tls.files)
    (s1 s2 : Connection.ConnectionSettings) (answer : error + res) :
  Connection.host s1 = Connection.host s2 →
  Connection.port s1 = Connection.port s2 →
  Connection.vhost s1 = Connection.vhost s2 →
  Connection.keepAlive s1 = Connection.keepAlive s2 →
  Connection.username s1 = Connection.username s2 →
  Connection.password s1 = Connection.password s2 →
  Connection.useTLS s1 = Connection.useTLS s2 →
  (Connection.useTLS s1 = true → Connection.useCA s1 = Connection.useCA s2) →
  (Connection.useTLS s1 = true → Connection.useCA s1 = true →
   Connection.ca s1 = Connection.ca s2) →
  Connection.openInternal fs s1 answer = Connection.openInternal fs s2 answer.
Proof.
  destruct s1 as [h1 p1 v1 k1 tls1 vs1 uca1 ca1 ut1 t1 u1 pw1].
  destruct s2 as [h2 p2 v2 k2 tls2 vs2 uca2 ca2 ut2 t2 u2 pw2].
  cbn. intros -> -> -> -> -> -> -> Huca Hca. unfold Connection.openInternal. cbn.
  destruct tls2; [|done]. rewrite <- (Huca eq_refl).
  destruct uca1; [|done]. by rewrite (Hca eq_refl eq_refl).
Qed.

Lemma openInternal_ignores_settings_witness :
  Connection.host Sample.localhost = Connection.host Sample.unverified ∧
  Connection.port Sample.localhost = Connection.port Sample.unverified ∧
  Connection.vhost Sample.localhost = Connection.vhost Sample.unverified ∧
  Connection.keepAlive Sample.localhost = Connection.keepAlive Sample.unverified ∧
  Connection.username Sample.localhost = Connection.username Sample.unverified ∧
  Connection.password Sample.localhost = Connection.password Sample.unverified ∧
  Connection.useTLS Sample.localhost = Connection.useTLS Sample.unverified ∧
  (Connection.useTLS Sample.localhost = true →
   Connection.useCA Sample.localhost = Connection.useCA Sample.unverified) ∧
  (Connection.useTLS Sample.localhost = true → Connection.useCA Sample.localhost = true →
   Connection.ca Sample.localhost = Connection.ca Sample.unverified) ∧
  Connection.openInternal Sample.no_files Sample.localhost (inr 3) =
    Connection.openInternal Sample.no_files Sample.unverified (inr 3).
Proof.
  repeat (split; [reflexivity || discriminate|]).
  apply (openInternal_ignores_settings Sample.no_files Sample.localhost Sample.unverified
           (inr 3)); reflexivity || discriminate.
Defined.

(** X19.  Whatever the settings, [openInternal] calls [amqp.connect] with a
    host name that is not empty and a port that is not 0, 'localhost' and
    5672 standing in for them, and with no limit on the frame size.  The
    protocol is 'amqps' and socket options are passed exactly with
    [useTLS]; the options then hold one CA, the promise of reading the file
    named by [ca] when [useCA] is set and [ca] is not empty, and the
    default location otherwise.  That promise is not awaited: the call
    settles as [amqp.connect] does, also when the file cannot be read. *)
Theorem openInternal_connects (fs : Tls.files) (settings : Connection.ConnectionSettings)
    (answer : error + res) :
  ∃ opts socketOpts,
    Connection.openInternal fs settings answer =
      (opts, socketOpts,
       match answer with inl e => Rejects e | inr conn => Resolves conn end) ∧
    AmqpConnect.hostname opts ≠ EmptyString ∧
    AmqpConnect.port opts ≠ 0%Z ∧
    (Connection.host settings ≠ EmptyString →
     AmqpConnect.hostname opts = Connection.host settings) ∧
    (Connection.port settings ≠ 0%Z → AmqpConnect.port opts = Connection.port settings) ∧
    AmqpConnect.frameMax opts = 0%Z ∧
    AmqpConnect.protocol opts = (if Connection.useTLS settings then "amqps" else "amqp") ∧
    socketOpts =
      (if Connection.useTLS settings then
         Some {| AmqpConnect.ca :=
                   [fs (if Connection.useCA settings
                           && bool_decide (Connection.ca settings ≠ EmptyString)
                        then Connection.ca settings
                        else Tls.DEFAULT_CA_LOCATION)] |}
       else None).
Proof.
  eexists _, _. split; [reflexivity|]. cbn.
  split; [by case_decide|]. split; [by case_decide|].
  split; [by intros; case_decide|]. split; [by intros; case_decide|].
  split; [done|]. split; [done|].
  destruct (Connection.useTLS settings); [|done].
  destruct (Connection.useCA settings); cbn; [|done].
  unfold Tls.cert, Tls.readFileAsync.
  case_decide as Hca; [by rewrite bool_decide_false by (by intros [])|].
  by rewrite bool_decide_true.
Qed.

(** ** The wrappers: ready, once *)

(** X20.  [Sender.ready] and [Connection.ready] settle as the [resource()]
    of their handler does, its value left out: they wait while it waits and
    reject with its error, which is `<name> is not available` on a handler
    that holds null.  [Subscriber.ready] awaits the method instead of
    calling it: it resolves at once in every state of the handler, without
    touching it. *)
Theorem ready_follows_resource (h : ResourceHandler) (exchange queue : string)
    (settings : Connection.ConnectionSettings) :
  let forget := λ p : completion res,
    match p with Resolves _ => Resolves () | Rejects e => Rejects e | Waits i => Waits i end in
  Sender.ready {| Sender.__handler := h; Sender.__exchange := exchange |} =
    ({| Sender.__handler := (resource h).1; Sender.__exchange := exchange |},
     forget (resource h).2) ∧
  Connection.ready {| Connection.__settings := settings; Connection.__conn := h |} =
    ({| Connection.__settings := settings; Connection.__conn := (resource h).1 |},
     forget (resource h).2) ∧
  Subscriber.ready {| Subscriber.__handler := h; Subscriber.__queue := queue |} =
    ({| Subscriber.__handler := h; Subscriber.__queue := queue |}, Resolves ()) ∧
  (await h = Got None →
   (Sender.ready {| Sender.__handler := h; Sender.__exchange := exchange |}).2 =
     Rejects (NotAvailable (o_name (__opts h))) ∧
   (Subscriber.ready {| Subscriber.__handler := h; Subscriber.__queue := queue |}).2 =
     Resolves ()).
Proof.
  cbv zeta. unfold Sender.ready, Connection.ready, Subscriber.ready. cbn.
  destruct (resource h) as [h' p] eqn:Hres. cbn.
  split; [done|]. split; [done|]. split; [done|].
  intros Ha. revert Hres. unfold resource. rewrite Ha. by intros [= <- <-].
Qed.

Section Listeners.

Import Emitter.

Variable event : string.
Variable handler : nat.

Lemma called_emit (em : list listener) :
  called handler (emit event em).2 =
    registered event handler false em + registered event handler true em.
Proof.
  unfold called, registered, emit. cbn [fst snd].
  induction em as [|[ev l o] em IH]; [done|].
  rewrite !filter_cons. cbn [l_event l_handler l_once].
  destruct (decide (ev = event)) as [->|Hev].
  - rewrite fmap_cons, filter_cons. cbn [l_event l_handler l_once].
    destruct (decide (l = handler)) as [->|Hl].
    + destruct o.
      * rewrite (decide_False (P := _ = Build_listener event handler false)) by done.
        rewrite decide_True by done. cbn [length]. lia.
      * rewrite decide_True by done.
        rewrite (decide_False (P := _ = Build_listener event handler true)) by done.
        cbn [length]. lia.
    + rewrite !decide_False by congruence. done.
  - rewrite !decide_False by congruence. done.
Qed.

Lemma registered_emit (em : list listener) :
  registered event handler false (emit event em).1 = registered event handler false em ∧
  registered event handler true (emit event em).1 = 0.
Proof.
  unfold registered, emit. cbn [fst snd].
  induction em as [|[ev l o] em [IH1 IH2]]; [done|].
  rewrite !filter_cons. cbn [l_event l_handler l_once].
  destruct (decide (ev = event ∧ o = true)) as [[-> ->]|Hn].
  - rewrite decide_False by (by intros []).
    rewrite decide_False by done. done.
  - rewrite decide_True by done. rewrite !filter_cons.
    destruct (decide (Build_listener ev l o = Build_listener event handler false))
      as [[= -> -> ->]|Hne].
    + cbn [length]. rewrite IH1. split; [done|].
      by rewrite decide_False.
    + split; [done|]. rewrite decide_False; [done|].
      intros [= -> -> ->]. by destruct Hn.
Qed.

Lemma called_emit_times (n : nat) :
  ∀ em : list listener,
  called handler (emit_times n event em).2 =
    n * registered event handler false em +
    (if n is 0 then 0 else registered event handler true em).
Proof.
  induction n as [|n IH]; intros em; [done|].
  cbn [emit_times]. destruct (emit event em) as [em1 calls1] eqn:He.
  pose proof (called_emit em) as Hc. pose proof (registered_emit em) as [Hp Ho].
  rewrite He in Hc, Hp, Ho. cbn [fst snd] in Hc, Hp, Ho.
  specialize (IH em1). destruct (emit_times n event em1) as [em2 calls2].
  cbn [fst snd] in IH |- *.
  unfold called in *. rewrite filter_app, length_app, Hc, IH, Hp, Ho.
  destruct n; lia.
Qed.

Lemma registered_snoc (o o' : bool) (em : list listener) :
  registered event handler o
    (em ++ [{| l_event := event; l_handler := handler; l_once := o' |}]) =
  registered event handler o em + (if decide (o = o') then 1 else 0).
Proof.
  unfold registered. rewrite filter_app, length_app. f_equal.
  rewrite filter_cons, filter_nil.
  destruct (decide (o = o')) as [->|Hne]; [by rewrite decide_True|].
  rewrite decide_False; [done|]. intros [= ->]. by destruct Hne.
Qed.

(** X21.  [once] of the sender and of the subscriber registers the
    listener with [on]: it is called at every emission of the event, not at
    the first only, as the listener that [once] of the connection registers
    is. *)
Theorem once_of_sender_is_on (em : list listener) (n : nat) :
  registered event handler false em = 0 →
  registered event handler true em = 0 →
  Sender.once event handler em = Sender.on event handler em ∧
  Subscriber.once event handler em = Subscriber.on event handler em ∧
  called handler (emit_times n event (Sender.once event handler em)).2 = n ∧
  called handler (emit_times n event (Subscriber.once event handler em)).2 = n ∧
  called handler (emit_times n event (Connection.once event handler em)).2 = n `min` 1.
Proof.
  intros Hp Ho. split; [done|]. split; [done|].
  unfold Sender.once, Subscriber.once, Connection.once, on, once.
  rewrite !called_emit_times, !registered_snoc, Hp, Ho.
  repeat split; destruct n; simpl; lia.
Qed.

End Listeners.

Lemma once_of_sender_is_on_witness :
  Emitter.registered "error" 1 false (Emitter.on "status" 0 []) = 0 ∧
  Emitter.registered "error" 1 true (Emitter.on "status" 0 []) = 0 ∧
  Sender.once "error" 1 (Emitter.on "status" 0 []) =
    Sender.on "error" 1 (Emitter.on "status" 0 []) ∧
  Subscriber.once "error" 1 (Emitter.on "status" 0 []) =
    Subscriber.on "error" 1 (Emitter.on "status" 0 []) ∧
  Emitter.called 1
    (Emitter.emit_times 3 "error" (Sender.once "error" 1 (Emitter.on "status" 0 []))).2 = 3 ∧
  Emitter.called 1
    (Emitter.emit_times 3 "error"
       (Subscriber.once "error" 1 (Emitter.on "status" 0 []))).2 = 3 ∧
  Emitter.called 1
    (Emitter.emit_times 3 "error"
       (Connection.once "error" 1 (Emitter.on "status" 0 []))).2 = 3 `min` 1.
Proof.
  split; [reflexivity|]. split; [reflexivity|].
  apply (once_of_sender_is_on "error" 1 (Emitter.on "status" 0 []) 3); reflexivity.
Defined.

(** ** How the wrappers close their channel *)

Lemma close_leaves_unconnected (h : ResourceHandler) (closed : option error) :
  __status (close h closed).1 ≠ Connected.
Proof.
  unfold close. destruct (decide (__status h = Closed)) as [Hc|Hc]; [cbn; congruence|].
  destruct (decide _); [by destruct h|].
  destruct h as [o s p e rc ra dp cs sub tr]. upd.
  destruct (await _) as [i|[r|]|e']; cbn; try done.
  unfold add_waiter. cbn. by destruct (cs !! i).
Qed.

(** X22.  A subscriber and a sender that hold a channel close it
    differently.  The handler of the subscriber has no closer: [close]
    removes the listeners of the channel and calls its [close].  The
    handler of the sender calls the closer the sender gave it, which closes
    the channel only while the connection is Connected.  In the state in
    which [close()] leaves the connection, whatever its state before, the
    closer leaves the channel alone; it still does after any calls of the
    owner on a connection that was not Connecting when it was closed, and
    at any later time on one that was not Closed and had nothing under way.
    Nothing is said of a connection closed with an attempt or a delay under
    way: it can become Connected again, and the closer then closes the
    channel. *)
Theorem wrappers_close_their_channel (exchange queue : string) (ch : res)
    (conn : Connection.Connection) (closed : option error) :
  let s := {| Sender.__handler := chain_then 0 ch (Sender.__handler (Sender.new exchange));
              Sender.__exchange := exchange |} in
  let b := {| Subscriber.__handler :=
                chain_then 0 ch (Subscriber.__handler (Subscriber.new queue));
              Subscriber.__queue := queue |} in
  trace (Sender.__handler (Sender.close s None).1) =
    trace (Sender.__handler s) ++ [SetStatus Closed; RemoveAllListeners ch; CallCloser ch] ∧
  trace (Subscriber.__handler (Subscriber.close b None).1) =
    trace (Subscriber.__handler b) ++ [SetStatus Closed; RemoveAllListeners ch; CallClose ch] ∧
  (Connection.status conn = Connected → Sender.closer conn ch = [Amqp.Close ch]) ∧
  (Connection.status conn ≠ Connected → Sender.closer conn ch = []) ∧
  Sender.closer (Connection.close conn closed).1 ch = [] ∧
  (Connection.status conn ≠ Connecting →
   ∀ evs h, Forall (λ ev, owner_call ev = true) evs →
     run (Connection.__conn (Connection.close conn closed).1) evs = Some h →
     Sender.closer {| Connection.__settings := Connection.__settings conn;
                      Connection.__conn := h |} ch = []) ∧
  (settled (Connection.__conn conn) →
   Connection.status conn ≠ Connecting → Connection.status conn ≠ Closed →
   ∀ evs h, run (Connection.__conn (Connection.close conn closed).1) evs = Some h →
     Sender.closer {| Connection.__settings := Connection.__settings conn;
                      Connection.__conn := h |} ch = []).
Proof.
  cbv zeta. split; [reflexivity|]. split; [reflexivity|].
  unfold Sender.closer. split; [by intros ->|]. split.
  { intros Hs. by rewrite decide_False. }
  assert (Hcl : Connection.__conn (Connection.close conn closed).1 =
                (close (Connection.__conn conn) closed).1).
  { unfold Connection.close. by destruct (close _ _). }
  split; [|split].
  - rewrite decide_False; [done|].
    unfold Connection.status. rewrite Hcl. apply close_leaves_unconnected.
  - unfold Connection.status. rewrite Hcl. intros Hs evs h Hev Hrun.
    destruct (close_closes _ closed Hs) as [Hc _].
    destruct (closed_owner_run evs _ h Hc Hev Hrun) as (Hs' & _ & _).
    rewrite decide_False; [done|]. cbn. by rewrite Hs'.
  - unfold Connection.status. rewrite Hcl. intros Hset Hs Hnc evs h Hrun.
    rewrite (frozen_run evs _ h (close_freezes _ closed Hset Hs Hnc) Hrun).
    rewrite decide_False; [done|]. cbn. apply close_leaves_unconnected.
Qed.

(** A connection closed during the delay of a reconnection is Connected
    again once the delay is over and amqplib has answered: the closer of
    the sender then closes the channel. *)
Example closer_after_reconnection :
  (λ h, Sender.closer {| Connection.__settings := Sample.localhost;
                         Connection.__conn := h |} 7) <$>
    run (Connection.__conn (Connection.new Sample.localhost))
      [FactoryResolves 0 3; ResourceError 3 (Failure "reset"); OwnerClose; DelayElapses;
       FactoryResolves 1 4]
  = Some [Amqp.Close 7].
Proof. reflexivity. Qed.

(** ** The nodes *)

(** X23.  What the out node publishes, the in node delivers as text.  With
    a channel held and a payload for which [JSON.stringify] gives a text,
    the [input] handler publishes once, to the sender's exchange, the UTF-8
    bytes of that text, with the routing key of the node or, when it has
    none, the topic of the message, and reports nothing.  When the in node
    receives these bytes, it sends a message whose payload is the JSON text
    itself, not the value it stands for, and whose topic is the routing key
    of the in node or, when it has none, that of the delivery. *)
Theorem published_payload_arrives_as_json_text (out_props in_props : Nodes.Properties)
    (msg : Nodes.NodeMessage) (sender : Sender.Sender) (flow : bool)
    (ch : res) (key text : string) :
  await (Sender.__handler sender) = Got (Some ch) →
  Nodes.routing_key out_props msg = Amqp.String key →
  Amqp.JSON_stringify (Nodes.payload msg) = Amqp.Text text →
  Amqp.utf8 (Byte.to_N <$> String.list_byte_of_string text) = true →
  Nodes.input out_props msg sender flow =
    Some (sender,
          [Amqp.Publish ch (Sender.__exchange sender) key
             (String.list_byte_of_string text) (Nodes.options msg)],
          []) ∧
  Nodes.message in_props
    {| routingKey := key; content := String.list_byte_of_string text |} =
    Some (Nodes.Send (if decide (Nodes.routingkey in_props = EmptyString) then key
                      else Nodes.routingkey in_props)
                     text).
Proof.
  intros Ha Hk Ht Hu. split.
  - unfold Nodes.input. rewrite Hk.
    unfold Sender.send, resource. rewrite Ha, Ht. cbn. by destruct sender.
  - unfold Nodes.message, Amqp.Buffer_toString. cbn [content routingKey].
    by rewrite Hu, String.string_of_list_byte_of_string.
Qed.

Lemma published_payload_arrives_as_json_text_witness :
  await (Sender.__handler Sample.sender) = Got (Some 7) ∧
  Nodes.routing_key Sample.out_props Sample.greeting = Amqp.String "audit" ∧
  Amqp.JSON_stringify (Nodes.payload Sample.greeting) = Amqp.Text Sample.greeting_text ∧
  Amqp.utf8 (Byte.to_N <$> String.list_byte_of_string Sample.greeting_text) = true ∧
  Nodes.input Sample.out_props Sample.greeting Sample.sender true =
    Some (Sample.sender,
          [Amqp.Publish 7 (Sender.__exchange Sample.sender) "audit"
             (String.list_byte_of_string Sample.greeting_text)
             (Nodes.options Sample.greeting)],
          []) ∧
  Nodes.message Sample.in_props
    {| routingKey := "audit"; content := String.list_byte_of_string Sample.greeting_text |} =
    Some (Nodes.Send (if decide (Nodes.routingkey Sample.in_props = EmptyString) then "audit"
                      else Nodes.routingkey Sample.in_props)
                     Sample.greeting_text).
Proof.
  repeat (split; [reflexivity|]).
  apply (published_payload_arrives_as_json_text Sample.out_props Sample.in_props
           Sample.greeting Sample.sender true 7 "audit" Sample.greeting_text);
    reflexivity.
Defined.

(** The number 2^64 published by the out node arrives as the text of the
    double. *)
Example large_number_arrives :
  (Nodes.input Sample.out_props
     {| Nodes.payload := Amqp.Number "18446744073709552000";
        Nodes.topic := Amqp.Undefined; Nodes.options := None |} Sample.sender true ≫=
   λ '(_, calls, _),
     match calls with
     | [Amqp.Publish _ _ key content _] =>
         Nodes.message Sample.in_props {| routingKey := key; content := content |}
     | _ => None
     end) =
  Some (Nodes.Send "audit" "18446744073709552000").
Proof. reflexivity. Qed.

(** X24.  The [input] handler of the out node lets no failure of [send]
    out: with a routing key that is a string, it publishes nothing and
    reports the error once when the handler holds no channel (`Sender is
    not available` for a sender), when its promise is rejected, when
    [JSON.stringify] gives no text for the payload, as for [undefined], a
    function or a symbol, so that [Buffer.from] throws, or when
    [JSON.stringify] throws, as for a BigInt or a cycle; it reports nothing
    when the message is published, with the bytes of the JSON text, or when
    it waits for the channel.  The routing key of the node, when it has
    one, is used whatever the topic of the message. *)
Theorem input_reports_failures (props : Nodes.Properties) (msg : Nodes.NodeMessage)
    (sender : Sender.Sender) (flow : bool) (key : string) :
  Nodes.routing_key props msg = Amqp.String key →
  (Nodes.routingkey props ≠ EmptyString → key = Nodes.routingkey props) ∧
  match await (Sender.__handler sender) with
  | Got None =>
      Nodes.input props msg sender flow =
        Some (sender, [],
              [Nodes.Caught (Nodes.Raised
                 (NotAvailable (o_name (__opts (Sender.__handler sender)))))])
  | Thrown e =>
      Nodes.input props msg sender flow =
        Some (sender, [], [Nodes.Caught (Nodes.Raised e)])
  | Got (Some ch) =>
      (Nodes.payload msg = Amqp.Undefined →
       Nodes.input props msg sender flow =
         Some (sender, [], [Nodes.Caught Nodes.BufferTypeError])) ∧
      match Amqp.JSON_stringify (Nodes.payload msg) with
      | Amqp.Text text =>
          Nodes.input props msg sender flow =
            Some (sender,
                  [Amqp.Publish ch (Sender.__exchange sender) key
                     (String.list_byte_of_string text) (Nodes.options msg)],
                  [])
      | Amqp.NoText =>
          Nodes.input props msg sender flow =
            Some (sender, [], [Nodes.Caught Nodes.BufferTypeError])
      | Amqp.Throws =>
          Nodes.input props msg sender flow =
            Some (sender, [], [Nodes.Caught Nodes.JSONTypeError])
      end
  | Pending i =>
      ∃ sender', Nodes.input props msg sender flow = Some (sender', [], [])
  end.
Proof.
  intros Hk. split.
  { intros Hr. revert Hk. unfold Nodes.routing_key. rewrite decide_False by done.
    by intros [= <-]. }
  unfold Nodes.input. rewrite Hk. unfold Sender.send, resource.
  destruct sender as [h ex]. cbn [Sender.__handler Sender.__exchange].
  destruct (await h) as [i|[ch|]|e]; cbn; try done.
  - by eexists.
  - split; [by intros ->|].
    by destruct (Amqp.JSON_stringify (Nodes.payload msg)).
Qed.

Lemma input_reports_failures_witness :
  Nodes.routing_key Sample.out_props Sample.greeting = Amqp.String "audit" ∧
  (Nodes.routingkey Sample.out_props ≠ EmptyString →
   "audit" = Nodes.routingkey Sample.out_props) ∧
  (Nodes.payload Sample.greeting = Amqp.Undefined →
   Nodes.input Sample.out_props Sample.greeting Sample.sender true =
     Some (Sample.sender, [], [Nodes.Caught Nodes.BufferTypeError])) ∧
  Nodes.input Sample.out_props Sample.greeting Sample.sender true =
    Some (Sample.sender,
          [Amqp.Publish 7 (Sender.__exchange Sample.sender) "audit"
             (String.list_byte_of_string Sample.greeting_text)
             (Nodes.options Sample.greeting)],
          []).
Proof.
  split; [reflexivity|].
  apply (input_reports_failures Sample.out_props Sample.greeting Sample.sender true "audit").
  reflexivity.
Defined.

(** A payload that holds a BigInt, and one that is a function. *)
Example input_reports_type_errors :
  Nodes.input Sample.out_props
    {| Nodes.payload := Amqp.Object [("n", Amqp.BigInt 1)]; Nodes.topic := Amqp.Undefined;
       Nodes.options := None |} Sample.sender true =
    Some (Sample.sender, [], [Nodes.Caught Nodes.JSONTypeError]) ∧
  Nodes.input Sample.out_props
    {| Nodes.payload := Amqp.Function; Nodes.topic := Amqp.Undefined;
       Nodes.options := None |} Sample.sender true =
    Some (Sample.sender, [], [Nodes.Caught Nodes.BufferTypeError]).
Proof. split; reflexivity. Qed.

(** X25.  The [close] handlers of the out node and of the in node never
    report an error: [close] of the sender and of the subscriber resolves
    whatever the [close()] of the handler does, so that the [catch] of the
    handlers is never entered, also when the handler rejects because it was
    closed before.  The [close] handler of the server node calls [done]
    once in every state of the pool. *)
Theorem close_handlers_report_nothing (sender : Sender.Sender)
    (sub : Subscriber.Subscriber) (closed : option error)
    (toHash : Connection.ConnectionSettings → string)
    (settings : Connection.ConnectionSettings) (pool : Pool.state) :
  Nodes.out_close sender closed = ((Sender.close sender closed).1, []) ∧
  Nodes.in_close sub closed = ((Subscriber.close sub closed).1, []) ∧
  Nodes.server_close toHash settings pool =
    ((Pool.close toHash settings pool).1, [Nodes.Done]) ∧
  (__status (Sender.__handler sender) = Closed →
   (close (Sender.__handler sender) closed).2 =
     Rejects (IsClosed (o_name (__opts (Sender.__handler sender)))) ∧
   Nodes.out_close sender closed = (sender, [])).
Proof.
  unfold Nodes.out_close, Nodes.in_close, Nodes.server_close,
    Sender.close, Subscriber.close, Pool.close.
  split; [by destruct (close (Sender.__handler sender) closed)|].
  split; [by destruct (close (Subscriber.__handler sub) closed)|].
  split; [by destruct (Pool.POOL pool !! toHash settings)|].
  intros Hs. rewrite close_when_closed by done. cbn. by destruct sender.
Qed.

(** X26.  Registration.  Without a server node, the in and out nodes show
    Connecting and then Error, report that they are not configured, and
    leave the pool alone.  With one, they take the connection from the
    pool, so that the nodes of one server node share its connection; the
    out node then shows 'connected' in green although its sender has only
    started to connect, while the in node shows the status of its
    subscriber, 'connecting'. *)
Theorem registration_shows_status (toHash : Connection.ConnectionSettings → string)
    (settings : Connection.ConnectionSettings) (out_props in_props : Nodes.Properties)
    (pool : Pool.state) :
  Nodes.AmqpOut toHash None out_props pool =
    (pool, None,
     [Nodes.Status (Nodes.setStatus Connecting); Nodes.Status (Nodes.setStatus Error);
      Nodes.Failed "Node is not configured"]) ∧
  Nodes.AmqpIn toHash None in_props pool =
    (pool, None,
     [Nodes.Status (Nodes.setStatus Connecting); Nodes.Status (Nodes.setStatus Error);
      Nodes.Failed "Node is not configured"]) ∧
  ∃ conn pool1 sender sub shown_out shown_in,
    Nodes.AmqpOut toHash (Some settings) out_props pool =
      (pool1, Some (conn, sender), shown_out) ∧
    Nodes.AmqpIn toHash (Some settings) in_props pool1 = (pool1, Some (conn, sub), shown_in) ∧
    pool1 = (Pool.open toHash settings pool).2 ∧
    __status (Sender.__handler sender) = Connecting ∧
    last shown_out = Some (Nodes.Status {| Nodes.fill := "green"; Nodes.shape := "dot";
                                           Nodes.text := "connected" |}) ∧
    __status (Subscriber.__handler sub) = Connecting ∧
    last shown_in = Some (Nodes.Status {| Nodes.fill := "yellow"; Nodes.shape := "ring";
                                          Nodes.text := "connecting" |}).
Proof.
  split; [done|]. split; [done|].
  unfold Nodes.AmqpOut, Nodes.AmqpIn.
  destruct (Pool.open toHash settings pool) as [conn pool1] eqn:Hopen.
  assert (Hhit : Pool.POOL pool1 !! toHash settings = Some conn).
  { revert Hopen. unfold Pool.open.
    destruct (Pool.POOL pool !! toHash settings) as [c0|] eqn:Hl.
    - by intros [= <- <-].
    - intros [= <- <-]. cbn. apply lookup_insert_eq. }
  exists conn, pool1. rewrite (open_hit toHash settings pool1 conn Hhit).
  eexists _, _, _, _. split; [reflexivity|]. split; [reflexivity|].
  repeat split.
Qed.

(** [setStatus] shows every status under its own name; it shows
    Connected in green, Connecting as a yellow ring, and the three others,
    Error, Closing and Closed, as a red dot. *)
Lemma setStatus_shows_every_status (status : ResourceStatus) :
  Nodes.text (Nodes.setStatus status) = Nodes.toString status ∧
  (Nodes.fill (Nodes.setStatus status) = "green" ↔ status = Connected) ∧
  (Nodes.fill (Nodes.setStatus status) = "yellow" ↔ status = Connecting) ∧
  (Nodes.fill (Nodes.setStatus status) = "red" ↔
   status = Error ∨ status = Closing ∨ status = Closed) ∧
  (Nodes.shape (Nodes.setStatus status) = "ring" ↔ status = Connecting) ∧
  (∀ status', Nodes.setStatus status = Nodes.setStatus status' → status = status').
Proof.
  split; [by destruct status|].
  split; [split; [by destruct status|by intros ->]|].
  split; [split; [by destruct status|by intros ->]|].
  split.
  { split; [destruct status; cbn; try done; auto|].
    by intros [Hs|[Hs|Hs]]; rewrite Hs. }
  split; [split; [by destruct status|by intros ->]|].
  intros status'. by destruct status, status'.
Qed.

(** X27.  Two server nodes with the same properties and the same
    credentials, absent credentials counting as empty ones, have equal
    settings and are given one and the same connection by the pool,
    whatever the fingerprint; when one of them is closed, [done] is called
    and the connection is no longer registered for the other. *)
Theorem server_nodes_share_connection (toHash : Connection.ConnectionSettings → string)
    (props : Nodes.ServerProperties) (cred1 cred2 : Nodes.Credentials) (pool : Pool.state) :
  default EmptyString (Nodes.user cred1) = default EmptyString (Nodes.user cred2) →
  default EmptyString (Nodes.password cred1) = default EmptyString (Nodes.password cred2) →
  ∃ settings conn pool1 pool2,
    Nodes.AmqpServerConfig toHash props cred1 pool = (settings, conn, pool1) ∧
    Nodes.AmqpServerConfig toHash props cred2 pool1 = (settings, conn, pool1) ∧
    Nodes.server_close toHash settings pool1 = (pool2, [Nodes.Done]) ∧
    Pool.POOL pool2 !! toHash settings = None.
Proof.
  intros Hu Hp. unfold Nodes.AmqpServerConfig.
  assert (Hs : Nodes.settings_of props cred2 = Nodes.settings_of props cred1).
  { unfold Nodes.settings_of. by rewrite Hu, Hp. }
  rewrite Hs. set (settings := Nodes.settings_of props cred1).
  destruct (Pool.open toHash settings pool) as [conn pool1] eqn:Hopen.
  assert (Hhit : Pool.POOL pool1 !! toHash settings = Some conn).
  { revert Hopen. unfold Pool.open.
    destruct (Pool.POOL pool !! toHash settings) as [c0|] eqn:Hl.
    - by intros [= <- <-].
    - intros [= <- <-]. cbn. apply lookup_insert_eq. }
  exists settings, conn, pool1. rewrite (open_hit toHash settings pool1 conn Hhit).
  eexists. split; [done|]. split; [done|].
  unfold Nodes.server_close, Pool.close. rewrite Hhit. cbn.
  split; [reflexivity|]. apply lookup_delete_eq.
Qed.

Lemma server_nodes_share_connection_witness :
  default EmptyString (Nodes.user Sample.no_credentials) =
    default EmptyString (Nodes.user Sample.empty_credentials) ∧
  default EmptyString (Nodes.password Sample.no_credentials) =
    default EmptyString (Nodes.password Sample.empty_credentials) ∧
  ∃ settings conn pool1 pool2,
    Nodes.AmqpServerConfig Sample.fingerprint Sample.server_props Sample.no_credentials
      Pool.empty = (settings, conn, pool1) ∧
    Nodes.AmqpServerConfig Sample.fingerprint Sample.server_props Sample.empty_credentials
      pool1 = (settings, conn, pool1) ∧
    Nodes.server_close Sample.fingerprint settings pool1 = (pool2, [Nodes.Done]) ∧
    Pool.POOL pool2 !! Sample.fingerprint settings = None.
Proof.
  split; [reflexivity|]. split; [reflexivity|].
  apply (server_nodes_share_connection Sample.fingerprint Sample.server_props
           Sample.no_credentials Sample.empty_credentials Pool.empty); reflexivity.
Defined.
